(** * arxiv-scan: entry evaluation and ranking

    A shallow embedding of [arxiv_scan/entry_evaluation.py]: the [Entry]
    class with its marking methods, [Entry.evaluate], [evaluate_entries]
    and [sort_entries], together with the parts of the Python runtime
    they call ([str.lower], [str.count], list item assignment, [sorted],
    slicing, and the fragment of the [re] module reached through
    [re.finditer] and [re.search]); and of [print_entries] of
    [arxiv_scan/output.py], which prints the ranked entries.  The
    methods that call [re] are also given with the two calls left open
    ([AnyRe]), for what holds of them on every pattern.

    Python [int] is [Z]; a [str] is the list of its characters; a [dict]
    is the sequence of its items in iteration order; an [Entry] object is
    a record living in a heap, and lists of entries are lists of
    references into that heap. *)

From Stdlib Require Import List Bool Arith ZArith Lia Ascii String.
From Stdlib Require Import Permutation Sorted DecimalString.
Import ListNotations.

Set Implicit Arguments.

Local Open Scope Z_scope.

(* ================================================================== *)
(** ** Python strings *)
(* ================================================================== *)

(** A [str] is its sequence of characters.  Characters are the code
    points below 256, carried by [ascii]. *)
Definition str := list ascii.

(** String literals for examples. *)
Definition lit (x : string) : str := list_ascii_of_string x.

Module Char.

Definition code (c : ascii) : nat := nat_of_ascii c.

Definition between (lo hi : nat) (c : ascii) : bool :=
  (Nat.leb lo (code c) && Nat.leb (code c) hi)%bool.

(** Upper-case letters: [A-Z], and in the upper half U+00C0..U+00DE
    except the multiplication sign U+00D7. *)
Definition isupper (c : ascii) : bool :=
  (between 65 90 c
   || (between 192 222 c && negb (Nat.eqb (code c) 215)))%bool.

(** [str.lower] on one character: every upper-case letter of this
    range has its lower-case partner 32 code points above. *)
Definition lower (c : ascii) : ascii :=
  if isupper c then ascii_of_nat (code c + 32) else c.

Definition isdigit (c : ascii) : bool := between 48 57 c.

Definition isascii_alnum (c : ascii) : bool :=
  (between 48 57 c || between 65 90 c || between 97 122 c)%bool.

(** [str.isalnum] on one character. *)
Definition isalnum (c : ascii) : bool :=
  (isascii_alnum c
   || Nat.eqb (code c) 170 || Nat.eqb (code c) 178
   || Nat.eqb (code c) 179 || Nat.eqb (code c) 181
   || Nat.eqb (code c) 185 || Nat.eqb (code c) 186
   || between 188 190 c
   || between 192 214 c || between 216 246 c || between 248 255 c)%bool.

(** A word character for [\b]: alphanumeric or the underscore. *)
Definition isword (c : ascii) : bool :=
  (isalnum c || Nat.eqb (code c) 95)%bool.

Definition eqb (a b : ascii) : bool := Ascii.eqb a b.

End Char.

(** [str.lower()].  On the code points below 256 lowering is done
    character by character and keeps the length; outside them it need
    not (U+0130 is lowered to two code points). *)
Definition lower (x : str) : str := map Char.lower x.

(** [x.startswith(sub)] *)
Fixpoint startswith (sub x : str) : bool :=
  match sub, x with
  | [], _ => true
  | _ :: _, [] => false
  | a :: sub', b :: x' => (Char.eqb a b && startswith sub' x')%bool
  end.

(** The scan behind [str.count] for a non-empty [sub]: left to right,
    and after an occurrence the scan resumes behind it, so occurrences
    do not overlap.  [skip] is the number of characters of the last
    occurrence that still lie ahead. *)
Fixpoint count_scan (sub x : str) (skip : nat) : nat :=
  match x with
  | [] => O
  | _ :: x' =>
      match skip with
      | S k => count_scan sub x' k
      | O => if startswith sub x
             then S (count_scan sub x' (Nat.pred (List.length sub)))
             else count_scan sub x' O
      end
  end.

(** [x.count(sub)]: the number of non-overlapping occurrences of [sub]
    in [x]; for the empty [sub] Python answers [len(x) + 1]. *)
Definition count (x sub : str) : Z :=
  match sub with
  | [] => Z.of_nat (S (List.length x))
  | _ :: _ => Z.of_nat (count_scan sub x O)
  end.

(* ================================================================== *)
(** ** Outcomes of a call *)
(* ================================================================== *)

(** The exceptions the modelled code can raise. *)
Inductive exn : Type :=
| IndexError   (* list assignment index out of range *)
| re_error.    (* re.error: the pattern does not compile *)

(** A call returns a value, raises, or leaves the modelled fragment of
    the regular-expression syntax ([Unmodelled]: the model then says
    nothing about what Python does). *)
Inductive outcome (A : Type) : Type :=
| Returned (a : A)
| Raised (x : exn)
| Unmodelled.

Arguments Returned {A} a.
Arguments Raised {A} x.
Arguments Unmodelled {A}.

(* ================================================================== *)
(** ** The [re] module *)
(* ================================================================== *)

(** The fragment of Python's regular expressions (CPython 3.7 and later)
    modelled here: literal characters, [.], [\b], escaped punctuation,
    groups, alternation, and the greedy quantifiers [*], [+], [?] over a
    body that cannot match the empty string.  Character sets, [{m,n}],
    anchors, lazy and possessive quantifiers, [(?...)] and the other
    escapes are outside it. *)
Module re.

Inductive regex : Type :=
| Eps
| Lit (c : ascii)
| Any
| Bound
| Seq (a b : regex)
| Alt (a b : regex)
| Star (a : regex)
| Plus (a : regex)
| Opt (a : regex).

Fixpoint nullable (r : regex) : bool :=
  match r with
  | Eps | Bound | Star _ | Opt _ => true
  | Lit _ | Any => false
  | Seq a b => (nullable a && nullable b)%bool
  | Alt a b => (nullable a || nullable b)%bool
  | Plus a => nullable a
  end.

(** *** Parsing *)

(** What the parser remembers of the last item of a branch: a
    position assertion cannot be repeated ("nothing to repeat"), an
    item that carries a quantifier cannot take another one ("multiple
    repeat"). *)
Inductive kind : Type := Plain | At | Repeat.

(** A group being parsed: its finished branches and the items of the
    branch in progress, both most recent first. *)
Record frame : Type := Frame {
  branches : list regex;
  items : list (regex * kind)
}.

Definition empty_frame : frame := Frame [] [].

Definition branch_of (its : list (regex * kind)) : regex :=
  fold_left (fun acc it => Seq (fst it) acc) its Eps.

Definition close (f : frame) : regex :=
  fold_left (fun acc b => Alt b acc) (branches f) (branch_of (items f)).

Definition push (it : regex * kind) (f : frame) : frame :=
  Frame (branches f) (it :: items f).

Definition next_branch (f : frame) : frame :=
  Frame (branch_of (items f) :: branches f) [].

Definition backslash : ascii := ascii_of_nat 92.

Definition ch (c : ascii) (x : string) : bool :=
  match x with
  | String d EmptyString => Ascii.eqb c d
  | _ => false
  end.

Definition quantifier (c : ascii) : option (regex -> regex) :=
  if ch c "*" then Some Star
  else if ch c "+" then Some Plus
  else if ch c "?" then Some Opt
  else None.

Definition starts_with_any (p : str) (x y : string) : bool :=
  match p with
  | c :: _ => (ch c x || ch c y)%bool
  | [] => false
  end.

(** One left-to-right pass with an explicit stack of open groups;
    the first error or unmodelled construct met decides. *)
Fixpoint parse (p : str) (cur : frame) (stack : list frame)
  : outcome regex :=
  match p with
  | [] =>
      match stack with
      | [] => Returned (close cur)
      | _ :: _ => Raised re_error   (* missing ), unterminated subpattern *)
      end
  | c :: p' =>
      if ch c "(" then
        if starts_with_any p' "?" "?" then Unmodelled
        else parse p' empty_frame (cur :: stack)
      else if ch c ")" then
        match stack with
        | [] => Raised re_error     (* unbalanced parenthesis *)
        | parent :: stack' => parse p' (push (close cur, Plain) parent) stack'
        end
      else if ch c "|" then parse p' (next_branch cur) stack
      else
        match quantifier c with
        | Some q =>
            match items cur with
            | [] => Raised re_error               (* nothing to repeat *)
            | (_, At) :: _ => Raised re_error     (* nothing to repeat *)
            | (_, Repeat) :: _ => Raised re_error (* multiple repeat *)
            | (r, Plain) :: rest =>
                if starts_with_any p' "?" "+" then Unmodelled
                else if nullable r then Unmodelled
                else parse p' (Frame (branches cur) ((q r, Repeat) :: rest)) stack
            end
        | None =>
            if Ascii.eqb c backslash then
              match p' with
              | [] => Raised re_error             (* bad escape (end of pattern) *)
              | d :: p'' =>
                  if ch d "b" then parse p'' (push (Bound, At) cur) stack
                  else if Char.isascii_alnum d then Unmodelled
                  else parse p'' (push (Lit d, Plain) cur) stack
              end
            else if ch c "." then parse p' (push (Any, Plain) cur) stack
            else if (ch c "[" || ch c "{" || ch c "^" || ch c "$")%bool
              then Unmodelled
            else parse p' (push (Lit c, Plain) cur) stack
        end
  end.

(** [re.compile(pattern)] *)
Definition compile (pattern : str) : outcome regex :=
  parse pattern empty_frame [].

(** *** Matching *)

(** A backtracking matcher in continuation-passing style: [run r i k]
    matches [r] from offset [i] and hands the offset it reached to
    [k]; alternatives are tried in the engine's order (left branch
    first, one more repetition before leaving the loop). *)
Section Matching.

Variable ignorecase : bool.
Variable subject : str.

Definition same (p c : ascii) : bool :=
  if ignorecase then Char.eqb (Char.lower p) (Char.lower c)
  else Char.eqb p c.

Definition word_at (i : nat) : bool :=
  match nth_error subject i with
  | Some c => Char.isword c
  | None => false
  end.

(** [\b]: exactly one of the characters before and at [i] is a
    word character (outside the string counts as not one). *)
Definition at_boundary (i : nat) : bool :=
  xorb (match i with O => false | S j => word_at j end) (word_at i).

(** The loop of [*] and [+]: an iteration must move forward. *)
Fixpoint iterate (body : nat -> (nat -> option nat) -> option nat)
  (fuel i : nat) (k : nat -> option nat) : option nat :=
  match fuel with
  | O => k i
  | S fuel' =>
      match body i (fun j => if Nat.ltb i j
                             then iterate body fuel' j k else None) with
      | Some e => Some e
      | None => k i
      end
  end.

Fixpoint run (r : regex) (i : nat) (k : nat -> option nat)
  : option nat :=
  match r with
  | Eps => k i
  | Lit p =>
      match nth_error subject i with
      | Some c => if same p c then k (S i) else None
      | None => None
      end
  | Any =>
      match nth_error subject i with
      | Some c => if Nat.eqb (Char.code c) 10 then None else k (S i)
      | None => None
      end
  | Bound => if at_boundary i then k i else None
  | Seq a b => run a i (fun j => run b j k)
  | Alt a b =>
      match run a i k with
      | Some e => Some e
      | None => run b i k
      end
  | Star a => iterate (run a) (S (List.length subject)) i k
  | Plus a =>
      run a i (fun j => iterate (run a) (S (List.length subject)) j k)
  | Opt a =>
      match run a i k with
      | Some e => Some e
      | None => k i
      end
  end.

(** Try the start offsets [i], [i+1], ... ([n] of them).  With
    [must_advance] an empty match at the first offset is refused. *)
Fixpoint search_from (r : regex) (n i : nat) (must_advance : bool)
  : option (nat * nat) :=
  match n with
  | O => None
  | S n' =>
      match run r i (fun j => if (must_advance && Nat.eqb j i)%bool
                              then None else Some j) with
      | Some e => Some (i, e)
      | None => search_from r n' (S i) false
      end
  end.

Definition search_at (r : regex) (start : nat) (must_advance : bool)
  : option (nat * nat) :=
  search_from r (S (List.length subject) - start) start must_advance.

(** The scanner behind [finditer]: each search starts where the
    last match ended, and after an empty match the next one must
    advance. *)
Fixpoint scan (r : regex) (fuel start : nat) (must_advance : bool)
  : list (nat * nat) :=
  match fuel with
  | O => []
  | S fuel' =>
      match search_at r start must_advance with
      | None => []
      | Some (b, e) => (b, e) :: scan r fuel' e (Nat.eqb b e)
      end
  end.

End Matching.

Definition bind {A B : Type} (o : outcome A) (f : A -> outcome B)
  : outcome B :=
  match o with
  | Returned a => f a
  | Raised x => Raised x
  | Unmodelled => Unmodelled
  end.

(** [[(m.start(), m.end()) for m in re.finditer(pattern, string)]] *)
Definition finditer (pattern string : str) : outcome (list (nat * nat)) :=
  bind (compile pattern) (fun r =>
    Returned (scan false string r
                (2 * List.length string + 2) O false)).

(** [re.search(pattern, string, flags=re.IGNORECASE) is not None] *)
Definition search_ignorecase (pattern string : str) : outcome bool :=
  bind (compile pattern) (fun r =>
    Returned (match search_at true string r O false with
              | Some _ => true
              | None => false
              end)).

End re.

(* ================================================================== *)
(** ** Stateful calls *)
(* ================================================================== *)

(** A call that works on a mutable state [S]: it ends in an outcome and
    leaves a state behind.  What was mutated before an exception stays
    mutated, as it does in Python. *)
Definition St (S A : Type) : Type := S -> outcome A * S.

Definition ret {S A : Type} (a : A) : St S A := fun st => (Returned a, st).

Definition bind {S A B : Type} (m : St S A) (f : A -> St S B) : St S B :=
  fun st =>
    match m st with
    | (Returned a, st') => f a st'
    | (Raised x, st') => (Raised x, st')
    | (Unmodelled, st') => (Unmodelled, st')
    end.

Definition lift {S A : Type} (o : outcome A) : St S A := fun st => (o, st).

Definition get {S A : Type} (f : S -> A) : St S A :=
  fun st => (Returned (f st), st).

Definition modify {S : Type} (f : S -> S) : St S unit :=
  fun st => (Returned tt, f st).

Declare Scope st_scope.
Delimit Scope st_scope with st.
Notation "x <- m ;; k" := (bind m (fun x => k))
  (at level 61, m at next level, right associativity) : st_scope.
Notation "m ;; k" := (bind m (fun _ => k))
  (at level 61, right associativity) : st_scope.
Local Open Scope st_scope.

(** [for x in xs: body(x)] *)
Fixpoint for_each {S A : Type} (xs : list A) (body : A -> St S unit)
  : St S unit :=
  match xs with
  | [] => ret tt
  | x :: xs' => body x ;; for_each xs' body
  end.

(** [enumerate(xs)] *)
Definition enumerate {A : Type} (xs : list A) : list (Z * A) :=
  combine (map Z.of_nat (seq 0 (List.length xs))) xs.

(** [range(a, b)] *)
Definition range (a b : nat) : list Z := map Z.of_nat (seq a (b - a)).

(** [zip(xs, ys)] is [combine xs ys]. *)

(** [l[i] = v] on a list: a negative index counts from the end, an
    index out of range raises [IndexError]. *)
Fixpoint replace_nth {A : Type} (l : list A) (n : nat) (v : A) : list A :=
  match l, n with
  | [], _ => []
  | _ :: l', O => v :: l'
  | x :: l', S n' => x :: replace_nth l' n' v
  end.

Definition setitem {A : Type} (l : list A) (i : Z) (v : A) : option (list A) :=
  let n := Z.of_nat (List.length l) in
  let j := if i <? 0 then i + n else i in
  if ((j <? 0) || (n <=? j))%bool then None
  else Some (replace_nth l (Z.to_nat j) v).

(* ================================================================== *)
(** ** class Entry *)
(* ================================================================== *)

(** [datetime] values are only stored and printed; a timestamp stands
    for them. *)
Definition datetime := Z.

Record Entry : Type := mkEntry {
  id : str;
  title : str;
  authors : list str;
  abstract : str;
  category : str;
  date_submitted : datetime;
  date_updated : datetime;
  title_marks : list Z;
  author_marks : list bool;
  rating : Z
}.

Definition set_title_marks (v : list Z) (e : Entry) : Entry :=
  mkEntry (id e) (title e) (authors e) (abstract e) (category e)
          (date_submitted e) (date_updated e) v (author_marks e) (rating e).

Definition set_author_marks (v : list bool) (e : Entry) : Entry :=
  mkEntry (id e) (title e) (authors e) (abstract e) (category e)
          (date_submitted e) (date_updated e) (title_marks e) v (rating e).

Definition set_rating (v : Z) (e : Entry) : Entry :=
  mkEntry (id e) (title e) (authors e) (abstract e) (category e)
          (date_submitted e) (date_updated e) (title_marks e)
          (author_marks e) v.

(** [Entry.__init__]; the argument [number] is accepted and not kept. *)
Definition Entry_init (id title : str) (authors : list str) (abstract : str)
  (date_submitted date_updated : datetime) (category : str)
  (number : option Z) : Entry :=
  mkEntry id title authors abstract category date_submitted date_updated
          [] (repeat false (List.length authors)) (-1).

(** A method of [Entry]: a call on [self]. *)
Definition method (A : Type) : Type := St Entry A.

(** [self.title_marks.append(position)] *)
Definition mark_title_position (position : Z) : method unit :=
  modify (fun self => set_title_marks (title_marks self ++ [position]) self).

Definition mark_title_keyword (keyword : str) : method unit :=
  counts <- get (fun self => count (lower (title self)) keyword) ;;
  for_each (repeat tt (Z.to_nat counts)) (fun _ =>
    lowered <- get (fun self => lower (title self)) ;;
    starts <- lift (re.finditer keyword lowered) ;;
    lowered' <- get (fun self => lower (title self)) ;;
    ends <- lift (re.finditer keyword lowered') ;;
    for_each (combine (map fst starts) (map snd ends)) (fun se =>
      for_each (range (fst se) (snd se)) (fun pos =>
        mark_title_position pos))).

(** [self.author_marks[number] = True] *)
Definition mark_author (number : Z) : method unit :=
  fun self =>
    match setitem (author_marks self) number true with
    | Some marks => (Returned tt, set_author_marks marks self)
    | None => (Raised IndexError, self)
    end.

(** [self.rating += v] *)
Definition add_rating (v : Z) : method unit :=
  modify (fun self => set_rating (rating self + v) self).

(** A [Dict[str, int]] as the sequence of its items. *)
Definition ratings := list (str * Z).

(** [r'\b{}\b'.format(author)] *)
Definition word_pattern (author : str) : str :=
  lit "\b" ++ author ++ lit "\b".

(** The body of the loop over [keyword_ratings.items()]. *)
Definition rate_keyword (rate_abstract : bool) (kr : str * Z) : method unit :=
  let keyword := lower (fst kr) in
  let rating := snd kr in
  counts <- get (fun self => count (lower (title self)) keyword) ;;
  (if 0 <? counts
   then mark_title_keyword keyword ;; add_rating (counts * rating)
   else ret tt) ;;
  (if rate_abstract
   then n <- get (fun self => count (lower (abstract self)) keyword) ;;
        add_rating (n * rating)
   else ret tt).

(** The body of the loop over [enumerate(self.authors)]. *)
Definition rate_author_name (author : str) (rating : Z) (ia : Z * str)
  : method unit :=
  found <- lift (re.search_ignorecase (word_pattern author) (snd ia)) ;;
  if found : bool
  then mark_author (fst ia) ;; add_rating rating
  else ret tt.

(** The body of the loop over [author_ratings.items()]. *)
Definition rate_author (ar : str * Z) : method unit :=
  names <- get authors ;;
  for_each (enumerate names) (rate_author_name (fst ar) (snd ar)).

Definition evaluate (keyword_ratings author_ratings : ratings)
  (rate_abstract : bool) : method Z :=
  modify (set_rating 0) ;;
  for_each keyword_ratings (rate_keyword rate_abstract) ;;
  for_each author_ratings rate_author ;;
  get rating.

(* ================================================================== *)
(** ** The methods over any [re] *)
(* ================================================================== *)

(** [re.finditer] and [re.search] are calls into a library, and the
    module [re] above models them for a fragment of the pattern syntax
    only.  Here the methods that call them are written once more with
    the two functions left open: what is proved of these holds whatever
    the library answers to a pattern, inside that fragment and outside
    it.  The methods above are these at [re.finditer] and
    [re.search_ignorecase]. *)
Module AnyRe.

Section Library.

(** [[(m.start(), m.end()) for m in re.finditer(pattern, string)]] *)
Variable finditer : str -> str -> outcome (list (nat * nat)).

(** [re.search(pattern, string, flags=re.IGNORECASE) is not None] *)
Variable search_ignorecase : str -> str -> outcome bool.

Definition mark_title_keyword (keyword : str) : method unit :=
  counts <- get (fun self => count (lower (title self)) keyword) ;;
  for_each (repeat tt (Z.to_nat counts)) (fun _ =>
    lowered <- get (fun self => lower (title self)) ;;
    starts <- lift (finditer keyword lowered) ;;
    lowered' <- get (fun self => lower (title self)) ;;
    ends <- lift (finditer keyword lowered') ;;
    for_each (combine (map fst starts) (map snd ends)) (fun se =>
      for_each (range (fst se) (snd se)) (fun pos =>
        mark_title_position pos))).

(** The body of the loop over [keyword_ratings.items()]. *)
Definition rate_keyword (rate_abstract : bool) (kr : str * Z) : method unit :=
  let keyword := lower (fst kr) in
  let rating := snd kr in
  counts <- get (fun self => count (lower (title self)) keyword) ;;
  (if 0 <? counts
   then mark_title_keyword keyword ;; add_rating (counts * rating)
   else ret tt) ;;
  (if rate_abstract
   then n <- get (fun self => count (lower (abstract self)) keyword) ;;
        add_rating (n * rating)
   else ret tt).

(** The body of the loop over [enumerate(self.authors)]. *)
Definition rate_author_name (author : str) (rating : Z) (ia : Z * str)
  : method unit :=
  found <- lift (search_ignorecase (word_pattern author) (snd ia)) ;;
  if found : bool
  then mark_author (fst ia) ;; add_rating rating
  else ret tt.

(** The body of the loop over [author_ratings.items()]. *)
Definition rate_author (ar : str * Z) : method unit :=
  names <- get authors ;;
  for_each (enumerate names) (rate_author_name (fst ar) (snd ar)).

Definition evaluate (keyword_ratings author_ratings : ratings)
  (rate_abstract : bool) : method Z :=
  modify (set_rating 0) ;;
  for_each keyword_ratings (rate_keyword rate_abstract) ;;
  for_each author_ratings rate_author ;;
  get rating.

(** The match test of the code: the search for [\b<fragment>\b], the
    fragment read as a regular expression, finds something. *)
Definition matched (fragment name : str) : bool :=
  match search_ignorecase (word_pattern fragment) name with
  | Returned b => b
  | _ => false
  end.

End Library.

End AnyRe.

(* ================================================================== *)
(** ** Entry objects in the heap *)
(* ================================================================== *)

(** Lists of entries hold references; the same object may be listed
    more than once. *)
Definition ref := nat.
Definition heap := ref -> Entry.

Definition upd (h : heap) (r : ref) (e : Entry) : heap :=
  fun r' => if Nat.eqb r' r then e else h r'.

(** Call a method on the object behind a reference. *)
Definition on {A : Type} (r : ref) (m : method A) : St heap A :=
  fun h => let (o, e) := m (h r) in (o, upd h r e).

(** Read an attribute of the object behind a reference. *)
Definition attr {A : Type} (f : Entry -> A) (r : ref) : St heap A :=
  get (fun h : heap => f (h r)).

Definition evaluate_entries (entries : list ref)
  (keyword_ratings author_ratings : ratings) (rate_abstract : bool)
  : St heap (list ref) :=
  for_each entries (fun entry =>
    on entry (evaluate keyword_ratings author_ratings rate_abstract) ;;
    ret tt) ;;
  ret entries.

(** [filter(pred, xs)], consumed to the end *)
Fixpoint filterM {S A : Type} (pred : A -> St S bool) (xs : list A)
  : St S (list A) :=
  match xs with
  | [] => ret []
  | x :: xs' =>
      keep <- pred x ;;
      rest <- filterM pred xs' ;;
      ret (if keep : bool then x :: rest else rest)
  end.

(** [[key(x) for x in xs]] *)
Fixpoint mapM {S A B : Type} (key : A -> St S B) (xs : list A)
  : St S (list B) :=
  match xs with
  | [] => ret []
  | x :: xs' =>
      k <- key x ;;
      rest <- mapM key xs' ;;
      ret (k :: rest)
  end.

(** [list.sort] is stable; a stable insertion sort on the keys stands
    for it. *)
Fixpoint insert {A : Type} (x : Z * A) (l : list (Z * A)) : list (Z * A) :=
  match l with
  | [] => [x]
  | y :: l' => if fst x <=? fst y then x :: l else y :: insert x l'
  end.

Fixpoint stable_sort {A : Type} (l : list (Z * A)) : list (Z * A) :=
  match l with
  | [] => []
  | x :: l' => insert x (stable_sort l')
  end.

(** [sorted(xs, key=key, reverse=reverse)]: the keys are computed once,
    and for [reverse] the list is reversed, sorted and reversed again,
    which keeps equal keys in their original order. *)
Definition sorted {S A : Type} (xs : list A) (key : A -> St S Z)
  (reverse : bool) : St S (list A) :=
  keys <- mapM key xs ;;
  let keyed := combine keys xs in
  ret (map snd (if reverse then rev (stable_sort (rev keyed))
                else stable_sort keyed)).

(** [xs[:stop]] *)
Definition slice_to {A : Type} (xs : list A) (stop : option Z) : list A :=
  match stop with
  | None => xs
  | Some n =>
      if n <? 0 then firstn (Z.to_nat (Z.of_nat (List.length xs) + n)) xs
      else firstn (Z.to_nat n) xs
  end.

Definition sort_entries (entries : list ref) (rating_min : Z)
  (reverse : bool) (length : option Z) : St heap (list ref) :=
  let length :=
    match length with
    | Some n => if n <? 0 then None else Some n
    | None => None
    end in
  entries_filtered <-
    filterM (fun entry => r <- attr rating entry ;; ret (rating_min <=? r))
            entries ;;
  results <- sorted entries_filtered (attr rating) (negb reverse) ;;
  ret (slice_to results length).

(* ================================================================== *)
(** ** Entries for the examples *)
(* ================================================================== *)

Definition paper (title : str) (authors : list str) (abstract : str) : Entry :=
  Entry_init (lit "2101.00001") title authors abstract 0 0 (lit "cs.AI") None.

(** Entries 0..3 with ratings 5, 1, 4, 3. *)
Definition rated (rs : list Z) : heap :=
  fun r => set_rating (nth r rs (-1)) (paper (lit "t") [] (lit "")).


(* ================================================================== *)
(** ** What evaluation computes *)
(* ================================================================== *)

Definition sumZ (l : list Z) : Z := fold_right Z.add 0 l.

(** The contribution of the keyword table: per item, the count in the
    lowered title times the weight, and the same for the abstract when
    it is rated. *)
Definition keyword_score (title abstract : str) (rate_abstract : bool)
  (keyword_ratings : ratings) : Z :=
  sumZ (map (fun kr =>
               count (lower title) (lower (fst kr)) * snd kr
               + (if rate_abstract
                  then count (lower abstract) (lower (fst kr)) * snd kr
                  else 0))
            keyword_ratings).

(** The contribution of the author table for a given match test: the
    weight once per (item, author) pair that matches. *)
Definition author_score (hit : str -> str -> bool) (names : list str)
  (author_ratings : ratings) : Z :=
  sumZ (map (fun ar =>
               sumZ (map (fun a => if hit (fst ar) a then snd ar else 0)
                         names))
            author_ratings).

(** Whether some item of the author table matches the [i]-th author. *)
Definition hit_at (hit : str -> str -> bool) (names : list str)
  (author_ratings : ratings) (i : nat) : bool :=
  match nth_error names i with
  | Some a => existsb (fun ar => hit (fst ar) a) author_ratings
  | None => false
  end.

(** The match test of the code: the search for [\b<fragment>\b], the
    fragment read as a regular expression, finds something. *)
Definition matched (fragment name : str) : bool :=
  match re.search_ignorecase (word_pattern fragment) name with
  | Returned b => b
  | _ => false
  end.

(** The match test in the specification's words: the fragment occurs in
    the name, compared case-insensitively, with a word boundary on both
    sides. *)
Definition word_at_offset (fragment name : str) (i : nat) : bool :=
  (startswith (lower fragment) (skipn i (lower name))
   && re.at_boundary name i
   && re.at_boundary name (i + List.length fragment))%bool.

Definition occurs_as_word (fragment name : str) : bool :=
  existsb (word_at_offset fragment name) (seq 0 (S (List.length name))).

(** The characters with a meaning of their own in a pattern. *)
Definition special (c : ascii) : bool :=
  existsb (Ascii.eqb c) (re.backslash :: lit ".^$*+?{}[]|()").

(** A string that, as a pattern, stands for itself. *)
Definition plain (x : str) : bool := forallb (fun c => negb (special c)) x.

(** The pattern of a plain string: its characters in sequence. *)
Definition literally (x : str) (tail : re.regex) : re.regex :=
  fold_right (fun c r => re.Seq (re.Lit c) r) tail x.

(** The specification's sentence on [evaluate], as it is written. *)
Definition claimed_rating (e : Entry) (keyword_ratings author_ratings : ratings)
  (rate_abstract : bool) : Z :=
  keyword_score (title e) (abstract e) rate_abstract keyword_ratings
  + author_score occurs_as_word (authors e) author_ratings.

Definition claimed_author_marks (e : Entry) (author_ratings : ratings)
  : list bool :=
  map (fun a => existsb (fun ar => occurs_as_word (fst ar) a) author_ratings)
      (authors e).

(* ================================================================== *)
(** ** Invariants and relations on entries *)
(* ================================================================== *)

(** The author invariant: one mark per author. *)
Definition marks_fit (e : Entry) : Prop :=
  List.length (author_marks e) = List.length (authors e).

(** The bibliographic fields. *)
Definition bib (e : Entry) :=
  (id e, title e, authors e, abstract e, category e,
   date_submitted e, date_updated e).

(** [grows e e']: [e'] is [e] with possibly another rating, more title
    marks appended and more authors marked. *)
Record grows (e e' : Entry) : Prop := Grows {
  grows_bib : bib e' = bib e;
  grows_len : List.length (author_marks e') = List.length (author_marks e);
  grows_title : exists extra, title_marks e' = title_marks e ++ extra;
  grows_author : forall i, nth i (author_marks e) false = true ->
                           nth i (author_marks e') false = true
}.

(** Marking the title touches nothing but [title_marks]. *)
Definition only_title_marks (e e' : Entry) : Prop :=
  e' = set_title_marks (title_marks e') e.

(** [m] leaves the state related to the one it started from, whatever
    its outcome. *)
Definition always {S A : Type} (R : S -> S -> Prop) (m : St S A) : Prop :=
  forall st, R st (snd (m st)).

(** Two runs from related states end in the same outcome and in related
    states. *)
Definition respects {S A : Type} (R : S -> S -> Prop) (m : St S A) : Prop :=
  forall s1 s2, R s1 s2 ->
    fst (m s1) = fst (m s2) /\ R (snd (m s1)) (snd (m s2)).

(** Two entries that evaluation cannot tell apart: same texts, same
    number of marks, same rating, and title marks that extend [b1] and
    [b2] by the same offsets. *)
Record alike (b1 b2 : list Z) (e1 e2 : Entry) : Prop := Alike {
  alike_title : title e1 = title e2;
  alike_abstract : abstract e1 = abstract e2;
  alike_authors : authors e1 = authors e2;
  alike_len : List.length (author_marks e1) = List.length (author_marks e2);
  alike_rating : rating e1 = rating e2;
  alike_marks : exists extra, title_marks e1 = b1 ++ extra
                              /\ title_marks e2 = b2 ++ extra
}.

(** Sortedness of a list of references by rating. *)
Definition descending (h : heap) (l : list ref) : Prop :=
  StronglySorted (fun a b => rating (h b) <= rating (h a)) l.

Definition ascending (h : heap) (l : list ref) : Prop :=
  StronglySorted (fun a b => rating (h a) <= rating (h b)) l.

(** The entries that pass the filter, in input order. *)
Definition passing (h : heap) (rating_min : Z) (entries : list ref)
  : list ref :=
  filter (fun r => rating_min <=? rating (h r)) entries.

(** The references rated [k], in list order. *)
Definition rated_at (h : heap) (k : Z) (l : list ref) : list ref :=
  filter (fun r => rating (h r) =? k) l.

(** The rating does not fall below zero once it is there. *)
Definition stays_nonneg (e e' : Entry) : Prop :=
  0 <= rating e -> 0 <= rating e'.

(** Every object of the heap only grows. *)
Definition heap_grows (h h' : heap) : Prop :=
  forall r, grows (h r) (h' r).

(** Order on keyed items. *)
Definition key_le {A : Type} (a b : Z * A) : Prop := fst a <= fst b.

(** The items keyed [k], in list order. *)
Definition keyed_at {A : Type} (k : Z) (l : list (Z * A)) : list (Z * A) :=
  filter (fun p => fst p =? k) l.

(** The references of [xs] in the order [sorted] gives them when the
    key is the rating. *)
Definition ranked (h : heap) (xs : list ref) (reverse : bool) : list ref :=
  let keyed := combine (map (fun r => rating (h r)) xs) xs in
  map snd (if reverse then rev (stable_sort (rev keyed))
           else stable_sort keyed).

(** Keyed items whose key is the rating of the reference. *)
Definition rating_keyed (h : heap) (l : list (Z * ref)) : Prop :=
  Forall (fun p => fst p = rating (h (snd p))) l.

(* ================================================================== *)
(** ** Notions for the further properties *)
(* ================================================================== *)

Unset Implicit Arguments.

(** The offsets at which the scan of [str.count] finds [sub]; [pos] is
    the offset of the head of [x]. *)
Fixpoint find_scan (sub x : str) (skip pos : nat) : list nat :=
  match x with
  | [] => []
  | _ :: x' =>
      match skip with
      | S k => find_scan sub x' k (S pos)
      | O => if startswith sub x
             then pos :: find_scan sub x' (Nat.pred (List.length sub)) (S pos)
             else find_scan sub x' O (S pos)
      end
  end.

(** The non-overlapping occurrences of a non-empty [sub] in [x], left
    to right. *)
Definition occurrences (x sub : str) : list nat := find_scan sub x O O.

(** The offsets an occurrence at [p] covers. *)
Definition covered (sub : str) (p : nat) : list Z :=
  range p (p + List.length sub).

(** The offsets of the matches, as the marking loop visits them. *)
Definition span_offsets (spans : list (nat * nat)) : list Z :=
  List.concat (map (fun se => range (fst se) (snd se)) spans).

(** [m] returns from every state that satisfies [I], and keeps [I]. *)
Definition safe {S A : Type} (I : S -> Prop) (m : St S A) : Prop :=
  forall st, I st -> exists a, fst (m st) = Returned a /\ I (snd (m st)).

(** The entry has the authors [names], a mark for each of them, and the
    title marks [marks]. *)
Definition shaped (names : list str) (marks : list Z) (e : Entry) : Prop :=
  authors e = names
  /\ List.length (author_marks e) = List.length names
  /\ title_marks e = marks.

(** The offsets covered by the occurrences of the lowered keywords of a
    table in a lowered title. *)
Definition keyword_offset (t : str) (keyword_ratings : ratings) (q : Z)
  : Prop :=
  exists kr p d,
    In kr keyword_ratings
    /\ In p (occurrences (lower t) (lower (fst kr)))
    /\ (d < List.length (fst kr))%nat
    /\ q = Z.of_nat (p + d).

(** [e'] has the title of [e] and its title marks, followed by offsets
    into the lowered title, the string the keywords are searched in. *)
Definition marks_in_title (e e' : Entry) : Prop :=
  title e' = title e
  /\ exists extra,
       title_marks e' = title_marks e ++ extra
       /\ Forall (fun q => 0 <= q < Z.of_nat (List.length (lower (title e))))
                 extra.

(** A match lies in the subject: it ends where it starts or later, and
    not behind the end. *)
Definition span_in (x : str) (se : nat * nat) : Prop :=
  (fst se <= snd se <= List.length x)%nat.

(** An outcome with its value dropped. *)
Definition void {A : Type} (o : outcome A) : outcome unit :=
  match o with
  | Returned _ => Returned tt
  | Raised x => Raised x
  | Unmodelled => Unmodelled
  end.

Definition returned {A : Type} (o : outcome A) : Prop :=
  exists a, o = Returned a.

(** The order [sort_entries] puts the ratings of two entries in. *)
Definition in_order (h : heap) (reverse : bool) (a b : ref) : Prop :=
  if reverse then rating (h a) <= rating (h b)
  else rating (h b) <= rating (h a).

(** What [sort_entries] returns. *)
Definition sorted_entries (h : heap) (entries : list ref) (rating_min : Z)
  (reverse : bool) (length : option Z) : list ref :=
  let full := ranked h (passing h rating_min entries) (negb reverse) in
  match length with
  | Some n => if n <? 0 then full else firstn (Z.to_nat n) full
  | None => full
  end.

(** Two entries with the same texts and the same number of author
    marks. *)
Definition same_texts (e1 e2 : Entry) : Prop :=
  title e1 = title e2 /\ abstract e1 = abstract e2
  /\ authors e1 = authors e2
  /\ List.length (author_marks e1) = List.length (author_marks e2).

(* ================================================================== *)
(** ** Printing ([arxiv_scan/output.py]) *)
(* ================================================================== *)

(** [l[i]] on a list: a negative index counts from the end, an index
    out of range raises [IndexError]. *)
Definition getitem {A : Type} (l : list A) (i : Z) : option A :=
  let n := Z.of_nat (List.length l) in
  let j := if i <? 0 then i + n else i in
  if ((j <? 0) || (n <=? j))%bool then None
  else nth_error l (Z.to_nat j).

(** [sep.join(xs)] *)
Fixpoint join (sep : str) (xs : list str) : str :=
  match xs with
  | [] => []
  | x :: rest =>
      match rest with
      | [] => x
      | _ :: _ => x ++ sep ++ join sep rest
      end
  end.

(** ['{:2d}'.format(n)]: the decimal digits, with the sign when
    negative, padded on the left with spaces to two characters. *)
Definition format_2d (n : Z) : str :=
  let digits := list_ascii_of_string (NilZero.string_of_int (Z.to_int n)) in
  repeat " "%char (2 - List.length digits) ++ digits.

(** [print(line)]: standard output is the list of the lines printed. *)
Definition print (line : str) : St (list str) unit :=
  modify (fun out => out ++ [line]).

Section Output.

(** [termcolor.colored(text, color, attrs=attrs)] and the conversion of
    a [datetime] to text belong to libraries; the functions below take
    them as they come. *)
Variable colored : str -> option str -> list str -> str.
Variable show_datetime : datetime -> str.

(** The loop over [enumerate(entry.authors)]: the names are taken while
    their lengths add up to 90 at most; the first one that does not fit
    is replaced by an ellipsis and ends the loop. *)
Fixpoint author_pieces (author_marks : list bool) (names : list (Z * str))
  (authors_len : Z) (authors : list str) : outcome (list str) :=
  match names with
  | [] => Returned authors
  | (i, a) :: rest =>
      if 90 <? authors_len + Z.of_nat (List.length a)
      then Returned (authors ++ [colored (lit "...") None [lit "underline"]])
      else
        match getitem author_marks i with
        | None => Raised IndexError
        | Some marked =>
            author_pieces author_marks rest
              (authors_len + Z.of_nat (List.length a))
              (authors
               ++ [if marked : bool
                   then colored a (Some (lit "red")) [lit "underline"]
                   else colored a None [lit "underline"]])
        end
  end.

(** The loop over [enumerate(entry.title)].  [title_lines] is kept as
    its lines before the last ([finished]) and its last line
    ([current]); it is never empty. *)
Fixpoint title_pieces (title_marks : list Z) (chars : list (Z * ascii))
  (title_len : Z) (finished : list (list str)) (current : list str)
  : list (list str) :=
  match chars with
  | [] => finished ++ [current]
  | (i, t) :: rest =>
      if (Ascii.eqb t " " && (90 <? title_len))%bool
      then title_pieces title_marks rest 0 (finished ++ [current]) []
      else
        title_pieces title_marks rest (title_len + 1) finished
          (current
           ++ [if existsb (Z.eqb i) title_marks
               then colored [t] (Some (lit "blue")) []
               else [t]])
  end.

Definition print_entries (h : heap) (entries : list ref)
  : St (list str) unit :=
  for_each entries (fun entry =>
    let e := h entry in
    let rating :=
      colored (lit "(" ++ format_2d (rating e) ++ lit ")")
              (Some (lit "green")) [] in
    authors <- lift (author_pieces (author_marks e) (enumerate (authors e))
                                   0 []) ;;
    let authors_str := join (colored (lit ", ") None [lit "underline"])
                            authors in
    let title_lines :=
      title_pieces (title_marks e) (enumerate (title e)) 0 [] [] in
    print (rating ++ lit " "
           ++ colored (lit "https://arxiv.org/abs/") (Some (lit "green")) []
           ++ colored (id e) (Some (lit "green")) []) ;;
    print (lit "     " ++ authors_str) ;;
    for_each (map (join []) title_lines) (fun line =>
      print (lit "     " ++ line)) ;;
    print (lit "     submitted " ++ show_datetime (date_submitted e)
           ++ lit " on " ++ category e)).

End Output.

(** [colored] when colours are switched off: the text as it is. *)
Definition uncolored (text : str) (color : option str) (attrs : list str)
  : str := text.

(** Decimal digits for timestamps in examples. *)
Definition show_timestamp (d : datetime) : str :=
  list_ascii_of_string (NilZero.string_of_int (Z.to_int d)).


(** The length of the names of a list, added up. *)
Definition total_length (names : list str) : Z :=
  sumZ (map (fun a => Z.of_nat (List.length a)) names).

(** An author as [print_entries] paints it. *)
Definition painted (colored : str -> option str -> list str -> str)
  (marked : bool) (a : str) : str :=
  if marked then colored a (Some (lit "red")) [lit "underline"]
  else colored a None [lit "underline"].

(** The authors [print_entries] shows when it shows the first [j]. *)
Definition shown (colored : str -> option str -> list str -> str)
  (author_marks : list bool) (names : list str) (j : nat) : list str :=
  map (fun ma => painted colored (fst ma) (snd ma))
      (combine (firstn j author_marks) (firstn j names))
  ++ (if Nat.ltb j (List.length names)
      then [colored (lit "...") None [lit "underline"]]
      else []).

(** Standard output only gets longer. *)
Definition appended (out out' : list str) : Prop :=
  exists new, out' = out ++ new.

(** The occurrences of [sub] in [x] from offset [i] on. *)
Definition found_from (sub x : str) (i : nat) : list nat :=
  find_scan sub (skipn i x) O i.

(** A matcher that moves forward and stays in the subject [x]. *)
Definition forward (x : str)
  (body : nat -> (nat -> option nat) -> option nat) : Prop :=
  forall i k e,
    body i k = Some e -> (i <= List.length x)%nat ->
    exists j, (i <= j <= List.length x)%nat /\ k j = Some e.

(** The lines, glued together again with single spaces. *)
Definition glued (lines : list (list str)) : str :=
  join (lit " ") (map (join []) lines).

Set Implicit Arguments.

(* ================================================================== *)
(** * Properties *)
(* ================================================================== *)

(** ** Checks of the runtime model on concrete inputs *)

Example count_ai : count (lit "ai research on ai systems") (lit "ai") = 2.
Proof. reflexivity. Qed.

Example count_overlap : count (lit "aaaa") (lit "aa") = 2.
Proof. reflexivity. Qed.

Example count_empty : count (lit "abc") (lit "") = 4.
Proof. reflexivity. Qed.

Example lower_title : lower (lit "AI Research") = lit "ai research".
Proof. reflexivity. Qed.

Example finditer_ai :
  re.finditer (lit "ai") (lit "ai research on ai systems")
  = Returned [(0, 2); (15, 17)]%nat.
Proof. reflexivity. Qed.

Example finditer_empty :
  re.finditer (lit "") (lit "ab") = Returned [(0, 0); (1, 1); (2, 2)]%nat.
Proof. reflexivity. Qed.

Example finditer_opt :
  re.finditer (lit "a?") (lit "ba") = Returned [(0, 0); (1, 2); (2, 2)]%nat.
Proof. reflexivity. Qed.

Example finditer_group :
  re.finditer (lit "f(r)") (lit "f(r) gravity") = Returned [].
Proof. reflexivity. Qed.

Example finditer_alt_star :
  re.finditer (lit "(ab|a)*c") (lit "xabac abc") = Returned [(1, 5); (6, 9)]%nat.
Proof. vm_compute. reflexivity. Qed.

Example compile_open : re.compile (lit "(") = Raised re_error.
Proof. reflexivity. Qed.

Example compile_close : re.compile (lit ")") = Raised re_error.
Proof. reflexivity. Qed.

Example compile_star : re.compile (lit "*") = Raised re_error.
Proof. reflexivity. Qed.

Example compile_set : re.compile (lit "[a-z]") = Unmodelled.
Proof. reflexivity. Qed.

Example search_smith :
  re.search_ignorecase (lit "\bSmith\b") (lit "John Smith") = Returned true.
Proof. reflexivity. Qed.

Example scenario_1 :
  let e := paper (lit "AI research on AI systems") [] (lit "nothing here") in
  let (o, e') := evaluate [(lit "ai", 2)] [] true e in
  o = Returned 4
  /\ title_marks e' = [0; 1; 15; 16; 0; 1; 15; 16].
Proof. vm_compute. split; reflexivity. Qed.

Example scenario_2 :
  let e := paper (lit "t") [lit "John Smith"; lit "Jane Doe"] (lit "") in
  let (o, e') := evaluate [] [(lit "Smith", 5)] true e in
  o = Returned 5 /\ author_marks e' = [true; false].
Proof. vm_compute. split; reflexivity. Qed.

Example scenario_3 :
  fst (sort_entries [0; 1; 2; 3]%nat 3 false (Some 2) (rated [5; 1; 4; 3]))
  = Returned [0; 2]%nat.
Proof. vm_compute. reflexivity. Qed.

Example scenario_4 :
  fst (sort_entries [0; 1; 2; 3]%nat 3 true None (rated [5; 1; 4; 3]))
  = Returned [3; 2; 0]%nat.
Proof. vm_compute. reflexivity. Qed.

(** ** Rules for [always] *)

Section Always.

Context {S : Type} (R : S -> S -> Prop).
Hypothesis R_refl : forall st, R st st.
Hypothesis R_trans : forall a b c, R a b -> R b c -> R a c.

Lemma always_ret (A : Type) (a : A) : always R (ret a).
Proof. intros st. apply R_refl. Qed.

Lemma always_lift (A : Type) (o : outcome A) : always R (lift o).
Proof. intros st. apply R_refl. Qed.

Lemma always_get (A : Type) (f : S -> A) : always R (get f).
Proof. intros st. apply R_refl. Qed.

Lemma always_modify (f : S -> S) :
  (forall st, R st (f st)) -> always R (modify f).
Proof. intros H st. apply H. Qed.

Lemma always_bind (A B : Type) (m : St S A) (f : A -> St S B) :
  always R m -> (forall a, always R (f a)) -> always R (bind m f).
Proof.
  intros Hm Hf st. unfold bind.
  specialize (Hm st). destruct (m st) as [[a | x |] st']; simpl in *; auto.
  eapply R_trans; [exact Hm | apply Hf].
Qed.

Lemma always_for_each (A : Type) (xs : list A) (body : A -> St S unit) :
  (forall x, always R (body x)) -> always R (for_each xs body).
Proof.
  intros Hb. induction xs as [| x xs IH]; simpl.
  - apply always_ret.
  - apply always_bind; auto.
Qed.

Lemma always_if (A : Type) (b : bool) (m1 m2 : St S A) :
  always R m1 -> always R m2 -> always R (if b then m1 else m2).
Proof. destruct b; auto. Qed.

End Always.

(** ** List assignment *)

Lemma replace_nth_length (A : Type) (l : list A) (n : nat) (v : A) :
  List.length (replace_nth l n v) = List.length l.
Proof.
  revert n. induction l as [| x l IH]; intros [| n]; simpl; auto.
Qed.

Lemma nth_replace_nth (A : Type) (l : list A) (n j : nat) (v d : A) :
  nth j (replace_nth l n v) d
  = if (Nat.eqb j n && Nat.ltb n (List.length l))%bool then v else nth j l d.
Proof.
  revert n j. induction l as [| x l IH]; intros n j; simpl.
  - rewrite Bool.andb_false_r. reflexivity.
  - destruct n as [| n], j as [| j]; simpl; try reflexivity.
    rewrite IH. reflexivity.
Qed.

Lemma setitem_length (A : Type) (l l' : list A) (i : Z) (v : A) :
  setitem l i v = Some l' -> List.length l' = List.length l.
Proof.
  unfold setitem. destruct (_ || _)%bool; [discriminate |].
  intros H. injection H as <-. apply replace_nth_length.
Qed.

(** An index produced by [enumerate] is assigned in place. *)
Lemma setitem_of_nat (A : Type) (l : list A) (n : nat) (v : A) :
  setitem l (Z.of_nat n) v
  = if Nat.ltb n (List.length l) then Some (replace_nth l n v) else None.
Proof.
  unfold setitem. cbv zeta.
  assert (E : (Z.of_nat n <? 0) = false) by (apply Z.ltb_ge; lia).
  rewrite E. cbv iota. rewrite E, Nat2Z.id. simpl.
  destruct (Z.leb_spec (Z.of_nat (List.length l)) (Z.of_nat n)),
           (Nat.ltb_spec n (List.length l)); try lia; reflexivity.
Qed.

(** ** Entries only grow *)

Lemma grows_refl (e : Entry) : grows e e.
Proof.
  constructor; auto. exists []. symmetry. apply app_nil_r.
Qed.

Lemma grows_trans (a b c : Entry) : grows a b -> grows b c -> grows a c.
Proof.
  intros [B1 L1 [x1 T1] A1] [B2 L2 [x2 T2] A2]. constructor.
  - congruence.
  - congruence.
  - exists (x1 ++ x2). rewrite T2, T1. symmetry. apply app_assoc.
  - auto.
Qed.

Lemma grows_mark_title_position (position : Z) :
  always grows (mark_title_position position).
Proof.
  intros e. constructor; simpl; auto. exists [position]. reflexivity.
Qed.

Lemma grows_add_rating (v : Z) : always grows (add_rating v).
Proof.
  intros e. constructor; simpl; auto. exists []. symmetry. apply app_nil_r.
Qed.

Lemma grows_set_rating (v : Z) : always grows (modify (set_rating v)).
Proof.
  intros e. constructor; simpl; auto. exists []. symmetry. apply app_nil_r.
Qed.

Lemma grows_mark_author (number : Z) : always grows (mark_author number).
Proof.
  intros e. unfold mark_author, setitem.
  destruct (_ || _)%bool; simpl; [apply grows_refl |].
  constructor; simpl; auto.
  - apply replace_nth_length.
  - exists []. symmetry. apply app_nil_r.
  - intros i Hi. rewrite nth_replace_nth. rewrite Hi.
    destruct (_ && _)%bool; reflexivity.
Qed.

Create HintDb grows.

#[local] Hint Resolve grows_refl grows_trans always_ret always_lift always_get
  always_bind always_for_each always_if grows_mark_title_position
  grows_add_rating grows_set_rating grows_mark_author : grows.

Lemma grows_mark_title_keyword (keyword : str) :
  always grows (mark_title_keyword keyword).
Proof.
  unfold mark_title_keyword.
  repeat (first [ apply always_bind | apply always_for_each | intros ? ];
          eauto with grows).
Qed.

Lemma grows_rate_keyword (rate_abstract : bool) (kr : str * Z) :
  always grows (rate_keyword rate_abstract kr).
Proof.
  pose proof grows_mark_title_keyword.
  unfold rate_keyword.
  repeat (first [ apply always_bind | apply always_if | intros ? ];
          eauto with grows).
Qed.

Lemma grows_rate_author (ar : str * Z) : always grows (rate_author ar).
Proof.
  unfold rate_author, rate_author_name.
  repeat (first [ apply always_bind | apply always_for_each
                | apply always_if | intros ? ];
          eauto with grows).
Qed.

Lemma grows_evaluate (keyword_ratings author_ratings : ratings)
  (rate_abstract : bool) :
  always grows (evaluate keyword_ratings author_ratings rate_abstract).
Proof.
  pose proof grows_rate_keyword. pose proof grows_rate_author.
  unfold evaluate.
  repeat (first [ apply always_bind | apply always_for_each | intros ? ];
          eauto with grows).
Qed.

(** ** What a returning call has done *)

Lemma bind_returned (S A B : Type) (m : St S A) (f : A -> St S B)
  (st st'' : S) (b : B) :
  bind m f st = (Returned b, st'') ->
  exists a st', m st = (Returned a, st') /\ f a st' = (Returned b, st'').
Proof.
  unfold bind. destruct (m st) as [[a | x |] st']; try discriminate.
  intros H. exists a, st'. auto.
Qed.

Lemma only_title_marks_refl (e : Entry) : only_title_marks e e.
Proof. destruct e; reflexivity. Qed.

Lemma only_title_marks_trans (a b c : Entry) :
  only_title_marks a b -> only_title_marks b c -> only_title_marks a c.
Proof.
  unfold only_title_marks. intros Hab Hbc. rewrite Hbc at 1.
  rewrite Hab at 1. reflexivity.
Qed.

Lemma hit_at_cons (hit : str -> str -> bool) (names : list str)
  (ar : str * Z) (ars : ratings) (j : nat) :
  hit_at hit names (ar :: ars) j
  = (hit_at hit names [ar] j || hit_at hit names ars j)%bool.
Proof.
  unfold hit_at. destruct (nth_error names j); simpl;
    [rewrite Bool.orb_false_r |]; reflexivity.
Qed.

(** These hold whatever the two library calls answer. *)
Section Returned.

Variable finditer : str -> str -> outcome (list (nat * nat)).
Variable search_ignorecase : str -> str -> outcome bool.

Lemma only_title_marks_keyword_any_re (keyword : str) :
  always only_title_marks (AnyRe.mark_title_keyword finditer keyword).
Proof.
  pose proof only_title_marks_refl as R.
  pose proof only_title_marks_trans as T.
  unfold AnyRe.mark_title_keyword.
  repeat (first [ apply always_bind | apply always_for_each
                | apply always_get | apply always_lift | intros ? ]; auto).
  unfold only_title_marks. simpl. destruct st; reflexivity.
Qed.

Lemma rate_keyword_returned_any_re (rate_abstract : bool) (kr : str * Z)
  (e e' : Entry) (u : unit) :
  AnyRe.rate_keyword finditer rate_abstract kr e = (Returned u, e') ->
  rating e' = rating e
              + (count (lower (title e)) (lower (fst kr)) * snd kr
                 + (if rate_abstract
                    then count (lower (abstract e)) (lower (fst kr)) * snd kr
                    else 0))
  /\ author_marks e' = author_marks e
  /\ bib e' = bib e.
Proof.
  unfold AnyRe.rate_keyword. intros H.
  apply bind_returned in H as (counts & e0 & H0 & H).
  injection H0 as <- <-.
  apply bind_returned in H as ([] & e1 & H1 & H2).
  assert (R1 : rating e1 = rating e
               + (if 0 <? count (lower (title e)) (lower (fst kr))
                  then count (lower (title e)) (lower (fst kr)) * snd kr
                  else 0)
               /\ author_marks e1 = author_marks e /\ bib e1 = bib e).
  { destruct (0 <? _).
    - apply bind_returned in H1 as ([] & e2 & Hk & Ha).
      pose proof (only_title_marks_keyword_any_re (lower (fst kr)) e) as O.
      rewrite Hk in O. simpl in O. injection Ha as <-.
      rewrite O. simpl. auto.
    - injection H1 as <-. rewrite Z.add_0_r. auto. }
  destruct R1 as (Rr & Ra & Rb).
  assert (Et : title e1 = title e) by (unfold bib in Rb; congruence).
  assert (Eb : abstract e1 = abstract e) by (unfold bib in Rb; congruence).
  assert (C0 : (0 <? count (lower (title e)) (lower (fst kr))) = false ->
               count (lower (title e)) (lower (fst kr)) * snd kr = 0).
  { intros Hc. apply Z.ltb_ge in Hc.
    assert (0 <= count (lower (title e)) (lower (fst kr))).
    { unfold count. destruct (lower (fst kr)); lia. }
    replace (count (lower (title e)) (lower (fst kr))) with 0 by lia.
    reflexivity. }
  destruct rate_abstract.
  - apply bind_returned in H2 as (n & e2 & Hn & Ha).
    injection Hn as <- <-. injection Ha as Ha. subst e'. simpl.
    rewrite Rr, Eb. repeat split; auto.
    destruct (0 <? _) eqn:Hc; [lia | rewrite (C0 eq_refl); lia].
  - injection H2 as H2. subst e'. rewrite Rr. repeat split; auto.
    destruct (0 <? _) eqn:Hc; [lia | rewrite (C0 eq_refl); lia].
Qed.

Lemma keywords_returned_any_re (rate_abstract : bool) (keyword_ratings : ratings) :
  forall (e e' : Entry) (u : unit),
    for_each keyword_ratings (AnyRe.rate_keyword finditer rate_abstract) e
    = (Returned u, e') ->
    rating e' = rating e
                + keyword_score (title e) (abstract e) rate_abstract
                                keyword_ratings
    /\ author_marks e' = author_marks e
    /\ bib e' = bib e.
Proof.
  induction keyword_ratings as [| kr krs IH]; intros e e' u H.
  - injection H as H. subst e'. unfold keyword_score. simpl.
    repeat split; lia.
  - simpl in H. apply bind_returned in H as (u1 & e1 & H1 & H2).
    apply rate_keyword_returned_any_re in H1 as (R1 & A1 & B1).
    apply IH in H2 as (R2 & A2 & B2).
    assert (Et : title e1 = title e) by (unfold bib in B1; congruence).
    assert (Eb : abstract e1 = abstract e) by (unfold bib in B1; congruence).
    rewrite Et, Eb in R2.
    unfold keyword_score in *. simpl.
    repeat split; try congruence. lia.
Qed.

Lemma rate_author_name_returned_any_re (fragment : str) (w : Z) (k : nat) (a : str)
  (e e' : Entry) (u : unit) :
  AnyRe.rate_author_name search_ignorecase fragment w (Z.of_nat k, a) e
  = (Returned u, e') ->
  if AnyRe.matched search_ignorecase fragment a
  then (k < List.length (author_marks e))%nat
       /\ e' = set_rating (rating e + w)
                 (set_author_marks (replace_nth (author_marks e) k true) e)
  else e' = e.
Proof.
  unfold AnyRe.rate_author_name, AnyRe.matched. simpl fst. simpl snd. intros H.
  apply bind_returned in H as (found & e0 & H0 & H).
  unfold lift in H0. injection H0 as H0 E0. subst e0. rewrite H0.
  destruct found.
  - apply bind_returned in H as ([] & e1 & Hm & Ha).
    unfold mark_author in Hm. rewrite setitem_of_nat in Hm.
    destruct (Nat.ltb_spec k (List.length (author_marks e))) as [Hk | Hk];
      [| discriminate].
    injection Hm as Hm. subst e1. injection Ha as Ha. subst e'.
    split; [exact Hk | reflexivity].
  - injection H as H. auto.
Qed.

Lemma names_returned_any_re (fragment : str) (w : Z) (names : list str) :
  forall (k : nat) (e e' : Entry) (u : unit),
    for_each (combine (map Z.of_nat (seq k (List.length names))) names)
             (AnyRe.rate_author_name search_ignorecase fragment w) e
    = (Returned u, e') ->
    rating e' = rating e
                + sumZ (map (fun a =>
                               if AnyRe.matched search_ignorecase fragment a
                               then w else 0)
                            names)
    /\ title_marks e' = title_marks e
    /\ bib e' = bib e
    /\ List.length (author_marks e') = List.length (author_marks e)
    /\ forall j,
         nth j (author_marks e') false
         = (nth j (author_marks e) false
            || (Nat.leb k j
                && match nth_error names (j - k) with
                   | Some a => AnyRe.matched search_ignorecase fragment a
                   | None => false
                   end))%bool.
Proof.
  induction names as [| a rest IH]; intros k e e' u H.
  - injection H as H. subst e'. simpl. repeat split; try lia.
    intros j. destruct (j - k)%nat; simpl;
      rewrite Bool.andb_false_r, Bool.orb_false_r; reflexivity.
  - simpl in H. apply bind_returned in H as (u1 & e1 & H1 & H2).
    apply rate_author_name_returned_any_re in H1.
    apply IH in H2 as (R2 & T2 & B2 & L2 & N2).
    assert (S1 : rating e1
                 = rating e
                   + (if AnyRe.matched search_ignorecase fragment a
                      then w else 0)
                 /\ title_marks e1 = title_marks e /\ bib e1 = bib e
                 /\ List.length (author_marks e1) = List.length (author_marks e)
                 /\ forall j, nth j (author_marks e1) false
                              = (nth j (author_marks e) false
                                 || (Nat.eqb j k
                                     && AnyRe.matched search_ignorecase
                                                      fragment a))%bool).
    { destruct (AnyRe.matched search_ignorecase fragment a).
      - destruct H1 as (Hk & ->). simpl. repeat split.
        + apply replace_nth_length.
        + intros j. rewrite nth_replace_nth.
          apply Nat.ltb_lt in Hk. rewrite Hk.
          rewrite !Bool.andb_true_r.
          destruct (Nat.eqb j k); [rewrite Bool.orb_true_r | rewrite Bool.orb_false_r];
            reflexivity.
      - subst e1. repeat split; try lia.
        intros j. rewrite Bool.andb_false_r, Bool.orb_false_r. reflexivity. }
    destruct S1 as (R1 & T1 & B1 & L1 & N1).
    simpl. repeat split; try congruence; try lia.
    intros j. rewrite N2, N1, <- Bool.orb_assoc. f_equal.
    destruct (Nat.eqb_spec j k) as [-> | Hjk].
    + replace (Nat.leb (S k) k) with false by (symmetry; apply Nat.leb_gt; lia).
      rewrite Nat.leb_refl, Nat.sub_diag.
      cbn [andb orb nth_error]. apply Bool.orb_false_r.
    + destruct (Nat.leb_spec k j) as [Hle | Hgt].
      * replace (Nat.leb (S k) j) with true by (symmetry; apply Nat.leb_le; lia).
        replace (j - k)%nat with (S (j - S k)) by lia. reflexivity.
      * replace (Nat.leb (S k) j) with false by (symmetry; apply Nat.leb_gt; lia).
        reflexivity.
Qed.

Lemma rate_author_returned_any_re (ar : str * Z) (e e' : Entry) (u : unit) :
  AnyRe.rate_author search_ignorecase ar e = (Returned u, e') ->
  rating e' = rating e
              + sumZ (map (fun a =>
                             if AnyRe.matched search_ignorecase (fst ar) a
                             then snd ar else 0)
                          (authors e))
  /\ title_marks e' = title_marks e
  /\ bib e' = bib e
  /\ List.length (author_marks e') = List.length (author_marks e)
  /\ forall j, nth j (author_marks e') false
               = (nth j (author_marks e) false
                  || hit_at (AnyRe.matched search_ignorecase) (authors e) [ar] j)%bool.
Proof.
  unfold AnyRe.rate_author. intros H.
  apply bind_returned in H as (names & e0 & H0 & H).
  injection H0 as H0 E0. subst e0 names.
  apply names_returned_any_re in H as (R & T & B & L & N).
  repeat split; auto.
  intros j. rewrite N. simpl. rewrite Nat.sub_0_r. unfold hit_at.
  destruct (nth_error (authors e) j); simpl;
    [rewrite Bool.orb_false_r |]; reflexivity.
Qed.

Lemma authors_returned_any_re (author_ratings : ratings) :
  forall (e e' : Entry) (u : unit),
    for_each author_ratings (AnyRe.rate_author search_ignorecase) e
    = (Returned u, e') ->
    rating e' = rating e
                + author_score (AnyRe.matched search_ignorecase) (authors e)
                               author_ratings
    /\ title_marks e' = title_marks e
    /\ bib e' = bib e
    /\ List.length (author_marks e') = List.length (author_marks e)
    /\ forall j, nth j (author_marks e') false
                 = (nth j (author_marks e) false
                    || hit_at (AnyRe.matched search_ignorecase) (authors e)
                              author_ratings j)%bool.
Proof.
  induction author_ratings as [| ar ars IH]; intros e e' u H.
  - injection H as H. subst e'. unfold author_score. simpl.
    repeat split; try lia.
    intros j. unfold hit_at. destruct (nth_error (authors e) j); simpl;
      rewrite Bool.orb_false_r; reflexivity.
  - simpl in H. apply bind_returned in H as (u1 & e1 & H1 & H2).
    apply rate_author_returned_any_re in H1 as (R1 & T1 & B1 & L1 & N1).
    apply IH in H2 as (R2 & T2 & B2 & L2 & N2).
    assert (Ea : authors e1 = authors e) by (unfold bib in B1; congruence).
    rewrite Ea in *. unfold author_score in *. simpl.
    repeat split; try congruence; try lia.
    intros j. rewrite N2, N1, (hit_at_cons _ _ ar ars), Bool.orb_assoc.
    reflexivity.
Qed.

Lemma evaluate_returns_rating_any_re (keyword_ratings author_ratings : ratings)
  (rate_abstract : bool) (e e' : Entry) (r : Z) :
  AnyRe.evaluate finditer search_ignorecase keyword_ratings author_ratings
                 rate_abstract e = (Returned r, e') ->
  r = rating e'.
Proof.
  unfold AnyRe.evaluate. intros H.
  apply bind_returned in H as (u0 & e0 & _ & H).
  apply bind_returned in H as (u1 & e1 & _ & H).
  apply bind_returned in H as (u2 & e2 & _ & H).
  injection H as H1 H2. subst. reflexivity.
Qed.

Lemma evaluate_returned_any_re (keyword_ratings author_ratings : ratings)
  (rate_abstract : bool) (e e' : Entry) (r : Z) :
  AnyRe.evaluate finditer search_ignorecase keyword_ratings author_ratings
                 rate_abstract e = (Returned r, e') ->
  rating e' = keyword_score (title e) (abstract e) rate_abstract keyword_ratings
              + author_score (AnyRe.matched search_ignorecase) (authors e)
                             author_ratings
  /\ List.length (author_marks e') = List.length (author_marks e)
  /\ forall i, nth i (author_marks e') false
               = (nth i (author_marks e) false
                  || hit_at (AnyRe.matched search_ignorecase) (authors e)
                            author_ratings i)%bool.
Proof.
  unfold AnyRe.evaluate. intros H.
  apply bind_returned in H as (u0 & e0 & H0 & H).
  injection H0 as _ H0. subst e0.
  apply bind_returned in H as (u1 & e1 & H1 & H).
  apply keywords_returned_any_re in H1 as (R1 & A1 & B1).
  apply bind_returned in H as (u2 & e2 & H2 & H).
  apply authors_returned_any_re in H2 as (R2 & _ & B2 & L2 & N2).
  injection H as _ H. subst e2.
  assert (Ea : authors e1 = authors e) by (unfold bib in B1; simpl in B1; congruence).
  simpl in R1, A1. rewrite Ea, A1 in *.
  repeat split; auto. lia.
Qed.

End Returned.

(** The methods of [class Entry] are the methods over any [re], taken
    at the modelled one. *)
Lemma evaluate_at_re :
  mark_title_keyword = AnyRe.mark_title_keyword re.finditer
  /\ rate_keyword = AnyRe.rate_keyword re.finditer
  /\ rate_author_name = AnyRe.rate_author_name re.search_ignorecase
  /\ rate_author = AnyRe.rate_author re.search_ignorecase
  /\ evaluate = AnyRe.evaluate re.finditer re.search_ignorecase
  /\ matched = AnyRe.matched re.search_ignorecase.
Proof. repeat split. Qed.

Lemma only_title_marks_keyword (keyword : str) :
  always only_title_marks (mark_title_keyword keyword).
Proof. exact (only_title_marks_keyword_any_re re.finditer keyword). Qed.

Lemma evaluate_returns_rating (keyword_ratings author_ratings : ratings)
  (rate_abstract : bool) (e e' : Entry) (r : Z) :
  evaluate keyword_ratings author_ratings rate_abstract e = (Returned r, e') ->
  r = rating e'.
Proof.
  exact (@evaluate_returns_rating_any_re re.finditer re.search_ignorecase
           keyword_ratings author_ratings rate_abstract e e' r).
Qed.

Lemma evaluate_returned (keyword_ratings author_ratings : ratings)
  (rate_abstract : bool) (e e' : Entry) (r : Z) :
  evaluate keyword_ratings author_ratings rate_abstract e = (Returned r, e') ->
  rating e' = keyword_score (title e) (abstract e) rate_abstract keyword_ratings
              + author_score matched (authors e) author_ratings
  /\ List.length (author_marks e') = List.length (author_marks e)
  /\ forall i, nth i (author_marks e') false
               = (nth i (author_marks e) false
                  || hit_at matched (authors e) author_ratings i)%bool.
Proof.
  exact (@evaluate_returned_any_re re.finditer re.search_ignorecase
           keyword_ratings author_ratings rate_abstract e e' r).
Qed.

(** ** The rating under non-negative weights *)

Lemma count_nonneg (x sub : str) : 0 <= count x sub.
Proof. unfold count. destruct sub; lia. Qed.

Lemma stays_nonneg_refl (e : Entry) : stays_nonneg e e.
Proof. intros H. exact H. Qed.

Lemma stays_nonneg_trans (a b c : Entry) :
  stays_nonneg a b -> stays_nonneg b c -> stays_nonneg a c.
Proof. unfold stays_nonneg. auto. Qed.

Lemma stays_nonneg_add (v : Z) : 0 <= v -> always stays_nonneg (add_rating v).
Proof. intros Hv e He. simpl. lia. Qed.

Lemma stays_nonneg_only_marks (A : Type) (m : method A) :
  always only_title_marks m -> always stays_nonneg m.
Proof.
  intros H e He. specialize (H e). rewrite H. simpl. exact He.
Qed.

Lemma stays_nonneg_mark_author (number : Z) :
  always stays_nonneg (mark_author number).
Proof.
  intros e He. unfold mark_author. destruct (setitem _ _ _); simpl; exact He.
Qed.

Lemma stays_nonneg_rate_keyword (rate_abstract : bool) (kr : str * Z) :
  0 <= snd kr -> always stays_nonneg (rate_keyword rate_abstract kr).
Proof.
  intros Hw. unfold rate_keyword.
  pose proof stays_nonneg_refl as R. pose proof stays_nonneg_trans as T.
  apply always_bind; auto using always_get. intros counts.
  apply always_bind; auto.
  - destruct (Z.ltb_spec 0 counts) as [Hc | Hc]; [| apply always_ret; auto].
    apply always_bind; auto.
    + apply stays_nonneg_only_marks, only_title_marks_keyword.
    + intros _. apply stays_nonneg_add. apply Z.mul_nonneg_nonneg; lia.
  - intros _. apply always_if; [| apply always_ret; auto].
    intros e He. simpl. pose proof (count_nonneg (lower (abstract e)) (lower (fst kr))).
    apply Z.add_nonneg_nonneg; [exact He | apply Z.mul_nonneg_nonneg; lia].
Qed.

Lemma stays_nonneg_rate_author (ar : str * Z) :
  0 <= snd ar -> always stays_nonneg (rate_author ar).
Proof.
  intros Hw. unfold rate_author, rate_author_name.
  pose proof stays_nonneg_refl as R. pose proof stays_nonneg_trans as T.
  apply always_bind; auto using always_get. intros names.
  apply always_for_each; auto. intros ia.
  apply always_bind; auto using always_lift. intros found.
  apply always_if; [| apply always_ret; auto].
  apply always_bind; auto using stays_nonneg_mark_author, stays_nonneg_add.
Qed.

Lemma evaluate_nonneg (keyword_ratings author_ratings : ratings)
  (rate_abstract : bool) (e : Entry) :
  Forall (fun kr => 0 <= snd kr) keyword_ratings ->
  Forall (fun ar => 0 <= snd ar) author_ratings ->
  0 <= rating (snd (evaluate keyword_ratings author_ratings rate_abstract e)).
Proof.
  intros Hk Ha.
  pose proof stays_nonneg_refl as R. pose proof stays_nonneg_trans as T.
  assert (Hk' : always stays_nonneg
                  (for_each keyword_ratings (rate_keyword rate_abstract))).
  { induction Hk as [| kr krs Hw _ IH]; simpl.
    - apply always_ret; auto.
    - apply always_bind; auto using stays_nonneg_rate_keyword. }
  assert (Ha' : always stays_nonneg (for_each author_ratings rate_author)).
  { induction Ha as [| ar ars Hw _ IH]; simpl.
    - apply always_ret; auto.
    - apply always_bind; auto using stays_nonneg_rate_author. }
  assert (Hrest : always stays_nonneg
                    (for_each keyword_ratings (rate_keyword rate_abstract) ;;
                     for_each author_ratings rate_author ;;
                     get rating)).
  { apply always_bind; auto. intros _.
    apply always_bind; auto using always_get. }
  apply (Hrest (set_rating 0 e)). simpl. lia.
Qed.

(** ** Objects in the heap *)

Lemma heap_grows_refl (h : heap) : heap_grows h h.
Proof. intros r. apply grows_refl. Qed.

Lemma heap_grows_trans (a b c : heap) :
  heap_grows a b -> heap_grows b c -> heap_grows a c.
Proof. intros H1 H2 r. eapply grows_trans; [apply H1 | apply H2]. Qed.

Lemma heap_grows_on (A : Type) (r : ref) (m : method A) :
  always grows m -> always heap_grows (on r m).
Proof.
  intros Hm h r'. unfold on. specialize (Hm (h r)).
  destruct (m (h r)) as [o e]. simpl in *. unfold upd.
  destruct (Nat.eqb_spec r' r) as [-> | _]; [exact Hm | apply grows_refl].
Qed.

Lemma heap_grows_evaluate_entries (entries : list ref)
  (keyword_ratings author_ratings : ratings) (rate_abstract : bool) :
  always heap_grows
    (evaluate_entries entries keyword_ratings author_ratings rate_abstract).
Proof.
  pose proof heap_grows_refl as R. pose proof heap_grows_trans as T.
  unfold evaluate_entries.
  apply always_bind; auto using always_ret.
  apply always_for_each; auto. intros r.
  apply always_bind; auto using always_ret, heap_grows_on, grows_evaluate.
Qed.

Lemma grows_marks_fit (e e' : Entry) : grows e e' -> marks_fit e -> marks_fit e'.
Proof.
  intros [B L _ _] H. unfold marks_fit in *.
  assert (authors e' = authors e) by (unfold bib in B; congruence).
  congruence.
Qed.

(** ** Rules for [respects] *)

Section Respects.

Context {S : Type} (R : S -> S -> Prop).

Lemma respects_ret (A : Type) (a : A) : respects R (ret a).
Proof. intros s1 s2 H. simpl. auto. Qed.

Lemma respects_lift (A : Type) (o : outcome A) : respects R (lift o).
Proof. intros s1 s2 H. simpl. auto. Qed.

Lemma respects_get (A : Type) (f : S -> A) :
  (forall s1 s2, R s1 s2 -> f s1 = f s2) -> respects R (get f).
Proof. intros Hf s1 s2 H. simpl. rewrite (Hf s1 s2 H). auto. Qed.

Lemma respects_modify (f : S -> S) :
  (forall s1 s2, R s1 s2 -> R (f s1) (f s2)) -> respects R (modify f).
Proof. intros Hf s1 s2 H. simpl. auto. Qed.

Lemma respects_bind (A B : Type) (m : St S A) (f : A -> St S B) :
  respects R m -> (forall a, respects R (f a)) -> respects R (bind m f).
Proof.
  intros Hm Hf s1 s2 H. unfold bind.
  destruct (Hm s1 s2 H) as [Ho Hs].
  destruct (m s1) as [o1 t1], (m s2) as [o2 t2]. simpl in *. subst o2.
  destruct o1 as [a | x |]; simpl; auto.
  apply Hf. exact Hs.
Qed.

Lemma respects_for_each (A : Type) (xs : list A) (body : A -> St S unit) :
  (forall x, respects R (body x)) -> respects R (for_each xs body).
Proof.
  intros Hb. induction xs as [| x xs IH]; simpl.
  - apply respects_ret.
  - apply respects_bind; auto.
Qed.

Lemma respects_if (A : Type) (b : bool) (m1 m2 : St S A) :
  respects R m1 -> respects R m2 -> respects R (if b then m1 else m2).
Proof. destruct b; auto. Qed.

End Respects.

(** ** Evaluation does not read the annotations *)

Section Alike.

Variables b1 b2 : list Z.

Lemma alike_mark_title_position (position : Z) :
  respects (alike b1 b2) (mark_title_position position).
Proof.
  intros e1 e2 [T A U L Rt (extra & M1 & M2)]. simpl. split; [reflexivity |].
  constructor; simpl; auto.
  exists (extra ++ [position]). rewrite M1, M2, !app_assoc. auto.
Qed.

Lemma alike_add_rating (v : Z) : respects (alike b1 b2) (add_rating v).
Proof.
  intros e1 e2 [T A U L Rt M]. simpl. split; [reflexivity |].
  constructor; simpl; auto. congruence.
Qed.

Lemma alike_mark_author (number : Z) :
  respects (alike b1 b2) (mark_author number).
Proof.
  intros e1 e2 [T A U L Rt M]. unfold mark_author, setitem. rewrite L.
  destruct (_ || _)%bool; simpl.
  - split; [reflexivity | constructor; auto].
  - split; [reflexivity |]. constructor; simpl; auto.
    rewrite !replace_nth_length. exact L.
Qed.

Lemma alike_mark_title_keyword (keyword : str) :
  respects (alike b1 b2) (mark_title_keyword keyword).
Proof.
  unfold mark_title_keyword.
  apply respects_bind.
  { apply respects_get. intros e1 e2 [T _ _ _ _ _]. rewrite T. reflexivity. }
  intros counts. apply respects_for_each. intros _.
  apply respects_bind.
  { apply respects_get. intros e1 e2 [T _ _ _ _ _]. rewrite T. reflexivity. }
  intros lowered. apply respects_bind; [apply respects_lift |]. intros starts.
  apply respects_bind.
  { apply respects_get. intros e1 e2 [T _ _ _ _ _]. rewrite T. reflexivity. }
  intros lowered'. apply respects_bind; [apply respects_lift |]. intros ends.
  apply respects_for_each. intros se. apply respects_for_each. intros pos.
  apply alike_mark_title_position.
Qed.

Lemma alike_rate_keyword (rate_abstract : bool) (kr : str * Z) :
  respects (alike b1 b2) (rate_keyword rate_abstract kr).
Proof.
  unfold rate_keyword.
  apply respects_bind.
  { apply respects_get. intros e1 e2 [T _ _ _ _ _]. rewrite T. reflexivity. }
  intros counts. apply respects_bind.
  { apply respects_if; [| apply respects_ret].
    apply respects_bind; [apply alike_mark_title_keyword |].
    intros _. apply alike_add_rating. }
  intros _. apply respects_if; [| apply respects_ret].
  apply respects_bind.
  { apply respects_get. intros e1 e2 [_ A _ _ _ _]. rewrite A. reflexivity. }
  intros n. apply alike_add_rating.
Qed.

Lemma alike_rate_author (ar : str * Z) : respects (alike b1 b2) (rate_author ar).
Proof.
  unfold rate_author, rate_author_name.
  apply respects_bind.
  { apply respects_get. intros e1 e2 [_ _ U _ _ _]. exact U. }
  intros names. apply respects_for_each. intros ia.
  apply respects_bind; [apply respects_lift |]. intros found.
  apply respects_if; [| apply respects_ret].
  apply respects_bind; [apply alike_mark_author |].
  intros _. apply alike_add_rating.
Qed.

Lemma alike_evaluate (keyword_ratings author_ratings : ratings)
  (rate_abstract : bool) (e1 e2 : Entry) :
  alike b1 b2 (set_rating 0 e1) (set_rating 0 e2) ->
  fst (evaluate keyword_ratings author_ratings rate_abstract e1)
  = fst (evaluate keyword_ratings author_ratings rate_abstract e2)
  /\ alike b1 b2
       (snd (evaluate keyword_ratings author_ratings rate_abstract e1))
       (snd (evaluate keyword_ratings author_ratings rate_abstract e2)).
Proof.
  intros H.
  assert (Hrest : respects (alike b1 b2)
                    (for_each keyword_ratings (rate_keyword rate_abstract) ;;
                     for_each author_ratings rate_author ;;
                     get rating)).
  { apply respects_bind.
    { apply respects_for_each. intros kr. apply alike_rate_keyword. }
    intros _. apply respects_bind.
    { apply respects_for_each. intros ar. apply alike_rate_author. }
    intros _. apply respects_get. intros x y [_ _ _ _ Rt _]. exact Rt. }
  exact (Hrest _ _ H).
Qed.

End Alike.

(** A second evaluation starts from an entry alike the first one. *)
Lemma evaluate_again (keyword_ratings author_ratings : ratings)
  (rate_abstract : bool) (e : Entry) :
  let run := evaluate keyword_ratings author_ratings rate_abstract in
  fst (run (snd (run e))) = fst (run e)
  /\ rating (snd (run (snd (run e)))) = rating (snd (run e))
  /\ exists extra,
       title_marks (snd (run e)) = title_marks e ++ extra
       /\ title_marks (snd (run (snd (run e))))
          = title_marks (snd (run e)) ++ extra.
Proof.
  intros run.
  pose proof (grows_evaluate keyword_ratings author_ratings rate_abstract e)
    as [B L _ _].
  fold run in B, L. unfold bib in B.
  assert (H0 : alike (title_marks e) (title_marks (snd (run e)))
                     (set_rating 0 e) (set_rating 0 (snd (run e)))).
  { constructor; simpl; try congruence.
    exists []. rewrite !app_nil_r. auto. }
  apply (alike_evaluate keyword_ratings author_ratings rate_abstract) in H0.
  fold run in H0. destruct H0 as [Ho [_ _ _ _ Rt (extra & M1 & M2)]].
  repeat split; auto. exists extra. auto.
Qed.

(** ** The stable sort *)

Section StableSort.

Context {A : Type}.
Implicit Types (x : Z * A) (l : list (Z * A)).

Lemma insert_perm x l : Permutation (insert x l) (x :: l).
Proof.
  induction l as [| y l IH]; simpl.
  - apply Permutation_refl.
  - destruct (fst x <=? fst y).
    + apply Permutation_refl.
    + eapply Permutation_trans; [apply perm_skip, IH | apply perm_swap].
Qed.

Lemma stable_sort_perm l : Permutation (stable_sort l) l.
Proof.
  induction l as [| x l IH]; simpl.
  - apply perm_nil.
  - eapply Permutation_trans; [apply insert_perm | apply perm_skip, IH].
Qed.

Lemma insert_sorted x l :
  StronglySorted key_le l -> StronglySorted key_le (insert x l).
Proof.
  induction 1 as [| y l Hs IH Hy]; simpl.
  - repeat constructor.
  - destruct (Z.leb_spec (fst x) (fst y)) as [Hle | Hgt].
    + constructor; [constructor; assumption |].
      constructor; [exact Hle |].
      eapply Forall_impl; [| exact Hy].
      intros z Hz. unfold key_le in *. lia.
    + constructor; [exact IH |].
      apply (Permutation_Forall (Permutation_sym (insert_perm x l))).
      constructor; [unfold key_le; lia | exact Hy].
Qed.

Lemma stable_sort_sorted l : StronglySorted key_le (stable_sort l).
Proof.
  induction l as [| x l IH]; simpl.
  - constructor.
  - apply insert_sorted, IH.
Qed.

(** Insertion puts [x] in front of the items with its key. *)
Lemma keyed_at_insert k x l : keyed_at k (insert x l) = keyed_at k (x :: l).
Proof.
  induction l as [| y l IH]; [reflexivity |].
  simpl. destruct (Z.leb_spec (fst x) (fst y)) as [Hle | Hgt]; [reflexivity |].
  unfold keyed_at in *. simpl in *. rewrite IH.
  destruct (Z.eqb_spec (fst x) k) as [Hx | Hx];
    destruct (Z.eqb_spec (fst y) k) as [Hy | Hy]; try reflexivity.
  lia.
Qed.

Lemma keyed_at_stable_sort k l : keyed_at k (stable_sort l) = keyed_at k l.
Proof.
  induction l as [| x l IH]; [reflexivity |].
  simpl. rewrite keyed_at_insert. unfold keyed_at in *. simpl.
  rewrite IH. reflexivity.
Qed.

End StableSort.

Lemma StronglySorted_rev (A : Type) (R : A -> A -> Prop) (l : list A) :
  StronglySorted R l -> StronglySorted (fun a b => R b a) (rev l).
Proof.
  induction 1 as [| x l Hs IH Hx]; simpl.
  - constructor.
  - clear Hs. revert IH. generalize (rev_involutive l).
    assert (Hx' : Forall (R x) (rev l)).
    { apply Forall_forall. intros y Hy. rewrite Forall_forall in Hx.
      apply Hx, in_rev, Hy. }
    clear Hx. intros _. induction (rev l) as [| y m IHm]; intros Hm; simpl.
    + repeat constructor.
    + inversion Hm; subst. inversion Hx'; subst.
      constructor; [auto |].
      apply Forall_app. split; [assumption | repeat constructor; assumption].
Qed.

(** ** Keys that are ratings *)

Section Keyed.

Variable h : heap.

Lemma combine_ratings (xs : list ref) :
  combine (map (fun r => rating (h r)) xs) xs
  = map (fun r => (rating (h r), r)) xs.
Proof. induction xs as [| x xs IH]; simpl; congruence. Qed.

Lemma rating_keyed_map (xs : list ref) :
  rating_keyed h (map (fun r => (rating (h r), r)) xs).
Proof. induction xs; constructor; auto. Qed.

Lemma map_snd_keyed (xs : list ref) :
  map snd (map (fun r => (rating (h r), r)) xs) = xs.
Proof. induction xs as [| x xs IH]; simpl; congruence. Qed.

Lemma ascending_keyed (l : list (Z * ref)) :
  rating_keyed h l -> StronglySorted key_le l -> ascending h (map snd l).
Proof.
  unfold ascending. intros Hk Hs. induction Hs as [| p l Hs IH Hp]; simpl.
  - constructor.
  - inversion Hk as [| ? ? Hp0 Hl]; subst. constructor; [auto |].
    apply Forall_map. rewrite Forall_forall in *. intros q Hq.
    specialize (Hp q Hq). specialize (Hl q Hq). unfold key_le in Hp.
    simpl in Hl. rewrite <- Hp0, <- Hl. exact Hp.
Qed.

Lemma rated_at_keyed (k : Z) (l : list (Z * ref)) :
  rating_keyed h l -> rated_at h k (map snd l) = map snd (keyed_at k l).
Proof.
  unfold rated_at, keyed_at. induction 1 as [| p l Hp Hl IH]; simpl.
  - reflexivity.
  - rewrite <- Hp, IH. destruct (fst p =? k); reflexivity.
Qed.

(** What [ranked] returns: the same references, in rating order, equal
    ratings in their original order. *)
Lemma ranked_spec (xs : list ref) (reverse : bool) :
  Permutation (ranked h xs reverse) xs
  /\ (if reverse then descending h (ranked h xs reverse)
      else ascending h (ranked h xs reverse))
  /\ forall k, rated_at h k (ranked h xs reverse) = rated_at h k xs.
Proof.
  unfold ranked. cbv zeta. rewrite combine_ratings.
  set (keyed := map (fun r => (rating (h r), r)) xs).
  assert (Hk : rating_keyed h keyed) by apply rating_keyed_map.
  assert (Hx : map snd keyed = xs) by apply map_snd_keyed.
  destruct reverse.
  - assert (Hp : Permutation (stable_sort (rev keyed)) keyed).
    { eapply Permutation_trans;
        [apply stable_sort_perm | apply Permutation_sym, Permutation_rev]. }
    assert (Hs : rating_keyed h (stable_sort (rev keyed))).
    { apply (Permutation_Forall (Permutation_sym Hp)), Hk. }
    assert (Hr : rating_keyed h (rev (stable_sort (rev keyed)))).
    { apply (Permutation_Forall (Permutation_rev _)), Hs. }
    split; [| split].
    + apply Permutation_trans with (map snd keyed);
        [| rewrite Hx; apply Permutation_refl].
      apply Permutation_map.
      eapply Permutation_trans; [apply Permutation_sym, Permutation_rev | exact Hp].
    + unfold descending. rewrite map_rev.
      apply (StronglySorted_rev (R := fun a b => rating (h a) <= rating (h b))).
      apply ascending_keyed; [exact Hs | apply stable_sort_sorted].
    + intros k. rewrite (rated_at_keyed k Hr).
      unfold keyed_at. rewrite filter_rev.
      fold (keyed_at k (stable_sort (rev keyed))).
      rewrite keyed_at_stable_sort. unfold keyed_at.
      rewrite filter_rev, rev_involutive.
      fold (keyed_at k keyed). rewrite <- (rated_at_keyed k Hk), Hx.
      reflexivity.
  - assert (Hp : Permutation (stable_sort keyed) keyed)
      by apply stable_sort_perm.
    assert (Hs : rating_keyed h (stable_sort keyed)).
    { apply (Permutation_Forall (Permutation_sym Hp)), Hk. }
    split; [| split].
    + apply Permutation_trans with (map snd keyed);
        [| rewrite Hx; apply Permutation_refl].
      apply Permutation_map, Hp.
    + apply ascending_keyed; [exact Hs | apply stable_sort_sorted].
    + intros k. rewrite (rated_at_keyed k Hs), keyed_at_stable_sort.
      rewrite <- (rated_at_keyed k Hk), Hx. reflexivity.
Qed.

End Keyed.

(** ** [sort_entries] only reads *)

Lemma filterM_rating (rating_min : Z) (entries : list ref) (h : heap) :
  filterM (fun entry => r <- attr rating entry ;; ret (rating_min <=? r))
          entries h
  = (Returned (passing h rating_min entries), h).
Proof.
  cbv [bind attr get ret].
  induction entries as [| x xs IH]; [reflexivity |].
  cbn [filterM]. cbv [bind attr get ret] in *. rewrite IH.
  cbn [passing filter]. destruct (rating_min <=? rating (h x)); reflexivity.
Qed.

Lemma mapM_rating (xs : list ref) (h : heap) :
  mapM (attr rating) xs h = (Returned (map (fun r => rating (h r)) xs), h).
Proof.
  cbv [attr get].
  induction xs as [| x xs IH]; [reflexivity |].
  cbn [mapM]. cbv [bind attr get ret] in *. rewrite IH. reflexivity.
Qed.

Lemma bind_run (S A B : Type) (m : St S A) (f : A -> St S B) (st st' : S)
  (a : A) :
  m st = (Returned a, st') -> bind m f st = f a st'.
Proof. intros H. unfold bind. rewrite H. reflexivity. Qed.

Lemma sorted_rating (xs : list ref) (reverse : bool) (h : heap) :
  sorted xs (attr rating) reverse h = (Returned (ranked h xs reverse), h).
Proof.
  unfold sorted. erewrite bind_run by apply mapM_rating. reflexivity.
Qed.

Lemma sort_entries_run (entries : list ref) (rating_min : Z) (reverse : bool)
  (length : option Z) (h : heap) :
  sort_entries entries rating_min reverse length h
  = (Returned
       (let full := ranked h (passing h rating_min entries) (negb reverse) in
        match length with
        | Some n => if n <? 0 then full else firstn (Z.to_nat n) full
        | None => full
        end), h).
Proof.
  unfold sort_entries.
  erewrite bind_run by apply filterM_rating.
  erewrite bind_run by apply sorted_rating.
  unfold ret, slice_to. destruct length as [n |]; [| reflexivity].
  destruct (Z.ltb_spec n 0) as [Hn | Hn]; [reflexivity |].
  replace (n <? 0) with false by (symmetry; apply Z.ltb_ge; lia).
  reflexivity.
Qed.

Lemma passing_split (h : heap) (rating_min : Z) (entries : list ref) :
  Permutation
    (passing h rating_min entries
     ++ filter (fun r => negb (rating_min <=? rating (h r))) entries)
    entries.
Proof.
  unfold passing. induction entries as [| x xs IH]; simpl.
  - apply perm_nil.
  - destruct (rating_min <=? rating (h x)); simpl.
    + apply perm_skip, IH.
    + eapply Permutation_trans;
        [apply Permutation_sym, Permutation_middle | apply perm_skip, IH].
Qed.

(** ** Plain patterns *)

Lemma parse_plain_char (c : ascii) (p : str) (cur : re.frame)
  (stack : list re.frame) :
  special c = false ->
  re.parse (c :: p) cur stack
  = re.parse p (re.push (re.Lit c, re.Plain) cur) stack.
Proof.
  unfold special. cbn [existsb lit list_ascii_of_string]. intros H.
  repeat (apply Bool.orb_false_elim in H; destruct H as [? H]).
  cbn [re.parse]. unfold re.ch, re.quantifier, re.ch.
  repeat match goal with E : Ascii.eqb c _ = false |- _ => rewrite E; clear E end.
  reflexivity.
Qed.

Lemma parse_plain (x : str) :
  plain x = true ->
  forall (p : str) (cur : re.frame) (stack : list re.frame),
    re.parse (x ++ p) cur stack
    = re.parse p (fold_left (fun f c => re.push (re.Lit c, re.Plain) f) x cur)
               stack.
Proof.
  induction x as [| c x IH]; intros Hx p cur stack; [reflexivity |].
  simpl in Hx. apply Bool.andb_true_iff in Hx as [Hc Hx].
  apply Bool.negb_true_iff in Hc.
  simpl app. rewrite parse_plain_char by exact Hc. simpl fold_left.
  apply IH, Hx.
Qed.

Lemma items_plain (x : str) :
  forall (f : re.frame) (acc : re.regex),
    fold_left (fun a it => re.Seq (fst it) a)
              (re.items (fold_left (fun f c => re.push (re.Lit c, re.Plain) f) x f))
              acc
    = fold_left (fun a it => re.Seq (fst it) a) (re.items f) (literally x acc)
    /\ re.branches (fold_left (fun f c => re.push (re.Lit c, re.Plain) f) x f)
       = re.branches f.
Proof.
  induction x as [| c x IH]; intros f acc; [split; reflexivity |].
  simpl fold_left at 2 4. destruct (IH (re.push (re.Lit c, re.Plain) f) acc) as [I B].
  split; [rewrite I | rewrite B]; reflexivity.
Qed.

Lemma compile_word_pattern (fragment : str) :
  plain fragment = true ->
  re.compile (word_pattern fragment)
  = Returned (re.Seq re.Bound (literally fragment (re.Seq re.Bound re.Eps))).
Proof.
  intros Hp. unfold re.compile, word_pattern.
  change (lit "\b" ++ fragment ++ lit "\b")
    with (re.backslash :: "b"%char :: (fragment ++ lit "\b")).
  cbn [re.parse]. 
  change (re.ch re.backslash "(") with false.
  change (re.ch re.backslash ")") with false.
  change (re.ch re.backslash "|") with false.
  change (re.quantifier re.backslash) with (@None (re.regex -> re.regex)).
  change (Ascii.eqb re.backslash re.backslash) with true.
  change (re.ch "b" "b") with true. cbv iota.
  rewrite parse_plain by exact Hp.
  set (f := fold_left _ fragment _).
  change (re.parse (lit "\b") f []) with (Returned (re.close (re.push (re.Bound, re.At) f))).
  f_equal. unfold re.close, re.branch_of. subst f.
  destruct (items_plain fragment (re.push (re.Bound, re.At) re.empty_frame)
              (re.Seq re.Bound re.Eps)) as [I B].
  cbn [re.push re.branches re.items fold_left]. rewrite B. simpl re.branches.
  cbn [fold_left fst]. rewrite I. reflexivity.
Qed.

Lemma skipn_nth_error (A : Type) (l : list A) :
  forall i, skipn i l = match nth_error l i with
                        | Some d => d :: skipn (S i) l
                        | None => []
                        end.
Proof.
  induction l as [| x l IH]; intros [| i]; try reflexivity.
  simpl skipn at 1. simpl nth_error. rewrite IH. reflexivity.
Qed.

Lemma run_literally (subject x : str) (tail : re.regex) :
  forall (i : nat) (k : nat -> option nat),
    re.run true subject (literally x tail) i k
    = if startswith (lower x) (skipn i (lower subject))
      then re.run true subject tail (i + List.length x) k
      else None.
Proof.
  induction x as [| c x IH]; intros i k.
  - simpl. rewrite Nat.add_0_r. reflexivity.
  - cbn [literally fold_right re.run]. fold (literally x tail).
    unfold lower at 2. rewrite skipn_nth_error, nth_error_map.
    fold (lower subject).
    destruct (nth_error subject i) as [d |]; [| reflexivity].
    cbn [option_map lower map startswith]. unfold re.same.
    destruct (Char.eqb (Char.lower c) (Char.lower d)); [| reflexivity].
    cbn [andb]. rewrite IH. cbn [List.length]. rewrite Nat.add_succ_r.
    reflexivity.
Qed.

Lemma run_word (fragment name : str) (i : nat) (k : nat -> option nat) :
  re.run true name
         (re.Seq re.Bound (literally fragment (re.Seq re.Bound re.Eps))) i k
  = if word_at_offset fragment name i
    then k (i + List.length fragment)%nat else None.
Proof.
  cbn [re.run]. unfold word_at_offset.
  destruct (re.at_boundary name i); [| rewrite Bool.andb_false_r; reflexivity].
  rewrite run_literally, Bool.andb_true_r.
  destruct (startswith _ _); [| reflexivity].
  cbn [re.run andb]. reflexivity.
Qed.

Lemma search_word (fragment name : str) :
  forall n i,
    match re.search_from true name
            (re.Seq re.Bound (literally fragment (re.Seq re.Bound re.Eps)))
            n i false with
    | Some _ => true
    | None => false
    end
    = existsb (word_at_offset fragment name) (seq i n).
Proof.
  induction n as [| n IH]; intros i; [reflexivity |].
  cbn [re.search_from seq existsb]. rewrite run_word.
  destruct (word_at_offset fragment name i); [reflexivity |].
  apply IH.
Qed.

(** For a plain fragment the code's match test is the specification's. *)
Lemma matched_plain (fragment name : str) :
  plain fragment = true -> matched fragment name = occurs_as_word fragment name.
Proof.
  intros Hp. unfold matched, re.search_ignorecase.
  rewrite compile_word_pattern by exact Hp.
  cbn [re.bind]. unfold re.search_at. rewrite Nat.sub_0_r.
  rewrite search_word. reflexivity.
Qed.

Lemma nth_claimed_author_marks (e : Entry) (author_ratings : ratings) (i : nat) :
  nth i (claimed_author_marks e author_ratings) false
  = hit_at occurs_as_word (authors e) author_ratings i.
Proof.
  unfold claimed_author_marks, hit_at.
  generalize (authors e). intros names. revert i.
  induction names as [| a names IH]; intros [| i]; simpl; auto.
Qed.

Section PlainFragments.

Variable finditer : str -> str -> outcome (list (nat * nat)).
Variable search_ignorecase : str -> str -> outcome bool.

(** The library's search does on the pattern of a plain fragment what
    the modelled one does. *)
Hypothesis search_plain_fragment :
  forall fragment name : str,
    plain fragment = true ->
    search_ignorecase (word_pattern fragment) name
    = re.search_ignorecase (word_pattern fragment) name.

Lemma matched_plain_any_re (fragment name : str) :
  plain fragment = true ->
  AnyRe.matched search_ignorecase fragment name
  = occurs_as_word fragment name.
Proof.
  intros Hp. rewrite <- (@matched_plain fragment name Hp).
  unfold AnyRe.matched, matched.
  rewrite search_plain_fragment by exact Hp. reflexivity.
Qed.

Lemma author_score_plain (names : list str) (author_ratings : ratings) :
  forallb (fun ar => plain (fst ar)) author_ratings = true ->
  author_score (AnyRe.matched search_ignorecase) names author_ratings
  = author_score occurs_as_word names author_ratings.
Proof.
  unfold author_score. induction author_ratings as [| ar ars IH]; intros H;
    [reflexivity |].
  simpl in H. apply Bool.andb_true_iff in H as [Hp H].
  simpl. rewrite (IH H). f_equal. f_equal.
  apply map_ext. intros a. rewrite matched_plain_any_re by exact Hp.
  reflexivity.
Qed.

Lemma hit_at_plain (names : list str) (author_ratings : ratings) (i : nat) :
  forallb (fun ar => plain (fst ar)) author_ratings = true ->
  hit_at (AnyRe.matched search_ignorecase) names author_ratings i
  = hit_at occurs_as_word names author_ratings i.
Proof.
  intros H. unfold hit_at. destruct (nth_error names i) as [a |]; [| reflexivity].
  induction author_ratings as [| ar ars IH]; [reflexivity |].
  simpl in H. apply Bool.andb_true_iff in H as [Hp H].
  simpl. rewrite (IH H), matched_plain_any_re by exact Hp. reflexivity.
Qed.

(** With plain fragments a returning evaluation of an entry without
    author marks gives the rating and the marks of the specification's
    sentence. *)
Lemma evaluate_plain (keyword_ratings author_ratings : ratings)
  (rate_abstract : bool) (e e' : Entry) (r : Z) :
  AnyRe.evaluate finditer search_ignorecase keyword_ratings author_ratings
                 rate_abstract e = (Returned r, e') ->
  forallb (fun ar => plain (fst ar)) author_ratings = true ->
  rating e' = claimed_rating e keyword_ratings author_ratings rate_abstract
  /\ (author_marks e = repeat false (List.length (authors e)) ->
      author_marks e' = claimed_author_marks e author_ratings).
Proof.
  intros H Hp. apply evaluate_returned_any_re in H as (Hr & Hl & Hn).
  split.
  - unfold claimed_rating. rewrite <- author_score_plain by exact Hp. exact Hr.
  - intros Hfresh. apply (nth_ext _ _ false false).
    + rewrite Hl, Hfresh, repeat_length. unfold claimed_author_marks.
      symmetry. apply length_map.
    + intros i _. rewrite Hn, Hfresh, nth_repeat, nth_claimed_author_marks.
      simpl. apply hit_at_plain, Hp.
Qed.

End PlainFragments.

(* ================================================================== *)
(** * The claims *)
(* ================================================================== *)

(** C1, as stated, fails in three ways.  An author fragment is read as a
    regular expression: the fragment [J. Smith] is found in the name
    [Jo Smith], where it does not occur, so the weight is added and the
    author marked.  Author marks of an earlier call are kept: after a
    call with [Doe] the author stays marked by a call with empty
    tables.  And a call can raise instead of returning a rating. *)
Lemma evaluate_claim_counterexample :
  (let e := paper (lit "t") [lit "Jo Smith"] (lit "") in
   let ar := [(lit "J. Smith", 5)] in
   fst (evaluate [] ar true e) = Returned 5
   /\ claimed_rating e [] ar true = 0
   /\ author_marks (snd (evaluate [] ar true e)) = [true]
   /\ claimed_author_marks e ar = [false])
  /\ (let e0 := paper (lit "t") [lit "Jane Doe"] (lit "") in
      let e1 := snd (evaluate [] [(lit "Doe", 1)] true e0) in
      author_marks (snd (evaluate [] [] true e1)) = [true]
      /\ claimed_author_marks e1 [] = [false])
  /\ (let e := paper (lit "f(R) gravity") [] (lit "") in
      fst (evaluate [(lit "(", 1)] [] true e) = Raised re_error).
Proof. vm_compute. repeat split; reflexivity. Qed.

(** C1 (amended): whatever [re] answers to the patterns, when
    [evaluate] returns, it returns the rating it has set, and that
    rating is the sum over the keyword table of the count of the
    lowered keyword in the lowered title times the weight, plus the
    same for the abstract when [rate_abstract] is set, plus the weight
    once for every (item, author) pair for which [re.search] finds
    [\b<fragment>\b], the fragment read as a regular expression, in the
    author's name, ignoring case; [author_marks] keeps its length, and
    an author is marked afterwards exactly when it was marked before
    the call or some fragment matched it.  For fragments without a
    character that is special in patterns, on which the search is the
    modelled one, the match is the whole-word occurrence of the
    fragment, the rating is the one of the specification's sentence,
    and so are the author marks when no author was marked before the
    call. *)
Theorem evaluate_score_and_marks
  (finditer : str -> str -> outcome (list (nat * nat)))
  (search_ignorecase : str -> str -> outcome bool)
  (e e' : Entry)
  (keyword_ratings author_ratings : ratings) (rate_abstract : bool) (r : Z)
  (Hret : AnyRe.evaluate finditer search_ignorecase keyword_ratings
                         author_ratings rate_abstract e
          = (Returned r, e')) :
  r = rating e'
  /\ rating e'
     = keyword_score (title e) (abstract e) rate_abstract keyword_ratings
       + author_score (AnyRe.matched search_ignorecase) (authors e)
                      author_ratings
  /\ List.length (author_marks e') = List.length (author_marks e)
  /\ (forall i, nth i (author_marks e') false
                = (nth i (author_marks e) false
                   || hit_at (AnyRe.matched search_ignorecase) (authors e)
                             author_ratings i)%bool)
  /\ ((forall fragment name : str,
         plain fragment = true ->
         search_ignorecase (word_pattern fragment) name
         = re.search_ignorecase (word_pattern fragment) name) ->
      forallb (fun ar => plain (fst ar)) author_ratings = true ->
      (forall ar name, In ar author_ratings ->
         AnyRe.matched search_ignorecase (fst ar) name
         = occurs_as_word (fst ar) name)
      /\ rating e'
         = claimed_rating e keyword_ratings author_ratings rate_abstract
      /\ (author_marks e = repeat false (List.length (authors e)) ->
          author_marks e' = claimed_author_marks e author_ratings)).
Proof.
  split; [eapply evaluate_returns_rating_any_re, Hret |].
  destruct (@evaluate_returned_any_re _ _ _ _ _ _ _ _ Hret) as (Hr & Hl & Hn).
  split; [exact Hr |]. split; [exact Hl |]. split; [exact Hn |].
  intros Hre Hp. split.
  - intros ar name Har. apply matched_plain_any_re; [exact Hre |].
    rewrite forallb_forall in Hp. exact (Hp ar Har).
  - eapply evaluate_plain; eassumption.
Qed.

Lemma evaluate_score_and_marks_witness :
  let e := paper (lit "AI research on AI systems")
                 [lit "John Smith"; lit "Jane Doe"] (lit "Main ideas.") in
  let kr := [(lit "ai", 2)] in
  let ar := [(lit "Smith", 5)] in
  let e' := snd (AnyRe.evaluate re.finditer re.search_ignorecase
                   kr ar true e) in
  AnyRe.evaluate re.finditer re.search_ignorecase kr ar true e
  = (Returned 11, e')
  /\ forallb (fun ar => plain (fst ar)) ar = true
  /\ author_marks e = repeat false (List.length (authors e))
  /\ 11 = rating e'
  /\ rating e' = claimed_rating e kr ar true
  /\ author_marks e' = claimed_author_marks e ar
  /\ author_marks e' = [true; false].
Proof.
  intros e kr ar e'.
  assert (H : AnyRe.evaluate re.finditer re.search_ignorecase kr ar true e
              = (Returned 11, e'))
    by (vm_compute; reflexivity).
  assert (Hp : forallb (fun ar => plain (fst ar)) ar = true)
    by (vm_compute; reflexivity).
  assert (Hf : author_marks e = repeat false (List.length (authors e)))
    by (vm_compute; reflexivity).
  destruct (@evaluate_score_and_marks re.finditer re.search_ignorecase
              e e' kr ar true 11 H)
    as (Hr & _ & _ & _ & Hc).
  destruct (Hc (fun fragment name _ => eq_refl) Hp) as (_ & Hc1 & Hc2).
  split; [exact H |]. split; [exact Hp |]. split; [exact Hf |].
  split; [exact Hr |]. split; [exact Hc1 |]. split; [exact (Hc2 Hf) |].
  vm_compute; reflexivity.
Defined.

(** C2: [sort_entries] returns the entries rated at least [rating_min],
    each as often as it is listed, in descending order of rating when
    [reverse] is false and ascending when it is true, entries of equal
    rating in their input order, cut to the first [length] entries when
    [length] is given and not negative, and whole otherwise. *)
Theorem sort_entries_ranks (h : heap) (entries : list ref) (rating_min : Z)
  (reverse : bool) (length : option Z) :
  exists full,
    Permutation full (passing h rating_min entries)
    /\ (if reverse then ascending h full else descending h full)
    /\ (forall k, rated_at h k full
                  = rated_at h k (passing h rating_min entries))
    /\ fst (sort_entries entries rating_min reverse length h)
       = Returned match length with
                  | Some n => if n <? 0 then full
                              else firstn (Z.to_nat n) full
                  | None => full
                  end.
Proof.
  exists (ranked h (passing h rating_min entries) (negb reverse)).
  destruct (ranked_spec h (passing h rating_min entries) (negb reverse))
    as (Hp & Hs & Hk).
  repeat split; auto.
  - destruct reverse; exact Hs.
  - rewrite sort_entries_run. reflexivity.
Qed.

(** C3, as stated, fails: [title_marks] is a list and marking appends to
    it, so marking an offset that is present leaves it there twice, and
    one evaluation of a title with two occurrences of a keyword marks
    every offset twice. *)
Lemma title_marks_duplicates :
  (let e := snd (mark_title_position 0 (paper (lit "ai") [] (lit ""))) in
   title_marks e = [0] /\ title_marks (snd (mark_title_position 0 e)) = [0; 0])
  /\ (let e := paper (lit "AI research on AI systems") [] (lit "") in
      title_marks (snd (evaluate [(lit "ai", 2)] [] true e))
      = [0; 1; 15; 16; 0; 1; 15; 16])
  /\ ~ NoDup [0; 0].
Proof.
  split; [vm_compute; auto |]. split; [vm_compute; reflexivity |].
  intros H. inversion H as [| x l Hin _]. apply Hin. left. reflexivity.
Qed.

(** C3 (amended): [title_marks] is a list that may hold an offset more
    than once.  Marking an offset appends it, and when the offset was
    present the set of marked offsets is as it was.  Evaluating an
    entry, a new one included, a second time with the same tables
    appends the offsets of the first evaluation once more: the list
    grows, and the set of marked offsets is as the first evaluation
    left it. *)
Theorem remarking_keeps_marked_set (e : Entry) (position : Z)
  (keyword_ratings author_ratings : ratings) (rate_abstract : bool) :
  title_marks (snd (mark_title_position position e))
  = title_marks e ++ [position]
  /\ (In position (title_marks e) ->
      forall q, In q (title_marks (snd (mark_title_position position e)))
                <-> In q (title_marks e))
  /\ let run := evaluate keyword_ratings author_ratings rate_abstract in
     (exists extra,
        title_marks (snd (run e)) = title_marks e ++ extra
        /\ title_marks (snd (run (snd (run e))))
           = title_marks (snd (run e)) ++ extra)
     /\ forall q, In q (title_marks (snd (run (snd (run e)))))
                  <-> In q (title_marks (snd (run e))).
Proof.
  split; [reflexivity |]. split.
  - intros Hin q. simpl. rewrite in_app_iff. simpl.
    intuition. subst q. exact Hin.
  - intros run. subst run.
    pose proof (evaluate_again keyword_ratings author_ratings rate_abstract e)
      as Hag.
    cbv zeta in Hag. destruct Hag as (_ & _ & extra & M1 & M2).
    split; [exists extra; auto |].
    intros q. rewrite M2, M1, !in_app_iff. tauto.
Qed.

Lemma remarking_keeps_marked_set_witness :
  let e0 := paper (lit "AI research") [] (lit "") in
  let run := evaluate [(lit "ai", 2)] [] true in
  let e1 := snd (run e0) in
  title_marks e0 = []
  /\ title_marks e1 = [0; 1]
  /\ title_marks (snd (run e1)) = [0; 1; 0; 1]
  /\ (forall q, In q (title_marks (snd (run e1))) <-> In q (title_marks e1))
  /\ In 1 (title_marks e1)
  /\ title_marks (snd (mark_title_position 1 e1)) = title_marks e1 ++ [1]
  /\ (forall q, In q (title_marks (snd (mark_title_position 1 e1)))
                <-> In q (title_marks e1)).
Proof.
  intros e0 run e1.
  assert (H : In 1 (title_marks e1)) by (vm_compute; auto).
  destruct (@remarking_keeps_marked_set e0 0 [(lit "ai", 2)] [] true)
    as (_ & _ & _ & Hset).
  destruct (@remarking_keeps_marked_set e1 1 [(lit "ai", 2)] [] true)
    as (Happ & Hsame & _).
  split; [reflexivity |].
  split; [vm_compute; reflexivity |].
  split; [vm_compute; reflexivity |].
  split; [exact Hset |]. split; [exact H |]. split; [exact Happ |].
  exact (Hsame H).
Defined.

(** C4, as stated, fails: [evaluate] resets the rating and nothing
    else.  An entry evaluated with a keyword and an author keeps its
    title marks and its author mark through a later evaluation with
    empty tables. *)
Lemma evaluate_keeps_old_marks :
  let e0 := paper (lit "AI research") [lit "John Smith"] (lit "") in
  let e1 := snd (evaluate [(lit "ai", 2)] [(lit "Smith", 5)] true e0) in
  let e2 := snd (evaluate [] [] true e1) in
  rating e1 = 7 /\ rating e2 = 0
  /\ title_marks e2 = [0; 1] /\ author_marks e2 = [true].
Proof. vm_compute. repeat split; reflexivity. Qed.

(** C4 (amended): [evaluate] resets the rating only.  With empty tables
    it returns 0 and leaves every other field, the marks included, as
    it found them (so a new entry stays without marks); with any tables
    the title marks of earlier calls stay in front of the new ones and
    the authors marked by earlier calls stay marked. *)
Theorem evaluate_resets_rating_only (e : Entry)
  (keyword_ratings author_ratings : ratings) (rate_abstract : bool) :
  evaluate [] [] rate_abstract e = (Returned 0, set_rating 0 e)
  /\ grows e (snd (evaluate keyword_ratings author_ratings rate_abstract e)).
Proof.
  split; [reflexivity | apply grows_evaluate].
Qed.

(** C5 fails on the code at a keyword with characters that are special
    in regular expressions: [f(r)] occurs once in the lowered title, at
    offset 0, and [evaluate] counts it, but the marking searches for
    the regular expression [f(r)], which matches [fr] only, and marks
    nothing. *)
Theorem mark_coverage_lost :
  let e := paper (lit "f(R) gravity") [] (lit "") in
  let keyword := lower (lit "f(R)") in
  count (lower (title e)) keyword = 1
  /\ startswith keyword (lower (title e)) = true
  /\ fst (evaluate [(lit "f(R)", 1)] [] true e) = Returned 1
  /\ title_marks (snd (evaluate [(lit "f(R)", 1)] [] true e)) = [].
Proof. vm_compute. repeat split; reflexivity. Qed.

(** C6 fails on the code at a keyword that is not a regular expression:
    the keyword [(] occurs in the title, so the marking compiles it as
    a pattern, and [re.error] comes out of [evaluate] and of
    [evaluate_entries]. *)
Theorem evaluate_raises_on_keyword :
  let e := paper (lit "f(R) gravity") [] (lit "") in
  fst (evaluate [(lit "(", 1)] [] true e) = Raised re_error
  /\ fst (evaluate_entries [0%nat] [(lit "(", 1)] [] true (fun _ => e))
     = Raised re_error.
Proof. vm_compute. split; reflexivity. Qed.

(** C7: evaluating an entry a second time with the same tables ends in
    the same outcome as the first time and leaves the same rating. *)
Theorem evaluate_twice_same_rating (e : Entry)
  (keyword_ratings author_ratings : ratings) (rate_abstract : bool) :
  let run := evaluate keyword_ratings author_ratings rate_abstract in
  fst (run (snd (run e))) = fst (run e)
  /\ rating (snd (run (snd (run e)))) = rating (snd (run e)).
Proof.
  intros run.
  destruct (evaluate_again keyword_ratings author_ratings rate_abstract e)
    as (Ho & Hr & _).
  split; assumption.
Qed.

(** C8: a new entry has one author mark per author, and [mark_author],
    [mark_title_position], [mark_title_keyword], [evaluate],
    [evaluate_entries] and [sort_entries] keep it so, whatever their
    outcome. *)
Theorem marks_fit_preserved :
  (forall id title authors abstract submitted updated category number,
     marks_fit (Entry_init id title authors abstract submitted updated
                           category number))
  /\ (forall e, marks_fit e ->
        (forall number, marks_fit (snd (mark_author number e)))
        /\ (forall position, marks_fit (snd (mark_title_position position e)))
        /\ (forall keyword, marks_fit (snd (mark_title_keyword keyword e)))
        /\ (forall keyword_ratings author_ratings rate_abstract,
              marks_fit (snd (evaluate keyword_ratings author_ratings
                                       rate_abstract e))))
  /\ (forall h, (forall r, marks_fit (h r)) ->
        (forall entries keyword_ratings author_ratings rate_abstract r,
           marks_fit (snd (evaluate_entries entries keyword_ratings
                                            author_ratings rate_abstract h) r))
        /\ (forall entries rating_min reverse length r,
              marks_fit (snd (sort_entries entries rating_min reverse
                                           length h) r))).
Proof.
  split; [| split].
  - intros. unfold marks_fit, Entry_init. simpl. apply repeat_length.
  - intros e He. repeat split; intros.
    + eapply grows_marks_fit; [apply grows_mark_author | exact He].
    + eapply grows_marks_fit; [apply grows_mark_title_position | exact He].
    + eapply grows_marks_fit; [apply grows_mark_title_keyword | exact He].
    + eapply grows_marks_fit; [apply grows_evaluate | exact He].
  - intros h Hh. split; intros.
    + eapply grows_marks_fit; [apply heap_grows_evaluate_entries | apply Hh].
    + rewrite sort_entries_run. apply Hh.
Qed.

Lemma marks_fit_preserved_witness :
  let e := paper (lit "AI research") [lit "John Smith"; lit "Jane Doe"]
                 (lit "") in
  marks_fit e
  /\ marks_fit (snd (mark_author 1 e))
  /\ marks_fit (snd (mark_author 2 e))
  /\ marks_fit (snd (evaluate [(lit "ai", 2)] [(lit "Smith", 5)] true e))
  /\ marks_fit (snd (evaluate_entries [0; 0]%nat [(lit "ai", 2)]
                                      [(lit "Smith", 5)] true (fun _ => e))
                    0%nat).
Proof.
  intros e.
  assert (He : marks_fit e) by reflexivity.
  destruct marks_fit_preserved as (_ & Hm & Hh).
  destruct (Hm e He) as (Ha & _ & _ & Hv).
  assert (Hall : forall r : ref, marks_fit ((fun _ => e) r)) by (intros _; exact He).
  destruct (Hh (fun _ => e) Hall) as (Hs & _).
  repeat split; auto.
Defined.

(** C9, as stated, fails: weights are integers and may be negative, and
    a keyword weighted -1 that occurs once leaves the evaluated entry
    rated -1, the value a new entry has. *)
Lemma evaluate_negative_rating :
  let e := paper (lit "AI research") [] (lit "") in
  rating e = -1
  /\ evaluate [(lit "ai", -1)] [] true e
     = (Returned (-1), set_title_marks [0; 1] e).
Proof. vm_compute. split; reflexivity. Qed.

(** C9 (amended): when no weight in the two tables is negative, the
    rating [evaluate] leaves is not negative, and neither is the rating
    it returns, which is then different from the -1 of a new entry. *)
Theorem evaluate_rating_nonneg (e : Entry)
  (keyword_ratings author_ratings : ratings) (rate_abstract : bool)
  (Hk : Forall (fun kr => 0 <= snd kr) keyword_ratings)
  (Ha : Forall (fun ar => 0 <= snd ar) author_ratings) :
  0 <= rating (snd (evaluate keyword_ratings author_ratings rate_abstract e))
  /\ forall r,
       fst (evaluate keyword_ratings author_ratings rate_abstract e)
       = Returned r ->
       0 <= r /\ r <> -1.
Proof.
  pose proof (evaluate_nonneg rate_abstract e Hk Ha) as H.
  split; [exact H |]. intros r Hr.
  destruct (evaluate keyword_ratings author_ratings rate_abstract e)
    as [o e'] eqn:E.
  simpl in *. subst o. apply evaluate_returns_rating in E. lia.
Qed.

Lemma evaluate_rating_nonneg_witness :
  let e := paper (lit "AI research") [lit "John Smith"] (lit "") in
  let kr := [(lit "ai", 2); (lit "search", 0)] in
  let ar := [(lit "Smith", 5)] in
  Forall (fun kr => 0 <= snd kr) kr
  /\ Forall (fun ar => 0 <= snd ar) ar
  /\ 0 <= rating (snd (evaluate kr ar true e))
  /\ forall r, fst (evaluate kr ar true e) = Returned r -> 0 <= r /\ r <> -1.
Proof.
  intros e kr ar.
  assert (Hk : Forall (fun kr => 0 <= snd kr) kr)
    by (repeat constructor; simpl; lia).
  assert (Ha : Forall (fun ar => 0 <= snd ar) ar)
    by (repeat constructor; simpl; lia).
  split; [exact Hk |]. split; [exact Ha |].
  exact (@evaluate_rating_nonneg e kr ar true Hk Ha).
Defined.

(** C10: [sort_entries] leaves the heap as it is, so every attribute of
    every entry is what it was, and the list it returns is made of
    references taken from its input, none more often than it is listed
    there. *)
Theorem sort_entries_reads_only (h : heap) (entries : list ref)
  (rating_min : Z) (reverse : bool) (length : option Z) :
  snd (sort_entries entries rating_min reverse length h) = h
  /\ exists out rest,
       fst (sort_entries entries rating_min reverse length h) = Returned out
       /\ Permutation (out ++ rest) entries.
Proof.
  rewrite sort_entries_run. split; [reflexivity |]. simpl.
  set (full := ranked h (passing h rating_min entries) (negb reverse)).
  set (failing := filter (fun r => negb (rating_min <=? rating (h r))) entries).
  assert (Hfull : Permutation (full ++ failing) entries).
  { eapply Permutation_trans; [| apply passing_split].
    apply Permutation_app_tail.
    apply (ranked_spec h (passing h rating_min entries) (negb reverse)). }
  assert (Hcut : forall n, Permutation
                             (firstn n full ++ (skipn n full ++ failing))
                             entries).
  { intros n. rewrite app_assoc, firstn_skipn. exact Hfull. }
  destruct length as [n |].
  - destruct (n <? 0).
    + exists full, failing. auto.
    + exists (firstn (Z.to_nat n) full), (skipn (Z.to_nat n) full ++ failing).
      auto.
  - exists full, failing. auto.
Qed.

(* ================================================================== *)
(** * Further properties *)
(* ================================================================== *)

Unset Implicit Arguments.

Example print_one :
  let e := snd (evaluate [(lit "ai", 2)] [(lit "Smith", 5)] true
                  (paper (lit "AI research") [lit "John Smith"] (lit ""))) in
  print_entries uncolored show_timestamp (fun _ => e) [0%nat] []
  = (Returned tt,
     [lit "( 7) https://arxiv.org/abs/2101.00001";
      lit "     John Smith";
      lit "     AI research";
      lit "     submitted 0 on cs.AI"]).
Proof. vm_compute. reflexivity. Qed.

Lemma count_scan_find (sub x : str) :
  forall skip pos,
    count_scan sub x skip = List.length (find_scan sub x skip pos).
Proof.
  induction x as [| c x IH]; intros skip pos; [reflexivity |].
  simpl. destruct skip as [| k]; [| apply IH].
  destruct (startswith sub (c :: x)); simpl; rewrite <- IH; reflexivity.
Qed.

Lemma find_scan_skip (sub : str) :
  forall (k : nat) (x : str) (pos : nat),
    find_scan sub x k pos = find_scan sub (skipn k x) O (pos + k).
Proof.
  induction k as [| k IH]; intros x pos.
  - rewrite Nat.add_0_r. reflexivity.
  - destruct x as [| c x]; [reflexivity |].
    simpl. rewrite IH. f_equal. lia.
Qed.

Lemma startswith_length (sub x : str) :
  startswith sub x = true -> (List.length sub <= List.length x)%nat.
Proof.
  revert x. induction sub as [| a sub IH]; intros [| b x] H; simpl in *;
    try lia; try discriminate.
  apply Bool.andb_true_iff in H as [_ H]. apply IH in H. lia.
Qed.

Section Found.

Variables sub x : str.
Hypothesis sub_nonempty : sub <> [].

Lemma found_from_end (i : nat) :
  (List.length x <= i)%nat -> found_from sub x i = [].
Proof.
  intros H. unfold found_from. rewrite skipn_all2 by exact H. reflexivity.
Qed.

Lemma found_from_step (i : nat) :
  found_from sub x i
  = if startswith sub (skipn i x)
    then i :: found_from sub x (i + List.length sub)
    else found_from sub x (S i).
Proof.
  unfold found_from.
  destruct (Nat.le_gt_cases (List.length x) i) as [Hi | Hi].
  - rewrite !skipn_all2 by lia.
    destruct sub as [| a s']; [contradiction |]. reflexivity.
  - rewrite (skipn_nth_error x i).
    destruct (nth_error x i) as [c |] eqn:E;
      [| apply nth_error_None in E; lia].
    cbn [find_scan]. 
    destruct (startswith sub (c :: skipn (S i) x)); [| reflexivity].
    f_equal. rewrite find_scan_skip, skipn_skipn.
    destruct sub as [| a s']; [contradiction |].
    cbn [List.length Nat.pred]. f_equal; [f_equal; lia | lia].
Qed.

Lemma found_from_miss (i b : nat) :
  (i <= b)%nat ->
  (forall j, (i <= j < b)%nat -> startswith sub (skipn j x) = false) ->
  found_from sub x i = found_from sub x b.
Proof.
  intros Hle. induction Hle as [| b Hle IH]; intros Hmiss; [reflexivity |].
  rewrite IH by (intros j Hj; apply Hmiss; lia).
  rewrite (found_from_step b), Hmiss by lia. reflexivity.
Qed.

End Found.

(** ** Plain keywords *)

Lemma compile_plain (x : str) :
  plain x = true -> re.compile x = Returned (literally x re.Eps).
Proof.
  intros Hp. unfold re.compile.
  rewrite <- (app_nil_r x) at 1. rewrite parse_plain by exact Hp.
  cbn [re.parse]. f_equal. unfold re.close, re.branch_of.
  destruct (items_plain x re.empty_frame re.Eps) as [I B].
  rewrite B, I. reflexivity.
Qed.

Lemma run_literally_exact (subject x : str) (tail : re.regex) :
  forall (i : nat) (k : nat -> option nat),
    re.run false subject (literally x tail) i k
    = if startswith x (skipn i subject)
      then re.run false subject tail (i + List.length x) k
      else None.
Proof.
  induction x as [| c x IH]; intros i k.
  - simpl. rewrite Nat.add_0_r. reflexivity.
  - cbn [literally fold_right re.run]. fold (literally x tail).
    rewrite skipn_nth_error.
    destruct (nth_error subject i) as [d |]; [| reflexivity].
    cbn [startswith]. unfold re.same.
    destruct (Char.eqb c d); [| reflexivity].
    cbn [andb]. rewrite IH. cbn [List.length]. rewrite Nat.add_succ_r.
    reflexivity.
Qed.

Section PlainSearch.

Variables sub x : str.
Hypothesis sub_nonempty : sub <> [].

Let r := literally sub re.Eps.

Lemma sub_length_pos : (0 < List.length sub)%nat.
Proof. destruct sub; [contradiction | simpl; lia]. Qed.

Lemma search_from_plain (m : nat) :
  forall (i : nat) (must_advance : bool),
    match re.search_from false x r m i must_advance with
    | Some (b, e) =>
        (i <= b < i + m)%nat /\ e = (b + List.length sub)%nat
        /\ startswith sub (skipn b x) = true
        /\ forall j, (i <= j < b)%nat -> startswith sub (skipn j x) = false
    | None =>
        forall j, (i <= j < i + m)%nat -> startswith sub (skipn j x) = false
    end.
Proof.
  pose proof sub_length_pos as Hn.
  induction m as [| m IH]; intros i ma.
  - simpl. intros j Hj. lia.
  - cbn [re.search_from]. unfold r at 1. rewrite run_literally_exact.
    destruct (startswith sub (skipn i x)) eqn:E.
    + cbn [re.run].
      replace (Nat.eqb (i + List.length sub) i) with false
        by (symmetry; apply Nat.eqb_neq; lia).
      rewrite Bool.andb_false_r.
      repeat split; auto; try lia; intros j Hj; lia.
    + specialize (IH (S i) false).
      destruct (re.search_from false x r m (S i) false) as [[b e] |].
      * destruct IH as (Hb & He & Hs & Hm). repeat split; auto; try lia.
        intros j Hj. destruct (Nat.eq_dec j i) as [-> | Hne]; [exact E |].
        apply Hm. lia.
      * intros j Hj. destruct (Nat.eq_dec j i) as [-> | Hne]; [exact E |].
        apply IH. lia.
Qed.

Lemma scan_plain (fuel : nat) :
  forall (i : nat) (must_advance : bool),
    (i <= List.length x)%nat ->
    (List.length x - i < fuel)%nat ->
    re.scan false x r fuel i must_advance
    = map (fun p => (p, p + List.length sub)%nat) (found_from sub x i).
Proof.
  pose proof sub_length_pos as Hn.
  induction fuel as [| fuel IH]; intros i ma Hi Hf; [lia |].
  cbn [re.scan]. unfold re.search_at.
  pose proof (search_from_plain (S (List.length x) - i) i ma) as H.
  destruct (re.search_from false x r (S (List.length x) - i) i ma)
    as [[b e] |].
  - destruct H as (Hb & He & Hs & Hm). subst e.
    rewrite (@found_from_miss sub x sub_nonempty i b) by (auto; lia).
    rewrite (@found_from_step sub x sub_nonempty b), Hs. cbn [map]. f_equal.
    pose proof (startswith_length _ _ Hs) as Hl. rewrite length_skipn in Hl.
    apply IH; lia.
  - rewrite (@found_from_miss sub x sub_nonempty i (List.length x)).
    + rewrite found_from_end by lia. reflexivity.
    + lia.
    + intros j Hj. apply H. lia.
Qed.

End PlainSearch.

(** For a plain, non-empty keyword [finditer] finds the occurrences
    that [count] counts. *)
Lemma finditer_plain (sub x : str) :
  plain sub = true -> sub <> [] ->
  re.finditer sub x
  = Returned (map (fun p => (p, p + List.length sub)%nat) (occurrences x sub)).
Proof.
  intros Hp Hne. unfold re.finditer. rewrite compile_plain by exact Hp.
  cbn [re.bind]. f_equal.
  rewrite (@scan_plain sub x Hne) by lia. reflexivity.
Qed.

Lemma count_occurrences (sub x : str) :
  sub <> [] -> count x sub = Z.of_nat (List.length (occurrences x sub)).
Proof.
  intros Hne. unfold count, occurrences.
  destruct sub as [| a s']; [contradiction |].
  rewrite (count_scan_find (a :: s') x O O). reflexivity.
Qed.

(** The matches of the empty pattern are empty. *)
Lemma scan_eps (ic : bool) (x : str) (fuel : nat) :
  forall i ma, Forall (fun se => fst se = snd se) (re.scan ic x re.Eps fuel i ma).
Proof.
  induction fuel as [| fuel IH]; intros i ma; [constructor |].
  cbn [re.scan]. unfold re.search_at.
  assert (H : forall m j a,
             match re.search_from ic x re.Eps m j a with
             | Some (b, e) => b = e
             | None => True
             end).
  { induction m as [| m IHm]; intros j a; [exact I |].
    cbn [re.search_from re.run].
    destruct (a && Nat.eqb j j)%bool; [apply IHm | reflexivity]. }
  specialize (H (S (List.length x) - i)%nat i ma).
  destruct (re.search_from ic x re.Eps _ i ma) as [[b e] |]; constructor; auto.
Qed.

Lemma span_offsets_empty (spans : list (nat * nat)) :
  Forall (fun se => fst se = snd se) spans -> span_offsets spans = [].
Proof.
  unfold span_offsets. induction 1 as [| [b e] l H _ IH]; [reflexivity |].
  simpl in *. subst e. rewrite IH. unfold range. rewrite Nat.sub_diag.
  reflexivity.
Qed.

(** ** Rules for [safe] *)

Section Safe.

Context {S : Type} (I : S -> Prop).

Lemma safe_ret (A : Type) (a : A) : safe I (ret a).
Proof. intros st H. exists a. auto. Qed.

Lemma safe_get (A : Type) (f : S -> A) : safe I (get f).
Proof. intros st H. exists (f st). auto. Qed.

Lemma safe_modify (f : S -> S) :
  (forall st, I st -> I (f st)) -> safe I (modify f).
Proof. intros Hf st H. exists tt. simpl. auto. Qed.

Lemma safe_bind (A B : Type) (m : St S A) (f : A -> St S B) :
  safe I m -> (forall a, safe I (f a)) -> safe I (bind m f).
Proof.
  intros Hm Hf st H. destruct (Hm st H) as (a & Ha & Hi).
  unfold bind. destruct (m st) as [o st']. simpl in *. subst o.
  apply Hf, Hi.
Qed.

Lemma safe_for_each (A : Type) (xs : list A) (body : A -> St S unit) :
  (forall x, In x xs -> safe I (body x)) -> safe I (for_each xs body).
Proof.
  induction xs as [| x xs IH]; intros Hb; simpl.
  - apply safe_ret.
  - apply safe_bind; [apply Hb; left; reflexivity |].
    intros _. apply IH. intros y Hy. apply Hb. right. exact Hy.
Qed.

End Safe.

(** ** Marking a keyword *)

Lemma set_title_marks_same (e : Entry) : set_title_marks (title_marks e) e = e.
Proof. destruct e; reflexivity. Qed.

Lemma for_each_marks (l : list Z) :
  forall e, for_each l mark_title_position e
            = (Returned tt, set_title_marks (title_marks e ++ l) e).
Proof.
  induction l as [| p l IH]; intros e.
  - simpl. rewrite app_nil_r, set_title_marks_same. reflexivity.
  - simpl. erewrite bind_run by reflexivity. rewrite IH. simpl.
    rewrite <- app_assoc. reflexivity.
Qed.

Lemma for_each_spans (spans : list (nat * nat)) :
  forall e,
    for_each spans
      (fun se => for_each (range (fst se) (snd se)) mark_title_position) e
    = (Returned tt, set_title_marks (title_marks e ++ span_offsets spans) e).
Proof.
  unfold span_offsets. induction spans as [| se spans IH]; intros e.
  - simpl. rewrite app_nil_r, set_title_marks_same. reflexivity.
  - simpl. erewrite bind_run by apply for_each_marks. rewrite IH. simpl.
    rewrite <- app_assoc. reflexivity.
Qed.

Lemma combine_fst_snd (A B : Type) (l : list (A * B)) :
  combine (map fst l) (map snd l) = l.
Proof. induction l as [| [a b] l IH]; simpl; congruence. Qed.

Lemma keyword_rounds (keyword t : str) (spans : list (nat * nat)) :
  re.finditer keyword (lower t) = Returned spans ->
  forall (n : nat) (e : Entry),
    title e = t ->
    for_each (repeat tt n) (fun _ =>
      lowered <- get (fun self => lower (title self)) ;;
      starts <- lift (re.finditer keyword lowered) ;;
      lowered' <- get (fun self => lower (title self)) ;;
      ends <- lift (re.finditer keyword lowered') ;;
      for_each (combine (map fst starts) (map snd ends)) (fun se =>
        for_each (range (fst se) (snd se)) (fun pos =>
          mark_title_position pos))) e
    = (Returned tt,
       set_title_marks
         (title_marks e ++ List.concat (repeat (span_offsets spans) n)) e).
Proof.
  intros Hf. induction n as [| n IH]; intros e Ht.
  - simpl. rewrite app_nil_r, set_title_marks_same. reflexivity.
  - cbn [repeat for_each].
    erewrite bind_run.
    2:{ erewrite bind_run by reflexivity. cbn beta. rewrite Ht, Hf.
        erewrite bind_run by reflexivity.
        erewrite bind_run by reflexivity. cbn beta. rewrite Ht, Hf.
        erewrite bind_run by reflexivity.
        rewrite combine_fst_snd. apply for_each_spans. }
    rewrite IH by exact Ht. simpl. rewrite <- app_assoc. reflexivity.
Qed.

(** When the pattern compiles, the marking appends the offsets of the
    matches once per counted occurrence. *)
Lemma mark_title_keyword_spans (keyword : str) (spans : list (nat * nat))
  (e : Entry) :
  re.finditer keyword (lower (title e)) = Returned spans ->
  mark_title_keyword keyword e
  = (Returned tt,
     set_title_marks
       (title_marks e
        ++ List.concat (repeat (span_offsets spans)
                          (Z.to_nat (count (lower (title e)) keyword)))) e).
Proof.
  intros Hf. unfold mark_title_keyword.
  erewrite bind_run by reflexivity.
  apply (@keyword_rounds keyword (title e) spans Hf). reflexivity.
Qed.

Lemma in_range (a b : nat) (q : Z) :
  In q (range a b) <-> exists j, (a <= j < b)%nat /\ q = Z.of_nat j.
Proof.
  unfold range. rewrite in_map_iff. split.
  - intros (j & <- & Hj). apply in_seq in Hj. exists j. split; [lia | reflexivity].
  - intros (j & Hj & ->). exists j. split; [reflexivity | apply in_seq; lia].
Qed.

Lemma in_span_offsets (n : nat) (occ : list nat) (q : Z) :
  In q (span_offsets (map (fun p => (p, p + n)%nat) occ))
  <-> exists p d, In p occ /\ (d < n)%nat /\ q = Z.of_nat (p + d).
Proof.
  unfold span_offsets. rewrite in_concat. split.
  - intros (l & Hl & Hq). apply in_map_iff in Hl as (se & <- & Hse).
    apply in_map_iff in Hse as (p & <- & Hp). simpl in Hq.
    apply in_range in Hq as (j & Hj & ->).
    exists p, (j - p)%nat. repeat split; auto; try lia; f_equal; lia.
  - intros (p & d & Hp & Hd & ->). exists (range p (p + n)). split.
    + apply in_map_iff. exists (p, (p + n)%nat). split; [reflexivity |].
      apply in_map_iff. exists p. auto.
    + apply in_range. exists (p + d)%nat. split; [lia | reflexivity].
Qed.

Lemma in_concat_repeat (A : Type) (l : list A) (n : nat) (q : A) :
  In q (List.concat (repeat l n)) <-> (0 < n)%nat /\ In q l.
Proof.
  induction n as [| n IH]; simpl.
  - split; [contradiction | lia].
  - rewrite in_app_iff, IH. split; [intros [H | [_ H]]; split; auto; lia |].
    intros [_ H]. left. exact H.
Qed.

Lemma special_lower (c : ascii) : special (Char.lower c) = special c.
Proof.
  destruct c as [[] [] [] [] [] [] [] []]; reflexivity.
Qed.

Lemma plain_lower (x : str) : plain (lower x) = plain x.
Proof.
  unfold plain, lower. induction x as [| c x IH]; [reflexivity |].
  simpl. rewrite special_lower, IH. reflexivity.
Qed.

Lemma lower_length (x : str) : List.length (lower x) = List.length x.
Proof. apply length_map. Qed.

Lemma lower_nil (x : str) : lower x = [] -> x = [].
Proof. destruct x; [reflexivity | discriminate]. Qed.

(** What marking a plain keyword appends. *)
Lemma mark_title_keyword_block (keyword : str) (e : Entry) :
  plain keyword = true ->
  exists block,
    mark_title_keyword keyword e
    = (Returned tt, set_title_marks (title_marks e ++ block) e)
    /\ forall q,
         In q block
         <-> exists p d,
               In p (occurrences (lower (title e)) keyword)
               /\ (d < List.length keyword)%nat
               /\ q = Z.of_nat (p + d).
Proof.
  intros Hp. destruct keyword as [| a s'] eqn:Ek.
  - assert (Hf : exists spans,
               re.finditer [] (lower (title e)) = Returned spans
               /\ span_offsets spans = []).
    { unfold re.finditer. rewrite compile_plain by reflexivity. cbn [re.bind].
      eexists. split; [reflexivity |]. apply span_offsets_empty, scan_eps. }
    destruct Hf as (spans & Hf & He).
    eexists. split; [apply mark_title_keyword_spans; exact Hf |].
    intros q. rewrite in_concat_repeat, He. simpl. split.
    + intros [_ []].
    + intros (p & d & _ & Hd & _). lia.
  - rewrite <- Ek in *. assert (Hne : keyword <> []) by (subst; discriminate).
    pose proof (@finditer_plain keyword (lower (title e)) Hp Hne) as Hf.
    eexists. split; [apply mark_title_keyword_spans; exact Hf |].
    intros q. rewrite in_concat_repeat, in_span_offsets.
    rewrite count_occurrences by exact Hne. rewrite Nat2Z.id. split.
    + intros [_ H]. exact H.
    + intros (p & d & Hin & Hd & Hq). split; [| eauto].
      destruct (occurrences (lower (title e)) keyword); [contradiction |].
      simpl. lia.
Qed.

Lemma rate_keyword_plain (rate_abstract : bool) (kr : str * Z) (e : Entry) :
  plain (fst kr) = true ->
  exists block e',
    rate_keyword rate_abstract kr e = (Returned tt, e')
    /\ title_marks e' = title_marks e ++ block
    /\ bib e' = bib e
    /\ author_marks e' = author_marks e
    /\ forall q, In q block <-> keyword_offset (title e) [kr] q.
Proof.
  intros Hp.
  assert (Hpk : plain (lower (fst kr)) = true) by (rewrite plain_lower; exact Hp).
  destruct (mark_title_keyword_block (lower (fst kr)) e Hpk) as (block & Hm & Hb).
  assert (Hoff : forall q,
             keyword_offset (title e) [kr] q
             <-> exists p d,
                   In p (occurrences (lower (title e)) (lower (fst kr)))
                   /\ (d < List.length (lower (fst kr)))%nat
                   /\ q = Z.of_nat (p + d)).
  { intros q. unfold keyword_offset. rewrite lower_length. split.
    - intros (kr0 & p & d & [<- | []] & H). eauto.
    - intros (p & d & H). exists kr, p, d. simpl. tauto. }
  unfold rate_keyword. cbv zeta. erewrite bind_run by reflexivity.
  destruct (0 <? count (lower (title e)) (lower (fst kr))) eqn:Hc.
  - erewrite bind_run by (erewrite bind_run by exact Hm; reflexivity).
    exists block. destruct rate_abstract.
    + erewrite bind_run by reflexivity. eexists. split; [reflexivity |].
      simpl. split; [reflexivity |]. split; [reflexivity |].
      split; [reflexivity |]. intros q. rewrite Hoff. apply Hb.
    + eexists. split; [reflexivity |].
      simpl. split; [reflexivity |]. split; [reflexivity |].
      split; [reflexivity |]. intros q. rewrite Hoff. apply Hb.
  - assert (Hnone : occurrences (lower (title e)) (lower (fst kr)) = []).
    { apply Z.ltb_ge in Hc. destruct (lower (fst kr)) as [| a s'] eqn:Ek.
      - unfold count in Hc. lia.
      - rewrite count_occurrences in Hc by discriminate.
        destruct (occurrences _ _); [reflexivity | simpl in Hc; lia]. }
    erewrite bind_run by reflexivity.
    exists []. destruct rate_abstract.
    + erewrite bind_run by reflexivity. eexists. split; [reflexivity |].
      simpl. rewrite app_nil_r. split; [reflexivity |].
      split; [reflexivity |]. split; [reflexivity |].
      intros q. rewrite Hoff, Hnone. split; [contradiction |].
      intros (p & d & [] & _).
    + eexists. split; [reflexivity |].
      simpl. rewrite app_nil_r. split; [reflexivity |].
      split; [reflexivity |]. split; [reflexivity |].
      intros q. rewrite Hoff, Hnone. split; [contradiction |].
      intros (p & d & [] & _).
Qed.

Lemma keyword_offset_cons (t : str) (kr : str * Z) (krs : ratings) (q : Z) :
  keyword_offset t (kr :: krs) q
  <-> keyword_offset t [kr] q \/ keyword_offset t krs q.
Proof.
  unfold keyword_offset. split.
  - intros (kr0 & p & d & [<- | Hin] & H).
    + left. exists kr, p, d. simpl. tauto.
    + right. exists kr0, p, d. tauto.
  - intros [(kr0 & p & d & [<- | []] & H) | (kr0 & p & d & Hin & H)].
    + exists kr, p, d. simpl. tauto.
    + exists kr0, p, d. simpl. tauto.
Qed.

Lemma keywords_plain (rate_abstract : bool) (keyword_ratings : ratings) :
  forallb (fun kr => plain (fst kr)) keyword_ratings = true ->
  forall e,
  exists extra e',
    for_each keyword_ratings (rate_keyword rate_abstract) e = (Returned tt, e')
    /\ title_marks e' = title_marks e ++ extra
    /\ bib e' = bib e
    /\ author_marks e' = author_marks e
    /\ forall q, In q extra <-> keyword_offset (title e) keyword_ratings q.
Proof.
  induction keyword_ratings as [| kr krs IH]; intros Hp e.
  - exists [], e. simpl. rewrite app_nil_r.
    split; [reflexivity |]. split; [reflexivity |]. split; [reflexivity |].
    split; [reflexivity |]. intros q. split; [contradiction |].
    intros (kr & p & d & [] & _).
  - simpl in Hp. apply Bool.andb_true_iff in Hp as [Hk Hp].
    destruct (rate_keyword_plain rate_abstract kr e Hk)
      as (block & e1 & H1 & T1 & B1 & A1 & Q1).
    destruct (IH Hp e1) as (extra & e' & H2 & T2 & B2 & A2 & Q2).
    exists (block ++ extra), e'. simpl.
    erewrite bind_run by exact H1.
    assert (Et : title e1 = title e) by (unfold bib in B1; congruence).
    rewrite Et in Q2.
    split; [exact H2 |].
    split; [rewrite T2, T1, app_assoc; reflexivity |].
    split; [congruence |]. split; [congruence |].
    intros q.
    rewrite in_app_iff, Q1, Q2, (keyword_offset_cons (title e) kr krs q). tauto.
Qed.

(** ** Plain author fragments *)

Lemma search_plain (fragment name : str) :
  plain fragment = true ->
  re.search_ignorecase (word_pattern fragment) name
  = Returned (matched fragment name).
Proof.
  intros Hp. unfold matched, re.search_ignorecase.
  rewrite compile_word_pattern by exact Hp. reflexivity.
Qed.

Lemma in_enumerate (A : Type) (xs : list A) (ia : Z * A) :
  In ia (enumerate xs) ->
  exists i, fst ia = Z.of_nat i /\ (i < List.length xs)%nat.
Proof.
  unfold enumerate. destruct ia as [z a]. intros H. apply in_combine_l in H.
  simpl.
  apply in_map_iff in H as (i & <- & Hi). apply in_seq in Hi.
  exists i. split; [reflexivity | lia].
Qed.

Lemma safe_rate_author (names : list str) (marks : list Z) (ar : str * Z) :
  plain (fst ar) = true -> safe (shaped names marks) (rate_author ar).
Proof.
  intros Hp e (Ha & Hl & Ht). unfold rate_author.
  erewrite bind_run by reflexivity. rewrite Ha.
  apply safe_for_each; [| repeat split; assumption].
  intros ia Hin e1 (Ha1 & Hl1 & Ht1). unfold rate_author_name.
  rewrite search_plain by exact Hp.
  erewrite bind_run by reflexivity.
  destruct (matched (fst ar) (snd ia)).
  - apply in_enumerate in Hin as (i & Hi & Hlt). rewrite Hi.
    unfold bind, mark_author. rewrite setitem_of_nat.
    replace (Nat.ltb i (List.length (author_marks e1))) with true
      by (symmetry; apply Nat.ltb_lt; lia).
    simpl. exists tt. split; [reflexivity |].
    unfold shaped. simpl. rewrite replace_nth_length. auto.
  - exists tt. simpl. repeat split; auto.
Qed.

(** ** Matches lie in the subject *)

Section Bounds.

Variable ic : bool.
Variable x : str.

Lemma iterate_forward (body : nat -> (nat -> option nat) -> option nat) :
  forward x body -> forall fuel, forward x (re.iterate body fuel).
Proof.
  intros Hb. induction fuel as [| fuel IH]; intros i k e H Hi.
  - exists i. split; [lia | exact H].
  - cbn [re.iterate] in H.
    destruct (body i _) as [e0 |] eqn:E.
    + injection H as ->. destruct (Hb _ _ _ E Hi) as (j1 & Hj1 & E1).
      destruct (Nat.ltb_spec i j1) as [Hlt | _]; [| discriminate].
      assert (Hj1' : (j1 <= List.length x)%nat) by lia.
      destruct (IH _ _ _ E1 Hj1') as (j & Hj & E2).
      exists j. split; [lia | exact E2].
    + exists i. split; [lia | exact H].
Qed.

Lemma run_forward (r : re.regex) : forward x (re.run ic x r).
Proof.
  induction r as [| c | | | a IHa b IHb | a IHa b IHb | a IHa | a IHa | a IHa];
    intros i k e H Hi; cbn [re.run] in H.
  - exists i. split; [lia | exact H].
  - destruct (nth_error x i) as [d |] eqn:E; [| discriminate].
    assert (i < List.length x)%nat by (apply nth_error_Some; congruence).
    destruct (re.same ic c d); [| discriminate].
    exists (S i). split; [lia | exact H].
  - destruct (nth_error x i) as [d |] eqn:E; [| discriminate].
    assert (i < List.length x)%nat by (apply nth_error_Some; congruence).
    destruct (Nat.eqb (Char.code d) 10); [discriminate |].
    exists (S i). split; [lia | exact H].
  - destruct (re.at_boundary x i); [| discriminate].
    exists i. split; [lia | exact H].
  - destruct (IHa _ _ _ H Hi) as (j1 & Hj1 & H1).
    assert (Hj1' : (j1 <= List.length x)%nat) by lia.
    destruct (IHb _ _ _ H1 Hj1') as (j & Hj & H2).
    exists j. split; [lia | exact H2].
  - destruct (re.run ic x a i k) as [e0 |] eqn:E.
    + injection H as ->. exact (IHa _ _ _ E Hi).
    + exact (IHb _ _ _ H Hi).
  - exact (iterate_forward _ IHa _ _ _ _ H Hi).
  - destruct (IHa _ _ _ H Hi) as (j1 & Hj1 & H1).
    assert (Hj1' : (j1 <= List.length x)%nat) by lia.
    destruct (iterate_forward _ IHa _ _ _ _ H1 Hj1') as (j & Hj & H2).
    exists j. split; [lia | exact H2].
  - destruct (re.run ic x a i k) as [e0 |] eqn:E.
    + injection H as ->. exact (IHa _ _ _ E Hi).
    + exists i. split; [lia | exact H].
Qed.

Lemma search_from_in (r : re.regex) (m : nat) :
  forall i ma b e,
    re.search_from ic x r m i ma = Some (b, e) ->
    (i + m <= S (List.length x))%nat ->
    (i <= b)%nat /\ span_in x (b, e).
Proof.
  induction m as [| m IH]; intros i ma b e H Hi; [discriminate |].
  cbn [re.search_from] in H.
  destruct (re.run ic x r i _) as [e0 |] eqn:E.
  - injection H as <- <-.
    assert (Hi' : (i <= List.length x)%nat) by lia.
    destruct (run_forward r _ _ _ E Hi') as (j & Hj & E1).
    destruct (ma && Nat.eqb j i)%bool; [discriminate |].
    injection E1 as <-. unfold span_in. simpl. lia.
  - assert (Hi' : (S i + m <= S (List.length x))%nat) by lia.
    destruct (IH _ _ _ _ H Hi') as (Hb & Hs).
    unfold span_in in *. simpl in *. lia.
Qed.

Lemma scan_in (r : re.regex) (fuel : nat) :
  forall i ma, Forall (span_in x) (re.scan ic x r fuel i ma).
Proof.
  induction fuel as [| fuel IH]; intros i ma; [constructor |].
  cbn [re.scan]. unfold re.search_at.
  destruct (re.search_from ic x r _ i ma) as [[b e] |] eqn:E; [| constructor].
  constructor; [| apply IH].
  destruct (Nat.le_gt_cases i (S (List.length x))) as [Hi | Hi].
  - assert (Hi' : (i + (S (List.length x) - i) <= S (List.length x))%nat)
      by lia.
    exact (proj2 (search_from_in r _ _ _ _ _ E Hi')).
  - replace (S (List.length x) - i)%nat with O in E by lia. discriminate.
Qed.

End Bounds.

Lemma finditer_in (pattern x : str) (spans : list (nat * nat)) :
  re.finditer pattern x = Returned spans -> Forall (span_in x) spans.
Proof.
  unfold re.finditer. destruct (re.compile pattern) as [r | |];
    try discriminate.
  cbn [re.bind]. intros H. injection H as <-. apply scan_in.
Qed.

Lemma span_offsets_in (x : str) (spans : list (nat * nat)) :
  Forall (span_in x) spans ->
  Forall (fun q => 0 <= q < Z.of_nat (List.length x)) (span_offsets spans).
Proof.
  unfold span_offsets. induction 1 as [| se l Hse _ IH]; [constructor |].
  simpl. apply Forall_app. split; [| exact IH].
  apply Forall_forall. intros q Hq. apply in_range in Hq as (j & Hj & ->).
  unfold span_in in Hse. lia.
Qed.

(** ** Title marks are offsets into the lowered title *)

Lemma marks_in_title_refl (e : Entry) : marks_in_title e e.
Proof.
  split; [reflexivity |]. exists []. rewrite app_nil_r. auto.
Qed.

Lemma marks_in_title_trans (a b c : Entry) :
  marks_in_title a b -> marks_in_title b c -> marks_in_title a c.
Proof.
  intros (T1 & x1 & M1 & F1) (T2 & x2 & M2 & F2). split; [congruence |].
  exists (x1 ++ x2). split.
  - rewrite M2, M1, app_assoc. reflexivity.
  - apply Forall_app. split; [exact F1 |]. rewrite T1 in F2. exact F2.
Qed.

Lemma marks_in_title_other (e e' : Entry) :
  title e' = title e -> title_marks e' = title_marks e -> marks_in_title e e'.
Proof.
  intros T M. split; [exact T |]. exists []. rewrite app_nil_r. auto.
Qed.

Lemma marks_in_title_grows_same (A : Type) (m : method A) :
  (forall e, title (snd (m e)) = title e
             /\ title_marks (snd (m e)) = title_marks e) ->
  always marks_in_title m.
Proof.
  intros H e. destruct (H e). apply marks_in_title_other; assumption.
Qed.

Lemma marks_in_title_add_rating (v : Z) :
  always marks_in_title (add_rating v).
Proof. apply marks_in_title_grows_same. intros e. simpl. auto. Qed.

Lemma marks_in_title_mark_author (number : Z) :
  always marks_in_title (mark_author number).
Proof.
  apply marks_in_title_grows_same. intros e. unfold mark_author.
  destruct (setitem _ _ _); simpl; auto.
Qed.

Section MarksInTitle.

Variable finditer : str -> str -> outcome (list (nat * nat)).
Variable search_ignorecase : str -> str -> outcome bool.

(** What is assumed of the library: a match lies in the string that was
    searched. *)
Hypothesis finditer_in_string :
  forall (pattern string : str) (spans : list (nat * nat)),
    finditer pattern string = Returned spans -> Forall (span_in string) spans.

(** One round of the marking loop. *)
Lemma marks_in_title_round (keyword : str) :
  always marks_in_title
    (lowered <- get (fun self => lower (title self)) ;;
     starts <- lift (finditer keyword lowered) ;;
     lowered' <- get (fun self => lower (title self)) ;;
     ends <- lift (finditer keyword lowered') ;;
     for_each (combine (map fst starts) (map snd ends)) (fun se =>
       for_each (range (fst se) (snd se)) (fun pos =>
         mark_title_position pos))).
Proof.
  intros e. erewrite bind_run by reflexivity. cbn beta.
  destruct (finditer keyword (lower (title e))) as [spans | x |] eqn:Hf.
  - erewrite bind_run by reflexivity.
    erewrite bind_run by reflexivity. cbn beta. rewrite Hf.
    erewrite bind_run by reflexivity.
    rewrite combine_fst_snd, for_each_spans. simpl.
    split; [reflexivity |]. eexists. split; [reflexivity |].
    apply span_offsets_in, (finditer_in_string keyword), Hf.
  - apply marks_in_title_refl.
  - apply marks_in_title_refl.
Qed.

Lemma marks_in_title_keyword (keyword : str) :
  always marks_in_title (AnyRe.mark_title_keyword finditer keyword).
Proof.
  pose proof marks_in_title_refl as R. pose proof marks_in_title_trans as T.
  unfold AnyRe.mark_title_keyword.
  apply always_bind; auto using always_get. intros counts.
  apply always_for_each; auto. intros _. apply marks_in_title_round.
Qed.

Lemma marks_in_title_evaluate (keyword_ratings author_ratings : ratings)
  (rate_abstract : bool) :
  always marks_in_title
    (AnyRe.evaluate finditer search_ignorecase keyword_ratings author_ratings
                    rate_abstract).
Proof.
  pose proof marks_in_title_refl as R. pose proof marks_in_title_trans as T.
  unfold AnyRe.evaluate.
  apply always_bind; auto;
    try (apply marks_in_title_grows_same; intros e; simpl; auto; fail).
  intros _. apply always_bind; auto.
  { apply always_for_each; auto. intros kr. unfold AnyRe.rate_keyword.
    apply always_bind; auto using always_get. intros counts.
    apply always_bind; auto.
    - apply always_if; [| apply always_ret; auto].
      apply always_bind; auto using marks_in_title_keyword,
        marks_in_title_add_rating.
    - intros _. apply always_if; [| apply always_ret; auto].
      apply always_bind; auto using always_get, marks_in_title_add_rating. }
  intros _. apply always_bind; auto using always_get.
  apply always_for_each; auto. intros ar. unfold AnyRe.rate_author.
  apply always_bind; auto using always_get. intros names.
  apply always_for_each; auto. intros ia. unfold AnyRe.rate_author_name.
  apply always_bind; auto using always_lift. intros found.
  apply always_if; [| apply always_ret; auto].
  apply always_bind; auto using marks_in_title_mark_author,
    marks_in_title_add_rating.
Qed.

End MarksInTitle.

(** ** Patterns that are not used *)

Lemma authors_loop_no_authors (author_ratings : ratings) :
  forall e, authors e = [] ->
            for_each author_ratings rate_author e = (Returned tt, e).
Proof.
  induction author_ratings as [| ar ars IH]; intros e He; [reflexivity |].
  simpl. unfold rate_author at 1. erewrite bind_run.
  2:{ erewrite bind_run by reflexivity. rewrite He. reflexivity. }
  apply IH, He.
Qed.

Lemma rate_keyword_absent (rate_abstract : bool) (kr : str * Z) (e : Entry) :
  count (lower (title e)) (lower (fst kr)) = 0 ->
  rate_keyword rate_abstract kr e
  = (Returned tt,
     set_rating (rating e
                 + (if rate_abstract
                    then count (lower (abstract e)) (lower (fst kr)) * snd kr
                    else 0)) e).
Proof.
  intros Hc. unfold rate_keyword. cbv zeta.
  erewrite bind_run by reflexivity. rewrite Hc. cbn [Z.ltb Z.compare].
  erewrite bind_run by reflexivity.
  destruct rate_abstract.
  - erewrite bind_run by reflexivity. reflexivity.
  - simpl. rewrite Z.add_0_r. destruct e; reflexivity.
Qed.

Lemma for_each_cons (S A : Type) (x : A) (xs : list A)
  (body : A -> St S unit) (st : S) :
  for_each (x :: xs) body st
  = match body x st with
    | (Returned _, st') => for_each xs body st'
    | (Raised e, st') => (Raised e, st')
    | (Unmodelled, st') => (Unmodelled, st')
    end.
Proof. reflexivity. Qed.

(** ** The batch *)

Section Batch.

Variables keyword_ratings author_ratings : ratings.
Variable rate_abstract : bool.

Let ev := evaluate keyword_ratings author_ratings rate_abstract.
Let body (entry : ref) : St heap unit := on entry ev ;; ret tt.

Lemma batch_step (r : ref) (h : heap) :
  body r h = (void (fst (ev (h r))), upd h r (snd (ev (h r)))).
Proof.
  unfold body, bind, on. destruct (ev (h r)) as [[v | x |] e]; reflexivity.
Qed.

Lemma upd_same (h : heap) (r : ref) (e : Entry) : upd h r e r = e.
Proof. unfold upd. rewrite Nat.eqb_refl. reflexivity. Qed.

Lemma upd_other (h : heap) (r r' : ref) (e : Entry) :
  r' <> r -> upd h r e r' = h r'.
Proof.
  intros H. unfold upd. destruct (Nat.eqb_spec r' r); [contradiction | reflexivity].
Qed.

Lemma batch_frame (entries : list ref) :
  forall (h : heap) (r : ref),
    ~ In r entries -> snd (for_each entries body h) r = h r.
Proof.
  induction entries as [| x xs IH]; intros h r Hr; [reflexivity |].
  rewrite for_each_cons, batch_step.
  assert (Hx : r <> x) by (intros ->; apply Hr; left; reflexivity).
  assert (Hxs : ~ In r xs) by (intros H; apply Hr; right; exact H).
  destruct (void (fst (ev (h x)))); simpl.
  - rewrite IH by exact Hxs. apply upd_other, Hx.
  - apply upd_other, Hx.
  - apply upd_other, Hx.
Qed.

Lemma batch_all (entries : list ref) :
  NoDup entries ->
  forall h : heap,
    (forall r, In r entries -> returned (fst (ev (h r)))) ->
    fst (for_each entries body h) = Returned tt
    /\ forall r, In r entries ->
                 snd (for_each entries body h) r = snd (ev (h r)).
Proof.
  induction 1 as [| x xs Hx Hnd IH]; intros h Hret.
  - split; [reflexivity | contradiction].
  - rewrite for_each_cons, batch_step.
    destruct (Hret x (or_introl eq_refl)) as (v & Hv). rewrite Hv.
    cbn [void].
    set (h1 := upd h x (snd (ev (h x)))).
    assert (Hsame : forall r, In r xs -> h1 r = h r).
    { intros r Hr. apply upd_other. intros ->. contradiction. }
    destruct (IH h1) as (Ho & Hs).
    { intros r Hr. rewrite Hsame by exact Hr. apply Hret. right. exact Hr. }
    split; [exact Ho |]. intros r [<- | Hr].
    + rewrite batch_frame by exact Hx. apply upd_same.
    + rewrite Hs, Hsame by exact Hr. reflexivity.
Qed.

Lemma batch_stops (pre : list ref) (x : ref) (post : list ref) :
  NoDup (pre ++ [x]) ->
  forall h : heap,
    (forall r, In r pre -> returned (fst (ev (h r)))) ->
    ~ returned (fst (ev (h x))) ->
    fst (for_each (pre ++ x :: post) body h) = void (fst (ev (h x)))
    /\ (forall r, In r pre ->
                  snd (for_each (pre ++ x :: post) body h) r = snd (ev (h r)))
    /\ snd (for_each (pre ++ x :: post) body h) x = snd (ev (h x))
    /\ (forall r, ~ In r (pre ++ [x]) ->
                  snd (for_each (pre ++ x :: post) body h) r = h r).
Proof.
  induction pre as [| y pre IH]; intros Hnd h Hret Hx.
  - cbn [app]. rewrite for_each_cons, batch_step.
    assert (Hv : void (fst (ev (h x))) <> Returned tt).
    { intros H. apply Hx. destruct (fst (ev (h x))) as [v | |];
        [exists v; reflexivity | discriminate | discriminate]. }
    destruct (void (fst (ev (h x)))) as [[] | e |] eqn:E;
      [contradiction | |]; simpl.
    + split; [reflexivity |]. split; [contradiction |].
      split; [apply upd_same |]. intros r Hr. apply upd_other.
      intros ->. apply Hr. left. reflexivity.
    + split; [reflexivity |]. split; [contradiction |].
      split; [apply upd_same |]. intros r Hr. apply upd_other.
      intros ->. apply Hr. left. reflexivity.
  - cbn [app]. rewrite for_each_cons, batch_step.
    destruct (Hret y (or_introl eq_refl)) as (v & Hv). rewrite Hv.
    cbn [void].
    set (h1 := upd h y (snd (ev (h y)))).
    simpl in Hnd. apply NoDup_cons_iff in Hnd as [Hy Hnd].
    assert (Hsame : forall r, In r (pre ++ [x]) -> h1 r = h r).
    { intros r Hr. apply upd_other. intros ->. contradiction. }
    destruct (IH Hnd h1) as (Ho & Hp & Hxx & Hf).
    { intros r Hr. rewrite Hsame by (apply in_or_app; left; exact Hr).
      apply Hret. right. exact Hr. }
    { rewrite Hsame by (apply in_or_app; right; left; reflexivity). exact Hx. }
    rewrite Hsame in Ho, Hxx by (apply in_or_app; right; left; reflexivity).
    split; [exact Ho |]. split; [| split; [exact Hxx |]].
    + intros r [<- | Hr].
      * rewrite Hf by exact Hy. apply upd_same.
      * rewrite Hp, Hsame by (try apply in_or_app; auto). reflexivity.
    + intros r Hr. rewrite Hf by (intros H; apply Hr; right; exact H).
      apply upd_other. intros ->. apply Hr. left. reflexivity.
Qed.

End Batch.

(** ** More on the ranking *)

Lemma StronglySorted_app_inv (A : Type) (R : A -> A -> Prop) (l1 l2 : list A) :
  StronglySorted R (l1 ++ l2) ->
  StronglySorted R l1 /\ StronglySorted R l2
  /\ forall a b, In a l1 -> In b l2 -> R a b.
Proof.
  induction l1 as [| x l1 IH]; simpl; intros H.
  - split; [constructor |]. split; [exact H |]. contradiction.
  - inversion H as [| ? ? Hs Hx]; subst.
    destruct (IH Hs) as (S1 & S2 & Hab).
    rewrite Forall_app in Hx. destruct Hx as [Hx1 Hx2].
    split; [constructor; assumption |]. split; [exact S2 |].
    intros a b [<- | Ha] Hb.
    + rewrite Forall_forall in Hx2. apply Hx2, Hb.
    + apply Hab; assumption.
Qed.

Lemma stable_sort_sorted_same (A : Type) (l : list (Z * A)) :
  StronglySorted key_le l -> stable_sort l = l.
Proof.
  induction 1 as [| x l Hs IH Hx]; [reflexivity |].
  simpl. rewrite IH. destruct l as [| y l]; [reflexivity |].
  simpl. inversion Hx as [| ? ? Hxy _]; subst. unfold key_le in Hxy.
  destruct (Z.leb_spec (fst x) (fst y)); [reflexivity | lia].
Qed.

Lemma keyed_sorted (h : heap) (l : list ref) :
  ascending h l ->
  StronglySorted key_le (map (fun r => (rating (h r), r)) l).
Proof.
  unfold ascending. induction 1 as [| x l Hs IH Hx]; simpl; constructor.
  - exact IH.
  - apply Forall_map. eapply Forall_impl; [| exact Hx].
    intros y Hy. exact Hy.
Qed.

Lemma descending_rev (h : heap) (l : list ref) :
  descending h l -> ascending h (rev l).
Proof.
  unfold descending, ascending. intros H.
  apply StronglySorted_rev in H. exact H.
Qed.

(** Ranking a list that is in order gives it back. *)
Lemma ranked_in_order (h : heap) (l : list ref) (reverse : bool) :
  (if reverse then descending h l else ascending h l) ->
  ranked h l reverse = l.
Proof.
  intros H. unfold ranked. cbv zeta. rewrite combine_ratings.
  destruct reverse.
  - rewrite <- map_rev.
    rewrite stable_sort_sorted_same by (apply keyed_sorted, descending_rev, H).
    rewrite <- map_rev, rev_involutive. apply map_snd_keyed.
  - rewrite stable_sort_sorted_same by (apply keyed_sorted, H).
    apply map_snd_keyed.
Qed.

Lemma passing_all (h : heap) (rating_min : Z) (l : list ref) :
  (forall r, In r l -> rating_min <= rating (h r)) ->
  passing h rating_min l = l.
Proof.
  unfold passing. induction l as [| x l IH]; intros H; [reflexivity |].
  simpl. replace (rating_min <=? rating (h x)) with true
    by (symmetry; apply Z.leb_le, H; left; reflexivity).
  rewrite IH; [reflexivity |]. intros r Hr. apply H. right. exact Hr.
Qed.

Lemma in_passing (h : heap) (rating_min : Z) (l : list ref) (r : ref) :
  In r (passing h rating_min l) <-> In r l /\ rating_min <= rating (h r).
Proof. unfold passing. rewrite filter_In, Z.leb_le. reflexivity. Qed.

Lemma sort_entries_sorted_entries (entries : list ref) (rating_min : Z)
  (reverse : bool) (length : option Z) (h : heap) :
  sort_entries entries rating_min reverse length h
  = (Returned (sorted_entries h entries rating_min reverse length), h).
Proof. apply sort_entries_run. Qed.

(** The whole ranking and the part of it that is cut off. *)
Lemma sorted_entries_split (h : heap) (entries : list ref) (rating_min : Z)
  (reverse : bool) (length : option Z) :
  exists dropped,
    sorted_entries h entries rating_min reverse length ++ dropped
    = ranked h (passing h rating_min entries) (negb reverse).
Proof.
  unfold sorted_entries. cbv zeta.
  destruct length as [n |]; [destruct (n <? 0) |].
  - exists []. apply app_nil_r.
  - exists (skipn (Z.to_nat n)
              (ranked h (passing h rating_min entries) (negb reverse))).
    apply firstn_skipn.
  - exists []. apply app_nil_r.
Qed.

Lemma ranked_in_order_spec (h : heap) (xs : list ref) (reverse : bool) :
  StronglySorted (in_order h reverse) (ranked h xs (negb reverse)).
Proof.
  destruct (ranked_spec h xs (negb reverse)) as (_ & Hs & _).
  destruct reverse; exact Hs.
Qed.

(** ** The order of the tables *)

Lemma same_texts_refl (e : Entry) : same_texts e e.
Proof. repeat split. Qed.

Lemma same_texts_sym (a b : Entry) : same_texts a b -> same_texts b a.
Proof. intros (T & A & U & L). repeat split; congruence. Qed.

Lemma same_texts_trans (a b c : Entry) :
  same_texts a b -> same_texts b c -> same_texts a c.
Proof.
  intros (T1 & A1 & U1 & L1) (T2 & A2 & U2 & L2). repeat split; congruence.
Qed.

Lemma grows_same_texts (e e' : Entry) : grows e e' -> same_texts e e'.
Proof.
  intros [B L _ _]. unfold bib in B. repeat split; congruence.
Qed.

Lemma same_texts_modify (f : Entry -> Entry) :
  (forall e, same_texts e (f e)) -> respects same_texts (modify f).
Proof.
  intros Hf e1 e2 H. simpl. split; [reflexivity |].
  eapply same_texts_trans; [apply same_texts_sym, Hf |].
  eapply same_texts_trans; [exact H | apply Hf].
Qed.

Lemma same_texts_mark_title_position (position : Z) :
  respects same_texts (mark_title_position position).
Proof. apply same_texts_modify. intros e. repeat split. Qed.

Lemma same_texts_add_rating (v : Z) : respects same_texts (add_rating v).
Proof. apply same_texts_modify. intros e. repeat split. Qed.

Lemma same_texts_mark_author (number : Z) :
  respects same_texts (mark_author number).
Proof.
  intros e1 e2 (T & A & U & L). unfold mark_author, setitem. rewrite L.
  destruct (_ || _)%bool; simpl.
  - split; [reflexivity | repeat split; assumption].
  - split; [reflexivity |]. repeat split; simpl; auto.
    rewrite !replace_nth_length. exact L.
Qed.

Lemma same_texts_mark_title_keyword (keyword : str) :
  respects same_texts (mark_title_keyword keyword).
Proof.
  unfold mark_title_keyword.
  apply respects_bind.
  { apply respects_get. intros e1 e2 (T & _). rewrite T. reflexivity. }
  intros counts. apply respects_for_each. intros _.
  apply respects_bind.
  { apply respects_get. intros e1 e2 (T & _). rewrite T. reflexivity. }
  intros lowered. apply respects_bind; [apply respects_lift |]. intros starts.
  apply respects_bind.
  { apply respects_get. intros e1 e2 (T & _). rewrite T. reflexivity. }
  intros lowered'. apply respects_bind; [apply respects_lift |]. intros ends.
  apply respects_for_each. intros se. apply respects_for_each. intros pos.
  apply same_texts_mark_title_position.
Qed.

Lemma same_texts_rate_keyword (rate_abstract : bool) (kr : str * Z) :
  respects same_texts (rate_keyword rate_abstract kr).
Proof.
  unfold rate_keyword.
  apply respects_bind.
  { apply respects_get. intros e1 e2 (T & _). rewrite T. reflexivity. }
  intros counts. apply respects_bind.
  { apply respects_if; [| apply respects_ret].
    apply respects_bind; [apply same_texts_mark_title_keyword |].
    intros _. apply same_texts_add_rating. }
  intros _. apply respects_if; [| apply respects_ret].
  apply respects_bind.
  { apply respects_get. intros e1 e2 (_ & A & _). rewrite A. reflexivity. }
  intros n. apply same_texts_add_rating.
Qed.

Lemma same_texts_rate_author (ar : str * Z) :
  respects same_texts (rate_author ar).
Proof.
  unfold rate_author, rate_author_name.
  apply respects_bind.
  { apply respects_get. intros e1 e2 (_ & _ & U & _). exact U. }
  intros names. apply respects_for_each. intros ia.
  apply respects_bind; [apply respects_lift |]. intros found.
  apply respects_if; [| apply respects_ret].
  apply respects_bind; [apply same_texts_mark_author |].
  intros _. apply same_texts_add_rating.
Qed.

(** A loop whose steps read the texts only returns exactly when each
    step returns from the state the loop starts in. *)
Lemma for_each_returns (A : Type) (step : A -> method unit) :
  (forall x, respects same_texts (step x)) ->
  (forall x, always grows (step x)) ->
  forall (l : list A) (e : Entry),
    fst (for_each l step e) = Returned tt
    <-> forall x, In x l -> fst (step x e) = Returned tt.
Proof.
  intros Hr Hg. induction l as [| x l IH]; intros e.
  - simpl. split; [contradiction | reflexivity].
  - rewrite for_each_cons.
    pose proof (Hg x e) as G. apply grows_same_texts in G.
    destruct (step x e) as [[[] | ex |] e1] eqn:E; simpl in G.
    + rewrite IH. split.
      * intros H y [<- | Hy]; [rewrite E; reflexivity |].
        rewrite (proj1 (Hr y e e1 G)). apply H, Hy.
      * intros H y Hy. rewrite <- (proj1 (Hr y e e1 G)). apply H. right. exact Hy.
    + simpl. split; [discriminate |]. intros H.
      specialize (H x (or_introl eq_refl)). rewrite E in H. exact H.
    + simpl. split; [discriminate |]. intros H.
      specialize (H x (or_introl eq_refl)). rewrite E in H. exact H.
Qed.

Lemma for_each_returns_perm (A : Type) (step : A -> method unit) :
  (forall x, respects same_texts (step x)) ->
  (forall x, always grows (step x)) ->
  forall (l l' : list A) (e e' : Entry),
    Permutation l l' -> same_texts e e' ->
    fst (for_each l step e) = Returned tt ->
    fst (for_each l' step e') = Returned tt.
Proof.
  intros Hr Hg l l' e e' Hp Hs H.
  rewrite (for_each_returns A step Hr Hg) in *.
  intros x Hx. rewrite <- (proj1 (Hr x e e' Hs)). apply H.
  eapply Permutation_in; [apply Permutation_sym, Hp | exact Hx].
Qed.

Lemma sumZ_perm (l l' : list Z) : Permutation l l' -> sumZ l = sumZ l'.
Proof.
  induction 1; simpl; lia.
Qed.

Lemma keyword_score_perm (t a : str) (rate_abstract : bool)
  (l l' : ratings) :
  Permutation l l' ->
  keyword_score t a rate_abstract l = keyword_score t a rate_abstract l'.
Proof.
  intros H. unfold keyword_score. apply sumZ_perm, Permutation_map, H.
Qed.

Lemma author_score_perm (hit : str -> str -> bool) (names : list str)
  (l l' : ratings) :
  Permutation l l' -> author_score hit names l = author_score hit names l'.
Proof.
  intros H. unfold author_score. apply sumZ_perm, Permutation_map, H.
Qed.

Lemma hit_at_perm (hit : str -> str -> bool) (names : list str)
  (l l' : ratings) (i : nat) :
  Permutation l l' -> hit_at hit names l i = hit_at hit names l' i.
Proof.
  intros H. unfold hit_at. destruct (nth_error names i) as [a |]; [| reflexivity].
  induction H; simpl; try congruence.
  destruct (hit (fst x) a), (hit (fst y) a); reflexivity.
Qed.

(** ** The authors line *)

Lemma getitem_of_nat (A : Type) (l : list A) (i : nat) :
  getitem l (Z.of_nat i) = nth_error l i.
Proof.
  unfold getitem. cbv zeta.
  assert (E : (Z.of_nat i <? 0) = false) by (apply Z.ltb_ge; lia).
  rewrite E. cbv iota. rewrite E, Nat2Z.id. simpl.
  destruct (Z.leb_spec (Z.of_nat (List.length l)) (Z.of_nat i)) as [H | H];
    [| reflexivity].
  symmetry. apply nth_error_None. lia.
Qed.

Section Authors.

Variable colored : str -> option str -> list str -> str.
Variable marks : list bool.

Lemma author_pieces_shown (names : list str) :
  forall (k : nat) (len : Z) (acc : list str),
    (k + List.length names <= List.length marks)%nat ->
    len <= 90 ->
    exists j,
      (j <= List.length names)%nat
      /\ author_pieces colored marks
           (combine (map Z.of_nat (seq k (List.length names))) names) len acc
         = Returned (acc ++ shown colored (skipn k marks) names j)
      /\ len + total_length (firstn j names) <= 90
      /\ ((j < List.length names)%nat ->
          90 < len + total_length (firstn (S j) names)).
Proof.
  induction names as [| a rest IH]; intros k len acc Hk Hlen.
  - exists O. simpl. unfold shown, total_length. simpl.
    rewrite app_nil_r. repeat split; auto; lia.
  - cbn [List.length seq map combine author_pieces].
    destruct (Z.ltb_spec 90 (len + Z.of_nat (List.length a))) as [Hbig | Hfit].
    + exists O. unfold shown, total_length. simpl.
      repeat split; auto; try lia.
    + rewrite getitem_of_nat.
      destruct (nth_error marks k) as [m |] eqn:Em;
        [| apply nth_error_None in Em; simpl in Hk; lia].
      destruct (IH (S k) (len + Z.of_nat (List.length a))
                   (acc ++ [painted colored m a]))
        as (j & Hj & Hrun & Hsum & Hnext); [simpl in Hk; lia | lia |].
      exists (S j). split; [simpl; lia |]. split; [| split].
      * unfold painted in Hrun at 1. rewrite Hrun. f_equal.
        rewrite <- app_assoc. f_equal. unfold shown.
        rewrite (skipn_nth_error marks k), Em. simpl.
        destruct (Nat.ltb j (List.length rest)) eqn:E1;
          destruct (Nat.ltb (S j) (S (List.length rest))) eqn:E2;
          try reflexivity;
          apply Nat.ltb_lt in E1 || apply Nat.ltb_ge in E1;
          apply Nat.ltb_lt in E2 || apply Nat.ltb_ge in E2; lia.
      * unfold total_length in *. simpl. lia.
      * intros Hlt. unfold total_length in *. simpl in *.
        assert (j < List.length rest)%nat by lia.
        specialize (Hnext H). lia.
Qed.

End Authors.

(** ** The title lines *)

Lemma join_snoc (sep : str) (l : list str) (x : str) :
  join sep (l ++ [x])
  = match l with
    | [] => x
    | _ :: _ => join sep l ++ sep ++ x
    end.
Proof.
  induction l as [| y l IH]; [reflexivity |].
  cbn [app]. cbn [join]. destruct l as [| z l].
  - reflexivity.
  - cbn [app] in *. rewrite IH. rewrite <- !app_assoc. reflexivity.
Qed.

Lemma join_nil_snoc (l : list str) (x : str) :
  join [] (l ++ [x]) = join [] l ++ x.
Proof.
  rewrite join_snoc. destruct l; [reflexivity |]. reflexivity.
Qed.

Lemma map_snd_enumerate (A : Type) (xs : list A) : map snd (enumerate xs) = xs.
Proof.
  unfold enumerate. generalize 0%nat.
  induction xs as [| x xs IH]; intros k; [reflexivity |].
  simpl. rewrite IH. reflexivity.
Qed.

Section Title.

Variable colored : str -> option str -> list str -> str.

Lemma glued_break (finished : list (list str)) (current : list str) :
  glued ((finished ++ [current]) ++ [[]])
  = glued (finished ++ [current]) ++ lit " ".
Proof.
  unfold glued. rewrite map_app. cbn [map]. rewrite (join_snoc (lit " ")).
  destruct (map (join []) (finished ++ [current])) eqn:E.
  - apply map_eq_nil in E. destruct finished; discriminate.
  - cbn [join]. rewrite app_nil_r. reflexivity.
Qed.

Lemma glued_piece (finished : list (list str)) (current : list str)
  (piece : str) :
  glued (finished ++ [current ++ [piece]])
  = glued (finished ++ [current]) ++ piece.
Proof.
  unfold glued. rewrite !map_app. cbn [map]. rewrite join_nil_snoc.
  rewrite !(join_snoc (lit " ")).
  destruct (map (join []) finished); [reflexivity |].
  rewrite <- !app_assoc. reflexivity.
Qed.

Hypothesis blue_is_text : forall t, colored t (Some (lit "blue")) [] = t.

Lemma title_pieces_glued (title_marks : list Z) (chars : list (Z * ascii)) :
  forall (len : Z) (finished : list (list str)) (current : list str),
    glued (title_pieces colored title_marks chars len finished current)
    = glued (finished ++ [current]) ++ map snd chars.
Proof.
  induction chars as [| [i t] rest IH]; intros len finished current.
  - simpl. rewrite app_nil_r. reflexivity.
  - cbn [title_pieces map snd].
    destruct (Ascii.eqb t " " && (90 <? len))%bool eqn:E.
    + rewrite IH, glued_break, <- app_assoc.
      apply Bool.andb_true_iff in E as [E _]. apply Ascii.eqb_eq in E.
      subst t. reflexivity.
    + rewrite IH, glued_piece, <- app_assoc. f_equal.
      destruct (existsb (Z.eqb i) title_marks);
        [rewrite blue_is_text |]; reflexivity.
Qed.

End Title.

Section TitleLines.

Variable colored : str -> option str -> list str -> str.

Lemma title_pieces_marks (m1 m2 : list Z) (chars : list (Z * ascii)) :
  (forall i, In i m1 <-> In i m2) ->
  forall len finished current,
    title_pieces colored m1 chars len finished current
    = title_pieces colored m2 chars len finished current.
Proof.
  intros Hm.
  assert (E : forall i, existsb (Z.eqb i) m1 = existsb (Z.eqb i) m2).
  { intros i. apply Bool.eq_true_iff_eq. rewrite !existsb_exists. split.
    - intros (x & Hx & Hi). apply Z.eqb_eq in Hi. subst x. exists i.
      split; [apply Hm, Hx | apply Z.eqb_refl].
    - intros (x & Hx & Hi). apply Z.eqb_eq in Hi. subst x. exists i.
      split; [apply Hm, Hx | apply Z.eqb_refl]. }
  induction chars as [| [i t] rest IH]; intros len finished current;
    [reflexivity |].
  cbn [title_pieces]. rewrite E, !IH. reflexivity.
Qed.

(** Every line before the last holds more than 90 pieces, and no
    character is lost: the pieces and the spaces at the breaks are as
    many as the characters. *)
Lemma title_pieces_lines (marks : list Z) (chars : list (Z * ascii)) :
  forall (len : Z) (finished : list (list str)) (current : list str),
    len = Z.of_nat (List.length current) ->
    Forall (fun l => (90 < List.length l)%nat) finished ->
    let lines := title_pieces colored marks chars len finished current in
    Forall (fun l => (90 < List.length l)%nat) (removelast lines)
    /\ (List.length (List.concat lines) + List.length lines
        = List.length (List.concat (finished ++ [current]))
          + List.length (finished ++ [current]) + List.length chars)%nat.
Proof.
  induction chars as [| [i t] rest IH]; intros len finished current Hl Hf.
  - cbn [title_pieces]. cbv zeta. rewrite removelast_last.
    split; [exact Hf | cbn [List.length]; lia].
  - cbn [title_pieces]. cbv zeta.
    destruct (Ascii.eqb t " " && (90 <? len))%bool eqn:E.
    + apply Bool.andb_true_iff in E as [_ E]. apply Z.ltb_lt in E.
      destruct (IH 0 (finished ++ [current]) []) as (H1 & H2);
        [reflexivity | apply Forall_app; split; [exact Hf |]; repeat constructor; lia |].
      split; [exact H1 |]. rewrite H2.
      rewrite !concat_app, !length_app. simpl. lia.
    + destruct (IH (len + 1) finished
                   (current ++ [if existsb (Z.eqb i) marks
                                then colored [t] (Some (lit "blue")) []
                                else [t]]))
        as (H1 & H2); [rewrite length_app; simpl; lia | exact Hf |].
      split; [exact H1 |]. rewrite H2.
      rewrite !concat_app, !length_app. simpl. rewrite !length_app. simpl. lia.
Qed.

End TitleLines.

(** ** Printing a list of entries *)

Lemma appended_refl (out : list str) : appended out out.
Proof. exists []. symmetry. apply app_nil_r. Qed.

Lemma appended_trans (a b c : list str) :
  appended a b -> appended b c -> appended a c.
Proof.
  intros (x & ->) (y & ->). exists (x ++ y). symmetry. apply app_assoc.
Qed.

Lemma appended_print (line : str) : always appended (print line).
Proof. intros out. exists [line]. reflexivity. Qed.

Lemma for_each_print (lines : list str) (out : list str) :
  for_each lines (fun line => print (lit "     " ++ line)) out
  = (Returned tt, out ++ map (fun line => lit "     " ++ line) lines).
Proof.
  revert out. induction lines as [| l lines IH]; intros out.
  - simpl. rewrite app_nil_r. reflexivity.
  - rewrite for_each_cons. cbn [print modify]. rewrite IH.
    cbn [map]. rewrite <- app_assoc. reflexivity.
Qed.

Section Printing.

Variable colored : str -> option str -> list str -> str.
Variable show_datetime : datetime -> str.

(** The body of the loop of [print_entries] on an entry whose authors
    line can be built. *)
Lemma print_entry_run (h : heap) (r : ref) (authors_line : list str)
  (rest : list ref) (out : list str) :
  author_pieces colored (author_marks (h r)) (enumerate (authors (h r))) 0 []
  = Returned authors_line ->
  exists new,
    print_entries colored show_datetime h (r :: rest) out
    = print_entries colored show_datetime h rest (out ++ new).
Proof.
  intros Ha. unfold print_entries at 1. rewrite for_each_cons. cbv zeta.
  rewrite Ha. erewrite bind_run by reflexivity.
  erewrite bind_run by reflexivity.
  erewrite bind_run by reflexivity.
  erewrite bind_run by apply for_each_print.
  cbn [print modify]. eexists. rewrite <- !app_assoc. reflexivity.
Qed.

Lemma print_entry_raises (h : heap) (r : ref) (rest : list ref)
  (out : list str) :
  author_pieces colored (author_marks (h r)) (enumerate (authors (h r))) 0 []
  = Raised IndexError ->
  print_entries colored show_datetime h (r :: rest) out
  = (Raised IndexError, out).
Proof.
  intros Ha. unfold print_entries. rewrite for_each_cons. cbv zeta.
  rewrite Ha. reflexivity.
Qed.

Lemma print_entries_fit (h : heap) (entries : list ref) :
  (forall r, In r entries -> marks_fit (h r)) ->
  forall out,
    fst (print_entries colored show_datetime h entries out) = Returned tt
    /\ appended out (snd (print_entries colored show_datetime h entries out)).
Proof.
  induction entries as [| r rest IH]; intros Hfit out.
  - split; [reflexivity | apply appended_refl].
  - destruct (author_pieces_shown colored (author_marks (h r))
                (authors (h r)) 0 0 [])
      as (j & _ & Hrun & _).
    { rewrite (Hfit r (or_introl eq_refl)). simpl. lia. }
    { lia. }
    destruct (print_entry_run h r _ rest out Hrun) as (new & ->).
    destruct (IH (fun r' Hr' => Hfit r' (or_intror Hr')) (out ++ new))
      as (Ho & Ha).
    split; [exact Ho |].
    eapply appended_trans; [exists new; reflexivity | exact Ha].
Qed.

Lemma for_each_ext_in (S A : Type) (xs : list A) (f g : A -> St S unit) :
  (forall x, In x xs -> forall st, f x st = g x st) ->
  forall st, for_each xs f st = for_each xs g st.
Proof.
  induction xs as [| x xs IH]; intros H st; [reflexivity |].
  rewrite !for_each_cons, (H x (or_introl eq_refl)).
  destruct (g x st) as [[[] | e |] st']; try reflexivity.
  apply IH. intros y Hy. apply H. right. exact Hy.
Qed.

Lemma print_entries_same_marks (h1 h2 : heap) (entries : list ref) :
  (forall r, In r entries ->
             exists marks,
               h2 r = set_title_marks marks (h1 r)
               /\ forall i, In i marks <-> In i (title_marks (h1 r))) ->
  forall out,
    print_entries colored show_datetime h2 entries out
    = print_entries colored show_datetime h1 entries out.
Proof.
  intros H. unfold print_entries. apply for_each_ext_in.
  intros r Hr st. cbv zeta. destruct (H r Hr) as (marks & -> & Hm).
  cbn [rating author_marks authors title title_marks id date_submitted
       category set_title_marks].
  rewrite (title_pieces_marks colored marks (title_marks (h1 r)) _ Hm).
  reflexivity.
Qed.

End Printing.

Lemma total_length_cons (a : str) (rest : list str) :
  total_length (a :: rest) = Z.of_nat (List.length a) + total_length rest.
Proof. reflexivity. Qed.

Lemma total_length_nonneg (names : list str) : 0 <= total_length names.
Proof.
  induction names as [| a rest IH]; [reflexivity |].
  rewrite total_length_cons. lia.
Qed.

(** An authors line cannot be built when a name that fits has no
    mark. *)
Lemma author_pieces_short (colored : str -> option str -> list str -> str)
  (marks : list bool) (names : list str) :
  forall (k : nat) (len : Z) (acc : list str),
    (k <= List.length marks < k + List.length names)%nat ->
    len + total_length names <= 90 ->
    author_pieces colored marks
      (combine (map Z.of_nat (seq k (List.length names))) names) len acc
    = Raised IndexError.
Proof.
  induction names as [| a rest IH]; intros k len acc Hk Hlen.
  - simpl in Hk. lia.
  - cbn [List.length seq map combine author_pieces].
    rewrite total_length_cons in Hlen.
    pose proof (total_length_nonneg rest) as Hrest.
    replace (90 <? len + Z.of_nat (List.length a)) with false
      by (symmetry; apply Z.ltb_ge; lia).
    rewrite getitem_of_nat.
    destruct (nth_error marks k) as [m |] eqn:Em; [| reflexivity].
    assert (k < List.length marks)%nat by (apply nth_error_Some; congruence).
    apply IH; [simpl in Hk; lia | lia].
Qed.

(** ** More on [evaluate] *)

Lemma set_rating_twice (a b : Z) (e : Entry) :
  set_rating a (set_rating b e) = set_rating a e.
Proof. reflexivity. Qed.

Lemma keywords_absent (rate_abstract : bool) (keyword_ratings : ratings) :
  forall e,
    (forall kr, In kr keyword_ratings ->
                count (lower (title e)) (lower (fst kr)) = 0) ->
    for_each keyword_ratings (rate_keyword rate_abstract) e
    = (Returned tt,
       set_rating (rating e
                   + keyword_score (title e) (abstract e) rate_abstract
                                   keyword_ratings) e).
Proof.
  induction keyword_ratings as [| kr krs IH]; intros e H.
  - unfold keyword_score. simpl. rewrite Z.add_0_r. destruct e; reflexivity.
  - rewrite for_each_cons, rate_keyword_absent by (apply H; left; reflexivity).
    rewrite IH by (intros kr' Hkr'; apply H; right; exact Hkr').
    set (e1 := set_rating _ e).
    change (title e1) with (title e). change (abstract e1) with (abstract e).
    subst e1. rewrite set_rating_twice. cbn [rating set_rating].
    assert (E : keyword_score (title e) (abstract e) rate_abstract (kr :: krs)
                = (if rate_abstract
                   then count (lower (abstract e)) (lower (fst kr)) * snd kr
                   else 0)
                  + keyword_score (title e) (abstract e) rate_abstract krs).
    { unfold keyword_score, sumZ. cbn [map fold_right].
      rewrite (H kr (or_introl eq_refl)). lia. }
    rewrite E, Z.add_assoc. reflexivity.
Qed.

Lemma evaluate_unfold (keyword_ratings author_ratings : ratings)
  (rate_abstract : bool) (e : Entry) :
  evaluate keyword_ratings author_ratings rate_abstract e
  = (for_each keyword_ratings (rate_keyword rate_abstract) ;;
     for_each author_ratings rate_author ;;
     get rating) (set_rating 0 e).
Proof. reflexivity. Qed.

(** X1: [mark_author] accepts the indices from [-len] to [len - 1] of
    [author_marks], a negative one counting from the end, and sets the
    mark at that place; any other index raises [IndexError] and leaves
    the entry as it was. *)
Theorem mark_author_index (e : Entry) (number : Z) :
  let n := Z.of_nat (List.length (author_marks e)) in
  mark_author number e
  = if ((- n <=? number) && (number <? n))%bool
    then (Returned tt,
          set_author_marks
            (replace_nth (author_marks e) (Z.to_nat (number mod n)) true) e)
    else (Raised IndexError, e).
Proof.
  intros n. unfold mark_author, setitem. fold n.
  destruct (Z.leb_spec (- n) number) as [Hlo | Hlo];
    destruct (Z.ltb_spec number n) as [Hhi | Hhi]; cbn [andb];
    destruct (Z.ltb_spec number 0) as [Hneg | Hpos].
  - replace (number mod n) with (number + n)
      by (apply (Z.mod_unique number n (-1) (number + n)); lia).
    replace ((number + n <? 0) || (n <=? number + n))%bool with false
      by (symmetry; apply Bool.orb_false_iff; split;
          [apply Z.ltb_ge | apply Z.leb_gt]; lia).
    reflexivity.
  - rewrite Z.mod_small by lia.
    replace ((number <? 0) || (n <=? number))%bool with false
      by (symmetry; apply Bool.orb_false_iff; split;
          [apply Z.ltb_ge | apply Z.leb_gt]; lia).
    reflexivity.
  - lia.
  - replace ((number <? 0) || (n <=? number))%bool with true
      by (symmetry; apply Bool.orb_true_iff; right; apply Z.leb_le; lia).
    reflexivity.
  - replace ((number + n <? 0) || (n <=? number + n))%bool with true
      by (symmetry; apply Bool.orb_true_iff; left; apply Z.ltb_lt; lia).
    reflexivity.
  - lia.
  - replace ((number + n <? 0) || (n <=? number + n))%bool with true
      by (symmetry; apply Bool.orb_true_iff; left; apply Z.ltb_lt; lia).
    reflexivity.
  - replace ((number <? 0) || (n <=? number))%bool with true
      by (symmetry; apply Bool.orb_true_iff; right; apply Z.leb_le; lia).
    reflexivity.
Qed.

(** X2: for a keyword without characters that are special in patterns,
    [mark_title_keyword] returns and changes nothing but [title_marks],
    to which it appends offsets: exactly the offsets covered by the
    non-overlapping occurrences of the keyword in the lowered title
    (each possibly more than once). *)
Theorem mark_title_keyword_plain (e : Entry) (keyword : str)
  (Hplain : plain keyword = true) :
  exists block,
    mark_title_keyword keyword e
    = (Returned tt, set_title_marks (title_marks e ++ block) e)
    /\ forall q,
         In q block
         <-> exists p d,
               In p (occurrences (lower (title e)) keyword)
               /\ (d < List.length keyword)%nat
               /\ q = Z.of_nat (p + d).
Proof. apply mark_title_keyword_block, Hplain. Qed.

Lemma mark_title_keyword_plain_witness :
  let e := paper (lit "AI research on AI systems") [] (lit "") in
  plain (lit "ai") = true
  /\ occurrences (lower (title e)) (lit "ai") = [0; 15]%nat
  /\ exists block,
       mark_title_keyword (lit "ai") e
       = (Returned tt, set_title_marks (title_marks e ++ block) e)
       /\ forall q,
            In q block
            <-> exists p d,
                  In p (occurrences (lower (title e)) (lit "ai"))
                  /\ (d < List.length (lit "ai"))%nat
                  /\ q = Z.of_nat (p + d).
Proof.
  intros e.
  assert (Hp : plain (lit "ai") = true) by (vm_compute; reflexivity).
  split; [exact Hp |]. split; [vm_compute; reflexivity |].
  exact (mark_title_keyword_plain e (lit "ai") Hp).
Defined.

(** X3: on an entry with a mark for each author, and with tables whose
    keywords and author fragments have no character that is special in
    patterns, [evaluate] returns, and the title marks it appends are
    exactly the offsets covered by the occurrences of the lowered
    keywords in the lowered title. *)
Theorem evaluate_plain_returns (e : Entry)
  (keyword_ratings author_ratings : ratings) (rate_abstract : bool)
  (Hfit : marks_fit e)
  (Hk : forallb (fun kr => plain (fst kr)) keyword_ratings = true)
  (Ha : forallb (fun ar => plain (fst ar)) author_ratings = true) :
  exists r e' extra,
    evaluate keyword_ratings author_ratings rate_abstract e = (Returned r, e')
    /\ title_marks e' = title_marks e ++ extra
    /\ forall q, In q extra <-> keyword_offset (title e) keyword_ratings q.
Proof.
  rewrite evaluate_unfold.
  destruct (keywords_plain rate_abstract keyword_ratings Hk (set_rating 0 e))
    as (extra & e1 & H1 & T1 & B1 & A1 & Q1).
  assert (Hs : shaped (authors e) (title_marks e1) e1).
  { unfold bib in B1. simpl in B1, A1. unfold marks_fit in Hfit.
    repeat split; congruence. }
  assert (Hloop : safe (shaped (authors e) (title_marks e1))
                       (for_each author_ratings rate_author)).
  { apply safe_for_each. intros ar Har. apply safe_rate_author.
    rewrite forallb_forall in Ha. apply Ha, Har. }
  destruct (Hloop e1 Hs) as ([] & H2 & (_ & _ & T2)).
  destruct (for_each author_ratings rate_author e1) as [o2 e2] eqn:E2.
  simpl in H2, T2. subst o2.
  exists (rating e2), e2, extra.
  erewrite bind_run by exact H1. erewrite bind_run by exact E2.
  split; [reflexivity |]. split; [rewrite T2, T1; reflexivity | exact Q1].
Qed.

Lemma evaluate_plain_returns_witness :
  let e := paper (lit "AI research on AI systems")
                 [lit "John Smith"; lit "Jane Doe"] (lit "Main ideas.") in
  let kr := [(lit "AI", 2); (lit "system", 1)] in
  let ar := [(lit "Smith", 5)] in
  marks_fit e
  /\ forallb (fun kr => plain (fst kr)) kr = true
  /\ forallb (fun ar => plain (fst ar)) ar = true
  /\ exists r e' extra,
       evaluate kr ar true e = (Returned r, e')
       /\ title_marks e' = title_marks e ++ extra
       /\ forall q, In q extra <-> keyword_offset (title e) kr q.
Proof.
  intros e kr ar.
  assert (Hf : marks_fit e) by reflexivity.
  assert (Hk : forallb (fun kr => plain (fst kr)) kr = true)
    by (vm_compute; reflexivity).
  assert (Ha : forallb (fun ar => plain (fst ar)) ar = true)
    by (vm_compute; reflexivity).
  split; [exact Hf |]. split; [exact Hk |]. split; [exact Ha |].
  exact (evaluate_plain_returns e kr ar true Hf Hk Ha).
Defined.

(** X4: whatever the tables, whatever [re] answers to the patterns and
    whatever the outcome, [evaluate] leaves the title as it is and
    appends to [title_marks] only offsets into the lowered title, the
    string the keywords are searched in: each one is at least 0 and
    less than the length of the lowered title.  All that is asked of
    [re.finditer] is that a match lies in the string searched.  (The
    offsets are offsets into the title itself where lowering keeps the
    length.) *)
Theorem evaluate_marks_in_title
  (finditer : str -> str -> outcome (list (nat * nat)))
  (search_ignorecase : str -> str -> outcome bool)
  (Hin : forall (pattern string : str) (spans : list (nat * nat)),
           finditer pattern string = Returned spans ->
           Forall (span_in string) spans)
  (e : Entry) (keyword_ratings author_ratings : ratings)
  (rate_abstract : bool) :
  let e' := snd (AnyRe.evaluate finditer search_ignorecase keyword_ratings
                                author_ratings rate_abstract e) in
  title e' = title e
  /\ exists extra,
       title_marks e' = title_marks e ++ extra
       /\ Forall (fun q => 0 <= q < Z.of_nat (List.length (lower (title e))))
                 extra.
Proof.
  exact (marks_in_title_evaluate finditer search_ignorecase Hin
           keyword_ratings author_ratings rate_abstract e).
Qed.

Lemma evaluate_marks_in_title_witness :
  (forall (pattern string : str) (spans : list (nat * nat)),
     re.finditer pattern string = Returned spans ->
     Forall (span_in string) spans)
  /\ let e := paper (lit "AI research on AI systems") [lit "John Smith"]
                    (lit "") in
     let e' := snd (AnyRe.evaluate re.finditer re.search_ignorecase
                      [(lit "ai", 2)] [(lit "Smith", 5)] true e) in
     title e' = title e
     /\ exists extra,
          title_marks e' = title_marks e ++ extra
          /\ Forall (fun q => 0 <= q < Z.of_nat (List.length (lower (title e))))
                    extra.
Proof.
  split; [exact finditer_in |]. intros e.
  exact (evaluate_marks_in_title re.finditer re.search_ignorecase
           finditer_in e [(lit "ai", 2)] [(lit "Smith", 5)] true).
Defined.

(** X5: on an entry without authors the author table is not looked at:
    [evaluate] does what it does with an empty author table, also when
    the table holds fragments that are not patterns. *)
Theorem evaluate_no_authors (e : Entry)
  (keyword_ratings author_ratings : ratings) (rate_abstract : bool)
  (Hnone : authors e = []) :
  evaluate keyword_ratings author_ratings rate_abstract e
  = evaluate keyword_ratings [] rate_abstract e.
Proof.
  rewrite !evaluate_unfold.
  pose proof (always_for_each grows_refl grows_trans keyword_ratings
                (rate_keyword rate_abstract)
                (grows_rate_keyword rate_abstract) (set_rating 0 e)) as G.
  unfold bind at 1 3.
  destruct (for_each keyword_ratings (rate_keyword rate_abstract)
              (set_rating 0 e)) as [[[] | x |] e1]; try reflexivity.
  simpl in G. destruct G as [B _ _ _]. unfold bib in B. simpl in B.
  assert (Ha : authors e1 = []) by congruence.
  erewrite bind_run by (apply authors_loop_no_authors, Ha). reflexivity.
Qed.

Lemma evaluate_no_authors_witness :
  let e := paper (lit "AI research") [] (lit "") in
  authors e = []
  /\ evaluate [(lit "ai", 2)] [(lit "(", 5)] true e
     = evaluate [(lit "ai", 2)] [] true e
  /\ fst (evaluate [(lit "ai", 2)] [] true e) = Returned 2.
Proof.
  intros e. assert (H : authors e = []) by reflexivity.
  split; [exact H |].
  split; [exact (evaluate_no_authors e [(lit "ai", 2)] [(lit "(", 5)] true H) |].
  vm_compute. reflexivity.
Defined.

(** X6: keywords that do not occur in the title are never compiled as
    patterns: when no keyword of the table occurs in the lowered title,
    [evaluate] with an empty author table returns the sum of the
    abstract counts times the weights and changes nothing but the
    rating, whatever characters the keywords hold. *)
Theorem evaluate_absent_keywords (e : Entry) (keyword_ratings : ratings)
  (rate_abstract : bool)
  (Habsent : forall kr, In kr keyword_ratings ->
                        count (lower (title e)) (lower (fst kr)) = 0) :
  let score := keyword_score (title e) (abstract e) rate_abstract
                             keyword_ratings in
  evaluate keyword_ratings [] rate_abstract e
  = (Returned score, set_rating score e)
  /\ score = sumZ (map (fun kr =>
                          if rate_abstract
                          then count (lower (abstract e)) (lower (fst kr))
                               * snd kr
                          else 0) keyword_ratings).
Proof.
  intros score. split.
  - rewrite evaluate_unfold.
    erewrite bind_run by (apply keywords_absent; exact Habsent).
    cbn [for_each]. erewrite bind_run by reflexivity.
    cbn [get rating set_rating title abstract]. reflexivity.
  - unfold score, keyword_score. f_equal. apply map_ext_in.
    intros kr Hkr. rewrite (Habsent kr Hkr). lia.
Qed.

Lemma evaluate_absent_keywords_witness :
  let e := paper (lit "AI research") [] (lit "Learning (deep) models") in
  let kr := [(lit "(", 3); (lit "c++", 1)] in
  (forall k, In k kr -> count (lower (title e)) (lower (fst k)) = 0)
  /\ evaluate kr [] true e = (Returned 3, set_rating 3 e).
Proof.
  intros e kr.
  assert (H : forall k, In k kr -> count (lower (title e)) (lower (fst k)) = 0).
  { intros k [<- | [<- | []]]; vm_compute; reflexivity. }
  split; [exact H |].
  exact (proj1 (evaluate_absent_keywords e kr true H)).
Defined.

Lemma evaluate_entries_unfold (entries : list ref)
  (keyword_ratings author_ratings : ratings) (rate_abstract : bool)
  (h : heap) :
  evaluate_entries entries keyword_ratings author_ratings rate_abstract h
  = match for_each entries
            (fun entry =>
               on entry (evaluate keyword_ratings author_ratings
                                  rate_abstract) ;; ret tt) h with
    | (Returned _, h') => (Returned entries, h')
    | (Raised x, h') => (Raised x, h')
    | (Unmodelled, h') => (Unmodelled, h')
    end.
Proof. reflexivity. Qed.

(** X7: when the listed entries are different objects and [evaluate]
    returns on each of them, [evaluate_entries] returns the list it was
    given, every listed entry is left as [evaluate] leaves it, and the
    objects that are not listed are not touched. *)
Theorem evaluate_entries_each (h : heap) (entries : list ref)
  (keyword_ratings author_ratings : ratings) (rate_abstract : bool)
  (Hdiff : NoDup entries)
  (Hret : forall r, In r entries ->
            returned (fst (evaluate keyword_ratings author_ratings
                                    rate_abstract (h r)))) :
  let run := evaluate_entries entries keyword_ratings author_ratings
                              rate_abstract h in
  fst run = Returned entries
  /\ (forall r, In r entries ->
        snd run r = snd (evaluate keyword_ratings author_ratings
                                  rate_abstract (h r)))
  /\ (forall r, ~ In r entries -> snd run r = h r).
Proof.
  intros run. subst run. rewrite evaluate_entries_unfold.
  destruct (batch_all keyword_ratings author_ratings rate_abstract
              entries Hdiff h Hret) as (Ho & Hs).
  pose proof (batch_frame keyword_ratings author_ratings rate_abstract
                entries h) as Hf.
  destruct (for_each entries _ h) as [o h'].
  simpl in Ho, Hs, Hf. subst o. simpl. auto.
Qed.

Lemma evaluate_entries_each_witness :
  let h : heap := fun r =>
    nth r [paper (lit "AI research") [lit "John Smith"] (lit "");
           paper (lit "Sorting") [lit "Jane Doe"] (lit "on ai")]
        (paper (lit "") [] (lit "")) in
  let kr := [(lit "ai", 2)] in
  let ar := [(lit "Smith", 5)] in
  let run := evaluate_entries [1; 0]%nat kr ar true h in
  NoDup [1; 0]%nat
  /\ fst run = Returned [1; 0]%nat
  /\ rating (snd run 0%nat) = 7 /\ rating (snd run 1%nat) = 2
  /\ snd run 2%nat = h 2%nat.
Proof.
  intros h kr ar run. subst run.
  assert (Hd : NoDup [1; 0]%nat).
  { repeat constructor; simpl; intuition discriminate. }
  assert (Hr : forall r, In r [1; 0]%nat ->
                 returned (fst (evaluate kr ar true (h r)))).
  { intros r [<- | [<- | []]]; eexists; vm_compute; reflexivity. }
  destruct (evaluate_entries_each h [1; 0]%nat kr ar true Hd Hr)
    as (Ho & Hs & Hf).
  split; [exact Hd |]. split; [exact Ho |].
  split; [rewrite (Hs 0%nat) by (simpl; auto); vm_compute; reflexivity |].
  split; [rewrite (Hs 1%nat) by (simpl; auto); vm_compute; reflexivity |].
  apply Hf. simpl. intuition discriminate.
Defined.

(** X8: the batch stops at the first entry on which [evaluate] raises:
    [evaluate_entries] raises the same exception instead of returning a
    list, the entries listed before it are evaluated, the failing one
    is left as the interrupted [evaluate] leaves it, and every other
    object, the entries listed after it included, is not touched. *)
Theorem evaluate_entries_stops (h : heap) (pre : list ref) (x : ref)
  (post : list ref) (keyword_ratings author_ratings : ratings)
  (rate_abstract : bool) (raised : exn)
  (Hdiff : NoDup (pre ++ [x]))
  (Hret : forall r, In r pre ->
            returned (fst (evaluate keyword_ratings author_ratings
                                    rate_abstract (h r))))
  (Hfail : fst (evaluate keyword_ratings author_ratings rate_abstract (h x))
           = Raised raised) :
  let run := evaluate_entries (pre ++ x :: post) keyword_ratings
                              author_ratings rate_abstract h in
  fst run = Raised raised
  /\ (forall r, In r pre ->
        snd run r = snd (evaluate keyword_ratings author_ratings
                                  rate_abstract (h r)))
  /\ snd run x = snd (evaluate keyword_ratings author_ratings rate_abstract
                               (h x))
  /\ (forall r, ~ In r (pre ++ [x]) -> snd run r = h r).
Proof.
  intros run. subst run. rewrite evaluate_entries_unfold.
  assert (Hnot : ~ returned (fst (evaluate keyword_ratings author_ratings
                                           rate_abstract (h x)))).
  { rewrite Hfail. intros (v & Hv). discriminate. }
  destruct (batch_stops keyword_ratings author_ratings rate_abstract
              pre x post Hdiff h Hret Hnot) as (Ho & Hp & Hx & Hf).
  rewrite Hfail in Ho. cbn [void] in Ho.
  destruct (for_each (pre ++ x :: post) _ h) as [o h'].
  simpl in Ho, Hp, Hx, Hf. subst o. simpl. auto.
Qed.

Lemma evaluate_entries_stops_witness :
  let h : heap := fun r =>
    nth r [paper (lit "AI research") [] (lit "");
           paper (lit "f(R) gravity") [] (lit "");
           paper (lit "AI systems") [] (lit "")]
        (paper (lit "") [] (lit "")) in
  let kr := [(lit "ai", 2); (lit "(", 1)] in
  let pre : list ref := [0%nat] in
  let post : list ref := [2%nat] in
  let x : ref := 1%nat in
  let run := evaluate_entries (pre ++ x :: post) kr [] true h in
  NoDup (pre ++ [x])
  /\ fst (evaluate kr [] true (h x)) = Raised re_error
  /\ fst run = Raised re_error
  /\ rating (snd run 0%nat) = 2
  /\ snd run 2%nat = h 2%nat.
Proof.
  intros h kr pre post x run. subst run.
  assert (Hd : NoDup (pre ++ [x])).
  { repeat constructor; simpl; intuition discriminate. }
  assert (Hr : forall r, In r pre ->
                 returned (fst (evaluate kr [] true (h r)))).
  { intros r [<- | []]. eexists. vm_compute. reflexivity. }
  assert (Hx : fst (evaluate kr [] true (h x)) = Raised re_error).
  { vm_compute. reflexivity. }
  destruct (evaluate_entries_stops h pre x post kr [] true re_error
              Hd Hr Hx) as (Ho & Hp & _ & Hf).
  split; [exact Hd |]. split; [exact Hx |]. split; [exact Ho |].
  split; [rewrite (Hp 0%nat) by (simpl; auto); vm_compute; reflexivity |].
  apply Hf. simpl. intuition discriminate.
Defined.

(** X9: the order of the items in the two tables does not matter for
    the result: when [evaluate] returns a rating, it returns the same
    rating with the tables in any other order, and marks the same
    authors. *)
Theorem evaluate_table_order (e e1 : Entry) (r : Z)
  (keyword_ratings keyword_ratings' author_ratings author_ratings' : ratings)
  (rate_abstract : bool)
  (Hk : Permutation keyword_ratings keyword_ratings')
  (Ha : Permutation author_ratings author_ratings')
  (Hret : evaluate keyword_ratings author_ratings rate_abstract e
          = (Returned r, e1)) :
  exists e2,
    evaluate keyword_ratings' author_ratings' rate_abstract e
    = (Returned r, e2)
    /\ rating e2 = rating e1
    /\ author_marks e2 = author_marks e1.
Proof.
  pose proof (evaluate_returns_rating _ _ _ _ Hret) as Hr1.
  pose proof (evaluate_returned _ _ _ _ Hret) as (S1 & L1 & N1).
  rewrite evaluate_unfold in Hret.
  apply bind_returned in Hret as ([] & ea & Hka & Hret).
  apply bind_returned in Hret as ([] & eb & Hab & _).
  pose proof (always_for_each grows_refl grows_trans keyword_ratings
                (rate_keyword rate_abstract)
                (grows_rate_keyword rate_abstract) (set_rating 0 e)) as Ga.
  rewrite Hka in Ga. simpl in Ga. apply grows_same_texts in Ga.
  pose proof (always_for_each grows_refl grows_trans keyword_ratings'
                (rate_keyword rate_abstract)
                (grows_rate_keyword rate_abstract) (set_rating 0 e)) as Ga'.
  assert (Hk' : fst (for_each keyword_ratings' (rate_keyword rate_abstract)
                       (set_rating 0 e)) = Returned tt).
  { apply (for_each_returns_perm _ (rate_keyword rate_abstract)
             (same_texts_rate_keyword rate_abstract)
             (grows_rate_keyword rate_abstract)
             keyword_ratings keyword_ratings' (set_rating 0 e)
             (set_rating 0 e) Hk (same_texts_refl _)).
    rewrite Hka. reflexivity. }
  destruct (for_each keyword_ratings' (rate_keyword rate_abstract)
              (set_rating 0 e)) as [oa' ea'] eqn:Hka'.
  simpl in Hk', Ga'. subst oa'. apply grows_same_texts in Ga'.
  assert (Hsame : same_texts ea ea').
  { eapply same_texts_trans; [apply same_texts_sym, Ga | exact Ga']. }
  assert (Ha' : fst (for_each author_ratings' rate_author ea') = Returned tt).
  { apply (for_each_returns_perm _ rate_author same_texts_rate_author
             grows_rate_author author_ratings author_ratings' ea ea' Ha Hsame).
    rewrite Hab. reflexivity. }
  destruct (for_each author_ratings' rate_author ea') as [ob' eb'] eqn:Hab'.
  simpl in Ha'. subst ob'.
  assert (Hret' : evaluate keyword_ratings' author_ratings' rate_abstract e
                  = (Returned (rating eb'), eb')).
  { rewrite evaluate_unfold. erewrite bind_run by exact Hka'.
    erewrite bind_run by exact Hab'. reflexivity. }
  pose proof (evaluate_returned _ _ _ _ Hret') as (S2 & L2 & N2).
  assert (Hrate : rating eb' = rating e1).
  { rewrite S2, S1.
    rewrite (keyword_score_perm _ _ rate_abstract _ _ Hk).
    rewrite (author_score_perm matched _ _ _ Ha). reflexivity. }
  exists eb'. split; [rewrite Hret'; congruence |]. split; [exact Hrate |].
  apply (nth_ext _ _ false false); [congruence |].
  intros i _. rewrite N2, N1, (hit_at_perm matched _ _ _ i Ha). reflexivity.
Qed.

Lemma evaluate_table_order_witness :
  let e := paper (lit "AI research on AI systems")
                 [lit "John Smith"; lit "Jane Doe"] (lit "Main ideas.") in
  let kr := [(lit "ai", 2); (lit "system", 3)] in
  let kr' := [(lit "system", 3); (lit "ai", 2)] in
  let ar := [(lit "Smith", 5); (lit "Doe", 1)] in
  let ar' := [(lit "Doe", 1); (lit "Smith", 5)] in
  Permutation kr kr' /\ Permutation ar ar'
  /\ evaluate kr ar true e = (Returned 15, snd (evaluate kr ar true e))
  /\ exists e2,
       evaluate kr' ar' true e = (Returned 15, e2)
       /\ rating e2 = rating (snd (evaluate kr ar true e))
       /\ author_marks e2 = author_marks (snd (evaluate kr ar true e)).
Proof.
  intros e kr kr' ar ar'.
  assert (Hk : Permutation kr kr') by apply perm_swap.
  assert (Ha : Permutation ar ar') by apply perm_swap.
  assert (H : evaluate kr ar true e = (Returned 15, snd (evaluate kr ar true e)))
    by (vm_compute; reflexivity).
  split; [exact Hk |]. split; [exact Ha |]. split; [exact H |].
  exact (evaluate_table_order e _ 15 kr kr' ar ar' true Hk Ha H).
Defined.

Lemma in_sorted_entries (h : heap) (entries : list ref) (rating_min : Z)
  (reverse : bool) (length : option Z) (r : ref) :
  In r (sorted_entries h entries rating_min reverse length) ->
  In r entries /\ rating_min <= rating (h r).
Proof.
  intros H. destruct (sorted_entries_split h entries rating_min reverse length)
    as (dropped & Hd).
  apply in_passing.
  destruct (ranked_spec h (passing h rating_min entries) (negb reverse))
    as (Hp & _ & _).
  apply (Permutation_in _ Hp). rewrite <- Hd. apply in_or_app. left. exact H.
Qed.

(** X10: every entry [sort_entries] returns is one of the entries it
    was given and is rated at least [rating_min]; with a [length] that
    is not negative it returns that many entries, or all that pass the
    filter when they are fewer, and without one it returns all that
    pass (none when [rating_min] is above every rating). *)
Theorem sort_entries_filters (h : heap) (entries : list ref) (rating_min : Z)
  (reverse : bool) (length : option Z) :
  exists out,
    fst (sort_entries entries rating_min reverse length h) = Returned out
    /\ (forall r, In r out -> In r entries /\ rating_min <= rating (h r))
    /\ List.length out
       = match length with
         | Some n =>
             if n <? 0 then List.length (passing h rating_min entries)
             else Nat.min (Z.to_nat n)
                          (List.length (passing h rating_min entries))
         | None => List.length (passing h rating_min entries)
         end.
Proof.
  exists (sorted_entries h entries rating_min reverse length).
  rewrite sort_entries_sorted_entries. split; [reflexivity |].
  split; [intros r; apply in_sorted_entries |].
  destruct (ranked_spec h (passing h rating_min entries) (negb reverse))
    as (Hp & _ & _).
  apply Permutation_length in Hp. unfold sorted_entries. cbv zeta.
  destruct length as [n |]; [| exact Hp].
  destruct (n <? 0); [exact Hp |]. rewrite length_firstn, Hp. reflexivity.
Qed.

(** X11: what [sort_entries] cuts off is never better than what it
    keeps: the entries that pass the filter are the ones returned and
    the ones dropped, and every returned entry is rated at least as
    high as every dropped one (at most as high when [reverse] is set,
    so that with [reverse] and a [length] the lowest-rated entries are
    the ones kept). *)
Theorem sort_entries_keeps_best (h : heap) (entries : list ref)
  (rating_min : Z) (reverse : bool) (length : option Z) :
  exists out dropped,
    fst (sort_entries entries rating_min reverse length h) = Returned out
    /\ Permutation (out ++ dropped) (passing h rating_min entries)
    /\ forall a b, In a out -> In b dropped ->
         if reverse then rating (h a) <= rating (h b)
         else rating (h b) <= rating (h a).
Proof.
  destruct (sorted_entries_split h entries rating_min reverse length)
    as (dropped & Hd).
  exists (sorted_entries h entries rating_min reverse length), dropped.
  rewrite sort_entries_sorted_entries. split; [reflexivity |].
  split.
  - rewrite Hd. apply (ranked_spec h (passing h rating_min entries)
                                   (negb reverse)).
  - pose proof (ranked_in_order_spec h (passing h rating_min entries) reverse)
      as Hs.
    rewrite <- Hd in Hs. apply StronglySorted_app_inv in Hs as (_ & _ & Hab).
    exact Hab.
Qed.

(** X12: sorting again what [sort_entries] returned, with the same
    arguments, returns the same list. *)
Theorem sort_entries_idempotent (h : heap) (entries : list ref)
  (rating_min : Z) (reverse : bool) (length : option Z) :
  exists out,
    fst (sort_entries entries rating_min reverse length h) = Returned out
    /\ sort_entries out rating_min reverse length h = (Returned out, h).
Proof.
  set (out := sorted_entries h entries rating_min reverse length).
  exists out. rewrite !sort_entries_sorted_entries.
  split; [reflexivity |]. f_equal. f_equal. unfold sorted_entries at 1.
  cbv zeta.
  assert (Hpass : passing h rating_min out = out).
  { apply passing_all. intros r Hr. apply (in_sorted_entries _ _ _ _ _ _ Hr). }
  assert (Hord : ranked h out (negb reverse) = out).
  { apply ranked_in_order.
    destruct (sorted_entries_split h entries rating_min reverse length)
      as (dropped & Hd). fold out in Hd.
    pose proof (ranked_in_order_spec h (passing h rating_min entries) reverse)
      as Hs.
    rewrite <- Hd in Hs. apply StronglySorted_app_inv in Hs as (Hs & _ & _).
    destruct reverse; exact Hs. }
  rewrite Hpass, Hord.
  destruct length as [n |]; [| reflexivity].
  destruct (n <? 0) eqn:En; [reflexivity |].
  apply firstn_all2. unfold out, sorted_entries. cbv zeta. rewrite En.
  rewrite length_firstn. lia.
Qed.

(** X13: [print_entries] raises nothing when every listed entry has a
    mark for each author, whatever [colored] returns; it only adds
    lines to what was printed before. *)
Theorem print_entries_returns
  (colored : str -> option str -> list str -> str)
  (show_datetime : datetime -> str) (h : heap) (entries : list ref)
  (out : list str)
  (Hfit : forall r, In r entries -> marks_fit (h r)) :
  exists new,
    print_entries colored show_datetime h entries out
    = (Returned tt, out ++ new).
Proof.
  destruct (print_entries_fit colored show_datetime h entries Hfit out)
    as (Ho & new & Hs).
  exists new. destruct (print_entries _ _ _ _ _) as [o out'].
  simpl in Ho, Hs. congruence.
Qed.

Lemma print_entries_returns_witness :
  let e := snd (evaluate [(lit "ai", 2)] [(lit "Smith", 5)] true
                  (paper (lit "AI research") [lit "John Smith"] (lit ""))) in
  (forall r, In r [0%nat] -> marks_fit ((fun _ => e) r))
  /\ exists new,
       print_entries uncolored show_timestamp (fun _ => e) [0%nat]
                     [lit "before"]
       = (Returned tt, [lit "before"] ++ new).
Proof.
  intros e.
  assert (H : forall r, In r [0%nat] -> marks_fit ((fun _ : ref => e) r))
    by (intros r _; reflexivity).
  split; [exact H |].
  exact (print_entries_returns uncolored show_timestamp (fun _ => e)
           [0%nat] [lit "before"] H).
Defined.

(** X14: [print_entries] reads the mark of every author it shows: on an
    entry with fewer marks than authors, whose names fit on the line,
    it raises [IndexError] before it prints anything for that entry. *)
Theorem print_entries_missing_mark
  (colored : str -> option str -> list str -> str)
  (show_datetime : datetime -> str) (h : heap) (r : ref) (rest : list ref)
  (out : list str)
  (Hshort : (List.length (author_marks (h r))
             < List.length (authors (h r)))%nat)
  (Hfits : total_length (authors (h r)) <= 90) :
  print_entries colored show_datetime h (r :: rest) out
  = (Raised IndexError, out).
Proof.
  apply print_entry_raises. unfold enumerate.
  apply author_pieces_short; [lia | lia].
Qed.

Lemma print_entries_missing_mark_witness :
  let e := set_author_marks []
             (paper (lit "AI research") [lit "John Smith"] (lit "")) in
  (List.length (author_marks e) < List.length (authors e))%nat
  /\ total_length (authors e) <= 90
  /\ print_entries uncolored show_timestamp (fun _ => e) [0%nat] []
     = (Raised IndexError, []).
Proof.
  intros e.
  assert (H1 : (List.length (author_marks e) < List.length (authors e))%nat)
    by (vm_compute; lia).
  assert (H2 : total_length (authors e) <= 90)
    by (vm_compute; discriminate).
  split; [exact H1 |]. split; [exact H2 |].
  exact (print_entries_missing_mark uncolored show_timestamp (fun _ => e)
           0%nat [] [] H1 H2).
Defined.

(** X15: the authors line of [print_entries] shows the authors in
    order, each painted by its mark, for as long as the lengths of
    their names add up to 90 at most; when an author does not fit, an
    ellipsis stands for that author and all later ones. *)
Theorem authors_line_shown
  (colored : str -> option str -> list str -> str) (e : Entry)
  (Hfit : marks_fit e) :
  exists j,
    (j <= List.length (authors e))%nat
    /\ author_pieces colored (author_marks e) (enumerate (authors e)) 0 []
       = Returned (shown colored (author_marks e) (authors e) j)
    /\ total_length (firstn j (authors e)) <= 90
    /\ ((j < List.length (authors e))%nat ->
        90 < total_length (firstn (S j) (authors e))).
Proof.
  assert (H1 : (0 + List.length (authors e)
                <= List.length (author_marks e))%nat)
    by (rewrite Hfit; simpl; lia).
  assert (H2 : 0 <= 90) by lia.
  destruct (author_pieces_shown colored (author_marks e) (authors e) 0 0 []
              H1 H2) as (j & Hj & Hrun & Hsum & Hnext).
  exists j. split; [exact Hj |]. split; [exact Hrun |].
  split; [lia |]. intros H. specialize (Hnext H). lia.
Qed.

Lemma authors_line_shown_witness :
  let long := lit "A very long author name of forty characters." in
  let e := paper (lit "t") [long; long; lit "Jane Doe"; lit "John Smith"]
                 (lit "") in
  marks_fit e
  /\ author_pieces uncolored (author_marks e) (enumerate (authors e)) 0 []
     = Returned [long; long; lit "..."]
  /\ exists j,
       (j <= List.length (authors e))%nat
       /\ author_pieces uncolored (author_marks e) (enumerate (authors e)) 0 []
          = Returned (shown uncolored (author_marks e) (authors e) j)
       /\ total_length (firstn j (authors e)) <= 90
       /\ ((j < List.length (authors e))%nat ->
           90 < total_length (firstn (S j) (authors e))).
Proof.
  intros long e. assert (H : marks_fit e) by reflexivity.
  split; [exact H |]. split; [vm_compute; reflexivity |].
  exact (authors_line_shown uncolored e H).
Defined.

(** X16: the title is broken at spaces only and nothing of it is lost:
    when [colored] gives back the text (colours switched off), the
    title lines joined by single spaces are the title. *)
Theorem title_lines_glue
  (colored : str -> option str -> list str -> str)
  (title_marks : list Z) (title : str)
  (Hblue : forall t, colored t (Some (lit "blue")) [] = t) :
  join (lit " ")
       (map (join [])
            (title_pieces colored title_marks (enumerate title) 0 [] []))
  = title.
Proof.
  pose proof (title_pieces_glued colored Hblue title_marks (enumerate title)
                0 [] []) as H.
  unfold glued in H. rewrite H, map_snd_enumerate. reflexivity.
Qed.

Lemma title_lines_glue_witness :
  let title :=
    lit "A title that is long enough to be broken into two lines by the printer, since it goes well beyond ninety characters" in
  (forall t, uncolored t (Some (lit "blue")) [] = t)
  /\ List.length (title_pieces uncolored [0; 2] (enumerate title) 0 [] [])
     = 2%nat
  /\ join (lit " ")
          (map (join [])
               (title_pieces uncolored [0; 2] (enumerate title) 0 [] []))
     = title.
Proof.
  intros title.
  assert (H : forall t, uncolored t (Some (lit "blue")) [] = t)
    by (intros t; reflexivity).
  split; [exact H |]. split; [vm_compute; reflexivity |].
  exact (title_lines_glue uncolored [0; 2] title H).
Defined.

(** X17: every title line but the last holds more than 90 characters,
    the characters on the lines and the breaks between them are as
    many as the characters of the title, and so a title of at most 91
    characters is printed on one line. *)
Theorem title_lines_width
  (colored : str -> option str -> list str -> str)
  (title_marks : list Z) (title : str) :
  let lines := title_pieces colored title_marks (enumerate title) 0 [] [] in
  Forall (fun l => (90 < List.length l)%nat) (removelast lines)
  /\ (List.length (List.concat lines) + List.length lines
      = S (List.length title))%nat
  /\ (List.length lines = 1%nat \/ (91 < List.length title)%nat).
Proof.
  intros lines.
  destruct (title_pieces_lines colored title_marks (enumerate title) 0 [] []
              eq_refl (Forall_nil _)) as (Hw & Hc).
  fold lines in Hw, Hc.
  assert (Hlen : List.length (enumerate title) = List.length title).
  { rewrite <- (map_snd_enumerate _ title) at 2. symmetry. apply length_map. }
  rewrite Hlen in Hc. simpl in Hc.
  split; [exact Hw |]. split; [lia |].
  destruct lines as [| l1 [| l2 rest]].
  - simpl in Hc. lia.
  - left. reflexivity.
  - right. cbn [removelast] in Hw. inversion Hw as [| ? ? H1 _]; subst.
    cbn [List.concat List.length] in Hc. rewrite length_app in Hc. lia.
Qed.

(** X18: [print_entries] reads [title_marks] as a set: two heaps whose
    listed entries differ only in how often and in which order their
    title marks are listed print the same lines. *)
Theorem print_entries_marks_as_set
  (colored : str -> option str -> list str -> str)
  (show_datetime : datetime -> str) (h1 h2 : heap) (entries : list ref)
  (out : list str)
  (Hsame : forall r, In r entries ->
             exists marks,
               h2 r = set_title_marks marks (h1 r)
               /\ forall i, In i marks <-> In i (title_marks (h1 r))) :
  print_entries colored show_datetime h2 entries out
  = print_entries colored show_datetime h1 entries out.
Proof. apply print_entries_same_marks, Hsame. Qed.

Lemma print_entries_marks_as_set_witness :
  let e1 := set_title_marks [0; 1]
              (paper (lit "AI research") [] (lit "")) in
  let e2 := set_title_marks [1; 0; 0; 1] e1 in
  (forall r, In r [0%nat] ->
     exists marks,
       (fun _ : ref => e2) r = set_title_marks marks ((fun _ : ref => e1) r)
       /\ forall i, In i marks
                    <-> In i (title_marks ((fun _ : ref => e1) r)))
  /\ print_entries uncolored show_timestamp (fun _ => e2) [0%nat] []
     = print_entries uncolored show_timestamp (fun _ => e1) [0%nat] [].
Proof.
  intros e1 e2.
  assert (H : forall r, In r [0%nat] ->
     exists marks,
       (fun _ : ref => e2) r = set_title_marks marks ((fun _ : ref => e1) r)
       /\ forall i, In i marks
                    <-> In i (title_marks ((fun _ : ref => e1) r))).
  { intros r _. exists [1; 0; 0; 1]. split; [reflexivity |].
    intros i. simpl. tauto. }
  split; [exact H |].
  exact (print_entries_marks_as_set uncolored show_timestamp
           (fun _ => e1) (fun _ => e2) [0%nat] [] H).
Defined.

Lemma evaluate_again_same (keyword_ratings author_ratings : ratings)
  (rate_abstract : bool) (e : Entry) :
  returned (fst (evaluate keyword_ratings author_ratings rate_abstract e)) ->
  let e1 := snd (evaluate keyword_ratings author_ratings rate_abstract e) in
  let e2 := snd (evaluate keyword_ratings author_ratings rate_abstract e1) in
  e2 = set_title_marks (title_marks e2) e1
  /\ forall i, In i (title_marks e2) <-> In i (title_marks e1).
Proof.
  intros (r & Hr) e1 e2.
  pose proof (evaluate_again keyword_ratings author_ratings rate_abstract e)
    as Hag. cbv zeta in Hag. fold e1 in Hag. fold e2 in Hag.
  destruct Hag as (Ho & Hrate & extra & M1 & M2).
  pose proof (grows_evaluate keyword_ratings author_ratings rate_abstract e1)
    as [B2 L2 _ _]. fold e2 in B2, L2.
  assert (R1 : evaluate keyword_ratings author_ratings rate_abstract e
               = (Returned r, e1)).
  { unfold e1. destruct (evaluate _ _ _ e) as [o x]. simpl in Hr. subst o.
    reflexivity. }
  assert (R2 : evaluate keyword_ratings author_ratings rate_abstract e1
               = (Returned r, e2)).
  { unfold e2. rewrite Hr in Ho.
    destruct (evaluate _ _ _ e1) as [o x]. simpl in Ho. subst o.
    reflexivity. }
  pose proof (evaluate_returned _ _ _ _ R1) as (_ & L1 & N1).
  pose proof (evaluate_returned _ _ _ _ R2) as (_ & _ & N2).
  pose proof (grows_evaluate keyword_ratings author_ratings rate_abstract e)
    as [B1 _ _ _]. fold e1 in B1.
  assert (Ea : authors e1 = authors e) by (unfold bib in B1; congruence).
  assert (Hm : author_marks e2 = author_marks e1).
  { apply (nth_ext _ _ false false); [exact L2 |].
    intros i _. rewrite N2, Ea, N1.
    destruct (nth i (author_marks e) false),
             (hit_at matched (authors e) author_ratings i); reflexivity. }
  split.
  - unfold bib in B2. destruct e1, e2. simpl in *.
    injection B2 as -> -> -> -> -> -> ->. subst. reflexivity.
  - intros i. rewrite M2, M1, !in_app_iff. tauto.
Qed.

(** X19: scoring an entry a second time with the same tables does not
    change what is printed for it: after an [evaluate] that returns, a
    second [evaluate] leaves an entry for which [print_entries] prints
    the same lines. *)
Theorem print_after_reevaluation
  (colored : str -> option str -> list str -> str)
  (show_datetime : datetime -> str) (e : Entry)
  (keyword_ratings author_ratings : ratings) (rate_abstract : bool)
  (out : list str)
  (Hret : returned (fst (evaluate keyword_ratings author_ratings
                                  rate_abstract e))) :
  let e1 := snd (evaluate keyword_ratings author_ratings rate_abstract e) in
  let e2 := snd (evaluate keyword_ratings author_ratings rate_abstract e1) in
  print_entries colored show_datetime (fun _ => e2) [0%nat] out
  = print_entries colored show_datetime (fun _ => e1) [0%nat] out.
Proof.
  intros e1 e2.
  destruct (evaluate_again_same keyword_ratings author_ratings rate_abstract
              e Hret) as (He & Hm).
  fold e1 in He, Hm. fold e2 in He, Hm.
  apply print_entries_same_marks. intros r _.
  exists (title_marks e2). split; [exact He | exact Hm].
Qed.

Lemma print_after_reevaluation_witness :
  let e := paper (lit "AI research on AI systems") [lit "John Smith"]
                 (lit "") in
  let kr := [(lit "ai", 2)] in
  let ar := [(lit "Smith", 5)] in
  let e1 := snd (evaluate kr ar true e) in
  let e2 := snd (evaluate kr ar true e1) in
  returned (fst (evaluate kr ar true e))
  /\ title_marks e1 <> title_marks e2
  /\ print_entries uncolored show_timestamp (fun _ => e2) [0%nat] []
     = print_entries uncolored show_timestamp (fun _ => e1) [0%nat] [].
Proof.
  intros e kr ar e1 e2.
  assert (H : returned (fst (evaluate kr ar true e)))
    by (eexists; vm_compute; reflexivity).
  split; [exact H |]. split; [vm_compute; discriminate |].
  exact (print_after_reevaluation uncolored show_timestamp e kr ar true [] H).
Defined.

(** X20: the pipeline holds together: on a heap where every entry has a
    mark for each author, whatever [evaluate_entries] did and however
    it ended, [sort_entries] returns a list and [print_entries] prints
    that list without raising. *)
Theorem ranked_entries_print
  (colored : str -> option str -> list str -> str)
  (show_datetime : datetime -> str) (h : heap) (entries : list ref)
  (keyword_ratings author_ratings : ratings) (rate_abstract : bool)
  (rating_min : Z) (reverse : bool) (length : option Z) (out : list str)
  (Hfit : forall r, marks_fit (h r)) :
  let h' := snd (evaluate_entries entries keyword_ratings author_ratings
                                  rate_abstract h) in
  exists ranking new,
    sort_entries entries rating_min reverse length h' = (Returned ranking, h')
    /\ print_entries colored show_datetime h' ranking out
       = (Returned tt, out ++ new).
Proof.
  intros h'.
  assert (Hfit' : forall r, marks_fit (h' r)).
  { intros r. eapply grows_marks_fit; [| apply Hfit].
    apply (heap_grows_evaluate_entries entries keyword_ratings author_ratings
             rate_abstract h r). }
  exists (sorted_entries h' entries rating_min reverse length).
  destruct (print_entries_fit colored show_datetime h'
              (sorted_entries h' entries rating_min reverse length)
              (fun r _ => Hfit' r) out) as (Ho & new & Hs).
  exists new. split; [apply sort_entries_sorted_entries |].
  destruct (print_entries _ _ _ _ _) as [o out'].
  simpl in Ho, Hs. congruence.
Qed.

Lemma ranked_entries_print_witness :
  let h : heap := fun r =>
    nth r [paper (lit "AI research") [lit "John Smith"] (lit "");
           paper (lit "Sorting") [lit "Jane Doe"] (lit "on ai")]
        (paper (lit "") [] (lit "")) in
  let h' := snd (evaluate_entries [0; 1]%nat [(lit "ai", 2)]
                                  [(lit "Doe", 9)] true h) in
  (forall r, marks_fit (h r))
  /\ fst (sort_entries [0; 1]%nat 1 false None h') = Returned [1; 0]%nat
  /\ exists ranking new,
       sort_entries [0; 1]%nat 1 false None h' = (Returned ranking, h')
       /\ print_entries uncolored show_timestamp h' ranking []
          = (Returned tt, [] ++ new).
Proof.
  intros h h'.
  assert (H : forall r, marks_fit (h r)).
  { intros [| [| r]]; try reflexivity. unfold h. destruct r; reflexivity. }
  split; [exact H |]. split; [vm_compute; reflexivity |].
  exact (ranked_entries_print uncolored show_timestamp h [0; 1]%nat
           [(lit "ai", 2)] [(lit "Doe", 9)] true 1 false None [] H).
Defined.
